(** * External-memory page orchestrator: [SparsePageDMatrix]

    A shallow embedding of [src/data/sparse_page_dmatrix.cc] and the
    properties of its construction pass, its cache gates and its batch
    retrieval operations.

    The object lives in a store: cache descriptors and page sources are
    [std::shared_ptr] targets in the C++ code, so they are kept in heaps
    addressed by location, and the registry and the sources hold locations.
    Fatal checks ([CHECK_*], [LOG(FATAL)]) end a call with [Fatal], carrying
    the state reached when the check fired. *)

From Stdlib Require Import ZArith Lia.
From stdpp Require Import base option list gmap strings pretty.

Local Open Scope Z_scope.

(** ** Machine integers *)

(** [size_t] and [uint64_t] arithmetic wraps modulo 2^64, [uint32_t] modulo 2^32. *)
Definition size_t_mod : Z := 2 ^ 64.
Definition wrap64 (z : Z) : Z := z mod size_t_mod.
Definition wrap32 (z : Z) : Z := z mod 2 ^ 32.

(** ** Data model *)

(** Heap locations of shared objects. *)
Abbreviation loc := nat (only parsing).

(** The fields of [MetaInfo] the orchestrator reads or writes; [labels]
    stands for the per-row payload that [Extend] concatenates. *)
Record MetaInfo := mkMetaInfo {
  num_row_ : Z;
  num_col_ : Z;
  num_nonzero_ : Z;
  feature_types : list Z;
  labels : list Z
}.

Definition MetaInfo_empty : MetaInfo := mkMetaInfo 0 0 0 [] [].

Definition set_shape (i : MetaInfo) (rows cols nnz : Z) : MetaInfo :=
  mkMetaInfo rows cols nnz (feature_types i) (labels i).

Definition set_num_col (i : MetaInfo) (cols : Z) : MetaInfo :=
  mkMetaInfo (num_row_ i) cols (num_nonzero_ i) (feature_types i) (labels i).

(** What the staging buffer holds: a host adapter that [HostAdapterDispatch]
    can inspect, or a device-resident one it cannot. *)
Inductive AdapterKind := HostAdapter | DeviceAdapter.

(** One raw batch delivered by the external iterator into the proxy, with
    the size of the row page materialised from it. *)
Record RawBatch := mkRawBatch {
  adapter : AdapterKind;
  NumRows : Z;
  NumCols : Z;
  proxy_Info : MetaInfo;
  page_data_Size : Z
}.

Record SparsePage := mkSparsePage { data_Size : Z }.

Definition page_of (b : RawBatch) : SparsePage := mkSparsePage (page_data_Size b).

(** [BatchParam]: the three fields this file reads. *)
Record BatchParam := mkBatchParam {
  max_bin : Z;
  hess : list Z;
  regen : bool
}.

Record HistogramCuts := mkCuts { Values : list Z }.

Inductive PageFormat := RowFmt | ColFmt | SortedColFmt | GradientIndexFmt.

Global Instance PageFormat_eq_dec : EqDecision PageFormat.
Proof. solve_decision. Defined.

Definition suffix_of (f : PageFormat) : string :=
  match f with
  | RowFmt => ".row.page"
  | ColFmt => ".col.page"
  | SortedColFmt => ".sorted.col.page"
  | GradientIndexFmt => ".gradient_index.page"
  end.

(** A cache descriptor: the "written" flag, and the name and format that
    make up the shard file name. *)
Record Cache := mkCache {
  written : bool;
  cache_name : string;
  cache_format : string
}.

Definition Commit (c : Cache) : Cache := mkCache true (cache_name c) (cache_format c).

(** What a histogram-index source is bound to at creation. *)
Record GHistBinding := mkGHistBinding {
  gb_param : BatchParam;
  gb_cuts : HistogramCuts;
  gb_dense : bool;
  gb_max_bin : Z;
  gb_ft : list Z
}.

(** A page source object: its format, the cache descriptor and upstream row
    source it shares, its construction arguments and its position. *)
Record PageSource := mkPageSource {
  src_format : PageFormat;
  src_cache : loc;
  src_upstream : option loc;
  src_n_features : Z;
  src_n_batches : Z;
  src_binding : option GHistBinding;
  src_count : nat
}.

Definition set_count (p : PageSource) (n : nat) : PageSource :=
  mkPageSource (src_format p) (src_cache p) (src_upstream p) (src_n_features p)
    (src_n_batches p) (src_binding p) n.

(** The single in-memory histogram page of the unweighted regime. *)
Record GHistIndexMatrix := mkGHistIndexMatrix {
  gh_max_bin : Z;
  gh_sorted_sketch : bool;
  gh_rows : list SparsePage
}.

(** The fields of the [SparsePageDMatrix] object. *)
Record DMatrix := mkDMatrix {
  this_ptr : string;
  info_ : MetaInfo;
  missing_ : Z;
  ctx_nthread : Z;
  cache_prefix_ : string;
  n_batches_ : Z;
  cache_info_ : gmap string loc;
  sparse_page_source_ : option loc;
  column_source_ : option loc;
  sorted_column_source_ : option loc;
  ghist_index_source_ : option loc;
  ellpack_page_source_ : option loc;
  ghist_index_page_ : option loc;
  batch_param_ : BatchParam
}.

(** What a call does to its collaborators, in order. *)
Inductive Event :=
  | IterReset
  | IterNext
  | CacheMade (id : string) (l : loc)
  | CacheErased (id : string)
  | SourceCreated (f : PageFormat) (l : loc)
  | SourceReset (f : PageFormat) (l : loc)
  | SketchComputed (mb : Z) (sorted : bool)
  | GHistBuilt (l : loc).

Record State := mkState {
  this : DMatrix;
  caches : list Cache;
  sources : list PageSource;
  ghists : list GHistIndexMatrix;
  batches : list RawBatch;
  trace : list Event
}.

Inductive Error :=
  | CheckFailed (what : string)
  | NoGPUSupport
  | OutOfRange (id : string)
  | Dangling.

Inductive Result (A : Type) :=
  | Ok (a : A) (s : State)
  | Fatal (e : Error) (s : State).
Arguments Ok {A} a s.
Arguments Fatal {A} e s.

Definition final_state {A} (r : Result A) : State :=
  match r with Ok _ s => s | Fatal _ s => s end.

Definition is_Ok {A} (r : Result A) : bool :=
  match r with Ok _ _ => true | Fatal _ _ => false end.

Definition error_of {A} (r : Result A) : option Error :=
  match r with Ok _ _ => None | Fatal e _ => Some e end.

(** ** State and error monad *)

Definition M (A : Type) : Type := State -> Result A.

Definition ret {A} (a : A) : M A := fun s => Ok a s.

Definition bind {A B} (c : M A) (k : A -> M B) : M B :=
  fun s => match c s with
           | Ok a s' => k a s'
           | Fatal e s' => Fatal e s'
           end.

Notation "'let*' x ':=' c 'in' k" := (bind c (fun x => k))
  (at level 10, x pattern, c at level 100, k at level 200).
Notation "c ';;' k" := (bind c (fun _ => k))
  (at level 100, k at level 200, right associativity, only parsing).

Definition get : M State := fun s => Ok s s.
Definition fatal {A} (e : Error) : M A := fun s => Fatal e s.
Definition modify (f : State -> State) : M unit := fun s => Ok tt (f s).
Definition CHECK (b : bool) (what : string) : M unit :=
  if b then ret tt else fatal (CheckFailed what).

Definition with_this (f : DMatrix -> DMatrix) (s : State) : State :=
  mkState (f (this s)) (caches s) (sources s) (ghists s) (batches s) (trace s).
Definition with_caches (f : list Cache -> list Cache) (s : State) : State :=
  mkState (this s) (f (caches s)) (sources s) (ghists s) (batches s) (trace s).
Definition with_sources (f : list PageSource -> list PageSource) (s : State) : State :=
  mkState (this s) (caches s) (f (sources s)) (ghists s) (batches s) (trace s).
Definition with_ghists (f : list GHistIndexMatrix -> list GHistIndexMatrix) (s : State) : State :=
  mkState (this s) (caches s) (sources s) (f (ghists s)) (batches s) (trace s).
Definition with_trace (f : list Event -> list Event) (s : State) : State :=
  mkState (this s) (caches s) (sources s) (ghists s) (batches s) (f (trace s)).

Definition log (e : Event) : M unit := modify (with_trace (fun t => t ++ [e])).

Definition set_info (i : MetaInfo) (d : DMatrix) : DMatrix :=
  mkDMatrix (this_ptr d) i (missing_ d) (ctx_nthread d) (cache_prefix_ d) (n_batches_ d)
    (cache_info_ d) (sparse_page_source_ d) (column_source_ d) (sorted_column_source_ d)
    (ghist_index_source_ d) (ellpack_page_source_ d) (ghist_index_page_ d) (batch_param_ d).
Definition set_ctx_nthread (n : Z) (d : DMatrix) : DMatrix :=
  mkDMatrix (this_ptr d) (info_ d) (missing_ d) n (cache_prefix_ d) (n_batches_ d)
    (cache_info_ d) (sparse_page_source_ d) (column_source_ d) (sorted_column_source_ d)
    (ghist_index_source_ d) (ellpack_page_source_ d) (ghist_index_page_ d) (batch_param_ d).
Definition set_cache_prefix (p : string) (d : DMatrix) : DMatrix :=
  mkDMatrix (this_ptr d) (info_ d) (missing_ d) (ctx_nthread d) p (n_batches_ d)
    (cache_info_ d) (sparse_page_source_ d) (column_source_ d) (sorted_column_source_ d)
    (ghist_index_source_ d) (ellpack_page_source_ d) (ghist_index_page_ d) (batch_param_ d).
Definition set_n_batches (n : Z) (d : DMatrix) : DMatrix :=
  mkDMatrix (this_ptr d) (info_ d) (missing_ d) (ctx_nthread d) (cache_prefix_ d) n
    (cache_info_ d) (sparse_page_source_ d) (column_source_ d) (sorted_column_source_ d)
    (ghist_index_source_ d) (ellpack_page_source_ d) (ghist_index_page_ d) (batch_param_ d).
Definition set_cache_info (m : gmap string loc) (d : DMatrix) : DMatrix :=
  mkDMatrix (this_ptr d) (info_ d) (missing_ d) (ctx_nthread d) (cache_prefix_ d) (n_batches_ d)
    m (sparse_page_source_ d) (column_source_ d) (sorted_column_source_ d)
    (ghist_index_source_ d) (ellpack_page_source_ d) (ghist_index_page_ d) (batch_param_ d).
Definition set_sparse_page_source (p : option loc) (d : DMatrix) : DMatrix :=
  mkDMatrix (this_ptr d) (info_ d) (missing_ d) (ctx_nthread d) (cache_prefix_ d) (n_batches_ d)
    (cache_info_ d) p (column_source_ d) (sorted_column_source_ d)
    (ghist_index_source_ d) (ellpack_page_source_ d) (ghist_index_page_ d) (batch_param_ d).
Definition set_column_source (p : option loc) (d : DMatrix) : DMatrix :=
  mkDMatrix (this_ptr d) (info_ d) (missing_ d) (ctx_nthread d) (cache_prefix_ d) (n_batches_ d)
    (cache_info_ d) (sparse_page_source_ d) p (sorted_column_source_ d)
    (ghist_index_source_ d) (ellpack_page_source_ d) (ghist_index_page_ d) (batch_param_ d).
Definition set_sorted_column_source (p : option loc) (d : DMatrix) : DMatrix :=
  mkDMatrix (this_ptr d) (info_ d) (missing_ d) (ctx_nthread d) (cache_prefix_ d) (n_batches_ d)
    (cache_info_ d) (sparse_page_source_ d) (column_source_ d) p
    (ghist_index_source_ d) (ellpack_page_source_ d) (ghist_index_page_ d) (batch_param_ d).
Definition set_ghist_index_source (p : option loc) (d : DMatrix) : DMatrix :=
  mkDMatrix (this_ptr d) (info_ d) (missing_ d) (ctx_nthread d) (cache_prefix_ d) (n_batches_ d)
    (cache_info_ d) (sparse_page_source_ d) (column_source_ d) (sorted_column_source_ d)
    p (ellpack_page_source_ d) (ghist_index_page_ d) (batch_param_ d).
Definition set_ghist_index_page (p : option loc) (d : DMatrix) : DMatrix :=
  mkDMatrix (this_ptr d) (info_ d) (missing_ d) (ctx_nthread d) (cache_prefix_ d) (n_batches_ d)
    (cache_info_ d) (sparse_page_source_ d) (column_source_ d) (sorted_column_source_ d)
    (ghist_index_source_ d) (ellpack_page_source_ d) p (batch_param_ d).
Definition set_batch_param (p : BatchParam) (d : DMatrix) : DMatrix :=
  mkDMatrix (this_ptr d) (info_ d) (missing_ d) (ctx_nthread d) (cache_prefix_ d) (n_batches_ d)
    (cache_info_ d) (sparse_page_source_ d) (column_source_ d) (sorted_column_source_ d)
    (ghist_index_source_ d) (ellpack_page_source_ d) (ghist_index_page_ d) p.

Definition update_this (f : DMatrix -> DMatrix) : M unit := modify (with_this f).

(** Heap access.  A location that is not in its heap cannot arise from the
    calls below; reading one is reported as [Dangling]. *)
Definition read_cache (l : loc) : M Cache :=
  fun s => match caches s !! l with Some c => Ok c s | None => Fatal Dangling s end.
Definition read_source (l : loc) : M PageSource :=
  fun s => match sources s !! l with Some p => Ok p s | None => Fatal Dangling s end.
Definition alloc_cache (c : Cache) : M loc :=
  fun s => Ok (length (caches s)) (with_caches (fun h => h ++ [c]) s).
Definition alloc_source (p : PageSource) : M loc :=
  fun s => Ok (length (sources s)) (with_sources (fun h => h ++ [p]) s).
Definition alloc_ghist (g : GHistIndexMatrix) : M loc :=
  fun s => Ok (length (ghists s)) (with_ghists (fun h => h ++ [g]) s).
Definition write_cache (l : loc) (c : Cache) : M unit :=
  modify (with_caches (fun h => <[l := c]> h)).
Definition write_source (l : loc) (p : PageSource) : M unit :=
  modify (with_sources (fun h => <[l := p]> h)).

(** ** Collaborators

    Code the orchestrator calls but that lives in other translation units:
    the build flag, the distributed runtime, [MetaInfo::Extend], the
    comparison and default value of [BatchParam], the sketching routine and
    the density test.  They are parameters of the whole development. *)
Record Collaborators := mkCollaborators {
  XGBOOST_USE_CUDA : bool;
  IsDistributed : bool;
  GetRank : Z;
  Allreduce_Max : Z -> Z;
  Extend : MetaInfo -> MetaInfo -> bool -> bool -> MetaInfo;
  BatchParam_ne : BatchParam -> BatchParam -> bool;
  BatchParam_default : BatchParam;
  SketchOnDMatrix_cuts : MetaInfo -> list SparsePage -> Z -> bool -> list Z -> HistogramCuts;
  IsDense : MetaInfo -> bool
}.

Section Orchestrator.

Variable E : Collaborators.

(** Modelled from the spec: [common::AssertGPUSupport], whose definition is
    not in this file.  In a build without device support it fails fatally
    with a capability-missing error; in a device build it does nothing. *)
Definition AssertGPUSupport : M unit :=
  if XGBOOST_USE_CUDA E then ret tt else fatal NoGPUSupport.

(** Modelled from the spec: the device-side queries of a build with CUDA,
    which this file only declares.  A raw batch has "a row count and column
    count queryable via ... a device-side fallback": they answer with the
    batch's own counts. *)
Definition NSamplesDevice_cuda (proxy : RawBatch) : M Z := ret (NumRows proxy).
Definition NFeaturesDevice_cuda (proxy : RawBatch) : M Z := ret (NumCols proxy).

(** [detail::NSamplesDevice] and [detail::NFeaturesDevice]: without CUDA the
    body is the assertion followed by [return 0]. *)
Definition NSamplesDevice (proxy : RawBatch) : M Z :=
  if XGBOOST_USE_CUDA E then NSamplesDevice_cuda proxy
  else (AssertGPUSupport ;; ret 0).

Definition NFeaturesDevice (proxy : RawBatch) : M Z :=
  if XGBOOST_USE_CUDA E then NFeaturesDevice_cuda proxy
  else (AssertGPUSupport ;; ret 0).

(** Modelled from the spec: [HostAdapterDispatch] with a [type_error] out
    parameter.  A host adapter is queried; for any other adapter the flag is
    raised and the default value 0 is returned. *)
Definition HostAdapterDispatch (proxy : RawBatch) (fn : RawBatch -> Z) : Z * bool :=
  match adapter proxy with
  | HostAdapter => (fn proxy, false)
  | DeviceAdapter => (0, true)
  end.

(** The two lambdas of the constructor. *)
Definition num_rows (proxy : RawBatch) : M Z :=
  let '(n_samples, type_error) := HostAdapterDispatch proxy NumRows in
  if type_error then NSamplesDevice proxy else ret n_samples.

Definition num_cols (proxy : RawBatch) : M Z :=
  let '(n_features, type_error) := HostAdapterDispatch proxy NumCols in
  if type_error then NFeaturesDevice proxy else ret n_features.

(** *** Cache registry *)

Definition MakeId (prefix ptr : string) : string := prefix +:+ "-" +:+ ptr.

(** Modelled from the spec: [MakeCache], the registry's get-or-create.  The
    key is made of the matrix identity, the prefix and the format suffix; a
    missing entry is allocated with "written = false". *)
Definition MakeCache (format prefix : string) : M string :=
  let* s := get in
  let name := MakeId prefix (this_ptr (this s)) in
  let id := name +:+ format in
  match cache_info_ (this s) !! id with
  | Some _ => ret id
  | None =>
      let* l := alloc_cache (mkCache false name format) in
      update_this (fun d => set_cache_info (<[id := l]> (cache_info_ d)) d) ;;
      log (CacheMade id l) ;;
      ret id
  end.

(** [cache_info_.at(id)]: [std::map::at] throws when the key is absent. *)
Definition cache_info_at (id : string) : M loc :=
  fun s => match cache_info_ (this s) !! id with
           | Some l => Ok l s
           | None => Fatal (OutOfRange id) s
           end.

Definition cache_info_erase (id : string) : M unit :=
  update_this (fun d => set_cache_info (delete id (cache_info_ d)) d) ;;
  log (CacheErased id).

(** *** Page sources *)

(** The number of pages of every format: one per raw batch. *)
Definition n_pages (s : State) : nat := length (batches s).

(** Modelled from the spec: the constructor of the primary row-page source.
    On a cache miss it binds to the external iterator, restarting it and
    pulling the first raw batch. *)
Definition new_SparsePageSource (n_features n_batches : Z) (cache : loc) : M loc :=
  let* c := read_cache cache in
  let* p := alloc_source (mkPageSource RowFmt cache None n_features n_batches None 0) in
  log (SourceCreated RowFmt p) ;;
  (if written c then ret tt else (log IterReset ;; log IterNext)) ;;
  ret p.

(** Modelled from the spec: the constructor of a derived source, keyed on its
    cache descriptor and bound to the shared row-page source. *)
Definition new_DerivedSource (f : PageFormat) (n_features n_batches : Z) (cache : loc)
    (binding : option GHistBinding) (upstream : option loc) : M loc :=
  let* p := alloc_source (mkPageSource f cache upstream n_features n_batches binding 0) in
  log (SourceCreated f p) ;;
  ret p.

(** Modelled from the spec: [reset()] rewinds a source to its first page.  A
    primary source whose cache is not yet written restarts the iterator. *)
Definition PageSource_Reset (l : loc) : M unit :=
  let* p := read_source l in
  let* c := read_cache (src_cache p) in
  write_source l (set_count p 0) ;;
  log (SourceReset (src_format p) l) ;;
  match src_format p with
  | RowFmt => if written c then ret tt else log IterReset
  | _ => ret tt
  end.

(** Modelled from the spec: [advance()] moves a source to its next page.  On
    a cache miss the primary source pulls from the external iterator and a
    derived source pulls from its upstream; when the last page has been
    produced the pass is complete and the descriptor is committed. *)
Definition PageSource_advance (l : loc) : M unit :=
  let* p := read_source l in
  let* c := read_cache (src_cache p) in
  let* s := get in
  if (src_count p <? n_pages s)%nat then
    write_source l (set_count p (S (src_count p))) ;;
    (if written c then ret tt
     else match src_format p, src_upstream p with
          | RowFmt, _ => log IterNext
          | _, Some u =>
              let* q := read_source u in
              if (src_count q <? n_pages s)%nat
              then write_source u (set_count q (S (src_count q)))
              else ret tt
          | _, None => ret tt
          end) ;;
    (if (S (src_count p) =? n_pages s)%nat
     then write_cache (src_cache p) (Commit c)
     else ret tt)
  else ret tt.

(** A batch set wraps a [shared_ptr] to a page source, or to the single
    in-memory page; the pointer may be null. *)
Inductive BatchSet := OverSource (impl : option loc) | SinglePage (impl : option loc).

(** The raw batches (and with them the row pages) a traversal of source [l]
    starting now would visit. *)
Definition remaining_batches (s : State) (l : loc) : list RawBatch :=
  match sources s !! l with
  | Some p => drop (src_count p) (batches s)
  | None => []
  end.

Definition remaining_pages (s : State) (l : loc) : list SparsePage :=
  page_of <$> remaining_batches s l.

(** The pages a batch set over row pages yields when traversed now. *)
Definition pages_of (s : State) (b : BatchSet) : list SparsePage :=
  match b with
  | OverSource (Some l) => remaining_pages s l
  | _ => []
  end.

(** *** [SparsePageDMatrix::InitializeSparsePage] *)
Definition InitializeSparsePage : M unit :=
  let* s0 := get in
  let* id := MakeCache ".row.page" (cache_prefix_ (this s0)) in
  let* l := cache_info_at id in
  let* c := read_cache l in
  if written c then
    let* s := get in
    match sparse_page_source_ (this s) with
    | None => fatal (CheckFailed "sparse_page_source_")
    | Some p => PageSource_Reset p
    end
  else
    update_this (set_sparse_page_source None) ;;
    let* s := get in
    let* l' := cache_info_at id in
    let* p := new_SparsePageSource (num_col_ (info_ (this s))) (n_batches_ (this s)) l' in
    update_this (set_sparse_page_source (Some p)).

Definition GetRowBatchesImpl : M BatchSet :=
  InitializeSparsePage ;;
  let* s := get in
  ret (OverSource (sparse_page_source_ (this s))).

Definition GetRowBatches : M BatchSet := GetRowBatchesImpl.

(** Modelled from the spec: a range-for over a batch set of row pages
    ("at end", "current page", "advance").  The body sees the proxy's raw
    batch together with the page made from it, then the source advances. *)
Fixpoint range_for_from {A} (l : loc) (bs : list RawBatch)
    (body : RawBatch -> SparsePage -> A -> M A) (a : A) : M A :=
  match bs with
  | [] => ret a
  | b :: bs' =>
      let* a' := body b (page_of b) a in
      PageSource_advance l ;;
      range_for_from l bs' body a'
  end.

Definition range_for {A} (it : BatchSet)
    (body : RawBatch -> SparsePage -> A -> M A) (a : A) : M A :=
  match it with
  | OverSource (Some l) =>
      let* s := get in range_for_from l (remaining_batches s l) body a
  | _ => fatal Dangling
  end.

(** Modelled from the spec: a full traversal of a batch set of row pages,
    collecting the pages it yields in order. *)
Definition traverse (it : BatchSet) : M (list SparsePage) :=
  range_for it (fun _ page acc => ret (acc ++ [page])) [].

(** *** The constructor *)

(** The four local accumulators of the constructor. *)
Record Shape := mkShape {
  n_batches : Z;
  n_features : Z;
  n_samples : Z;
  nnz : Z
}.

Definition loop_body (proxy : RawBatch) (page : SparsePage) (a : Shape) : M Shape :=
  update_this (fun d => set_info (Extend E (info_ d) (proxy_Info proxy) false false) d) ;;
  let* c := num_cols proxy in
  let n_features' := Z.max (n_features a) c in
  let* r := num_rows proxy in
  let n_samples' := wrap64 (n_samples a + r) in
  let nnz' := wrap64 (nnz a + data_Size page) in
  let n_batches' := wrap32 (n_batches a + 1) in
  ret (mkShape n_batches' n_features' n_samples' nnz').

Definition SparsePageDMatrix_ctor (nthreads : Z) : M unit :=
  update_this (set_ctx_nthread nthreads) ;;
  update_this (fun d =>
    set_cache_prefix (if decide (cache_prefix_ d = "") then "DMatrix" else cache_prefix_ d) d) ;;
  (if IsDistributed E
   then update_this (fun d =>
          set_cache_prefix (cache_prefix_ d +:+ ("-r" +:+ pretty (GetRank E))) d)
   else ret tt) ;;
  let* it := GetRowBatchesImpl in
  let* a := range_for it loop_body (mkShape 0 0 0 0) in
  log IterReset ;;
  update_this (set_n_batches (n_batches a)) ;;
  update_this (fun d => set_info (set_shape (info_ d) (n_samples a) (n_features a) (nnz a)) d) ;;
  update_this (fun d => set_info (set_num_col (info_ d) (Allreduce_Max E (num_col_ (info_ d)))) d) ;;
  let* s := get in
  CHECK (negb (num_col_ (info_ (this s)) =? 0)) "info_.num_col_ != 0".

(** The object as the member initialisers leave it, in a world where the
    external iterator delivers [bs]. *)
Definition new_object (ptr : string) (missing : Z) (cache_prefix : string) : DMatrix :=
  mkDMatrix ptr MetaInfo_empty missing 0 cache_prefix 0 ∅ None None None None None None
    (BatchParam_default E).

Definition new_world (ptr : string) (bs : list RawBatch) (missing : Z)
    (cache_prefix : string) : State :=
  mkState (new_object ptr missing cache_prefix) [] [] [] bs [].

Definition construct (ptr : string) (bs : list RawBatch) (missing : Z) (nthreads : Z)
    (cache_prefix : string) : Result unit :=
  SparsePageDMatrix_ctor nthreads (new_world ptr bs missing cache_prefix).

(** *** Column formats *)

Definition GetColumnBatches : M BatchSet :=
  let* s0 := get in
  let* id := MakeCache ".col.page" (cache_prefix_ (this s0)) in
  let* s1 := get in
  CHECK (negb (num_col_ (info_ (this s1)) =? 0)) "num_col_ != 0" ;;
  InitializeSparsePage ;;
  let* s := get in
  match column_source_ (this s) with
  | None =>
      let* l := cache_info_at id in
      let* p := new_DerivedSource ColFmt (num_col_ (info_ (this s))) (n_batches_ (this s))
                  l None (sparse_page_source_ (this s)) in
      update_this (set_column_source (Some p))
  | Some p => PageSource_Reset p
  end ;;
  let* s' := get in
  ret (OverSource (column_source_ (this s'))).

Definition GetSortedColumnBatches : M BatchSet :=
  let* s0 := get in
  let* id := MakeCache ".sorted.col.page" (cache_prefix_ (this s0)) in
  let* s1 := get in
  CHECK (negb (num_col_ (info_ (this s1)) =? 0)) "num_col_ != 0" ;;
  InitializeSparsePage ;;
  let* s := get in
  match sorted_column_source_ (this s) with
  | None =>
      let* l := cache_info_at id in
      let* p := new_DerivedSource SortedColFmt (num_col_ (info_ (this s)))
                  (n_batches_ (this s)) l None (sparse_page_source_ (this s)) in
      update_this (set_sorted_column_source (Some p))
  | Some p => PageSource_Reset p
  end ;;
  let* s' := get in
  ret (OverSource (sorted_column_source_ (this s'))).

(** *** Histogram index *)

(** Modelled from the spec: one full pass over the row pages of the
    matrix, as the sketching routine and the single-page index make it
    through "get row batches". *)
Definition full_pass : M (list SparsePage) :=
  let* it := GetRowBatches in
  traverse it.

(** Modelled from the spec: the constructor of [GHistIndexMatrix], which
    builds the single full-dataset page from one pass over the row pages. *)
Definition new_GHistIndexMatrix (mb : Z) (sorted_sketch : bool) : M loc :=
  let* pages := full_pass in
  let* g := alloc_ghist (mkGHistIndexMatrix mb sorted_sketch pages) in
  log (GHistBuilt g) ;;
  ret g.

(** Modelled from the spec: [common::SketchOnDMatrix], which computes the
    global bin-boundary cuts from one pass over the row pages. *)
Definition SketchOnDMatrix (mb : Z) (sorted_sketch : bool) (h : list Z) : M HistogramCuts :=
  let* pages := full_pass in
  let* s := get in
  log (SketchComputed mb sorted_sketch) ;;
  ret (SketchOnDMatrix_cuts E (info_ (this s)) pages mb sorted_sketch h).

Definition hess_empty (p : BatchParam) : bool :=
  match hess p with [] => true | _ => false end.

(** The gate of the in-memory regime. *)
Definition rebuild_in_memory (s : State) (param : BatchParam) : bool :=
  negb (bool_decide (is_Some (ghist_index_page_ (this s))))
  || (BatchParam_ne E param (batch_param_ (this s))
      && BatchParam_ne E param (BatchParam_default E)).

(** The gate of the on-disk regime, given the descriptor just looked up. *)
Definition rebuild_on_disk (s : State) (c : Cache) (param : BatchParam) : bool :=
  negb (written c)
  || (BatchParam_ne E (batch_param_ (this s)) param
      && BatchParam_ne E param (BatchParam_default E))
  || regen param.

Definition GetGradientIndex (param : BatchParam) : M BatchSet :=
  CHECK (2 <=? max_bin param) "param.max_bin >= 2" ;;
  if hess_empty param && negb (regen param) then
    let* s := get in
    (if rebuild_in_memory s param then
       InitializeSparsePage ;;
       let* g := new_GHistIndexMatrix (max_bin param) (regen param) in
       update_this (set_ghist_index_page (Some g)) ;;
       InitializeSparsePage ;;
       update_this (set_batch_param param)
     else ret tt) ;;
    let* s' := get in
    ret (SinglePage (ghist_index_page_ (this s')))
  else
    let* s0 := get in
    let* id := MakeCache ".gradient_index.page" (cache_prefix_ (this s0)) in
    InitializeSparsePage ;;
    let* l := cache_info_at id in
    let* c := read_cache l in
    let* s := get in
    (if rebuild_on_disk s c param then
       cache_info_erase id ;;
       let* s1 := get in
       MakeCache ".gradient_index.page" (cache_prefix_ (this s1)) ;;
       let sorted_sketch := regen param in
       let* cuts := SketchOnDMatrix (max_bin param) sorted_sketch (hess param) in
       InitializeSparsePage ;;
       update_this (set_batch_param param) ;;
       update_this (set_ghist_index_source None) ;;
       CHECK (negb (length (Values cuts) =? 0)%nat) "cuts.Values().size() != 0" ;;
       let* s2 := get in
       let ft := feature_types (info_ (this s2)) in
       let* l' := cache_info_at id in
       let* p := new_DerivedSource GradientIndexFmt (num_col_ (info_ (this s2)))
                   (n_batches_ (this s2)) l'
                   (Some (mkGHistBinding param cuts (IsDense E (info_ (this s2)))
                            (max_bin param) ft))
                   (sparse_page_source_ (this s2)) in
       update_this (set_ghist_index_source (Some p))
     else
       let* s1 := get in
       match ghist_index_source_ (this s1) with
       | None => fatal (CheckFailed "ghist_index_source_")
       | Some p => PageSource_Reset p
       end) ;;
    let* s' := get in
    ret (OverSource (ghist_index_source_ (this s'))).

(** *** Ellpack pages, in a build without CUDA *)
Definition GetEllpackBatches (param : BatchParam) : M BatchSet :=
  AssertGPUSupport ;;
  let* s := get in
  ret (OverSource (ellpack_page_source_ (this s))).

(** *** [SparsePageDMatrix::Info]

    Both overloads return a reference to the [info_] member itself. *)
Definition Info : M MetaInfo :=
  let* s := get in
  ret (info_ (this s)).

(** *** Sequences of calls

    What a client does with a constructed matrix: it asks for batches and
    advances the iterators it was given.  [reach] runs the constructor and
    then a sequence of such calls, stopping at the first fatal error. *)

Inductive Call :=
  | CallGetRowBatches
  | CallGetColumnBatches
  | CallGetSortedColumnBatches
  | CallGetGradientIndex (param : BatchParam)
  | CallAdvance (l : loc).

Definition do_call (c : Call) : M unit :=
  match c with
  | CallGetRowBatches => GetRowBatches ;; ret tt
  | CallGetColumnBatches => GetColumnBatches ;; ret tt
  | CallGetSortedColumnBatches => GetSortedColumnBatches ;; ret tt
  | CallGetGradientIndex param => GetGradientIndex param ;; ret tt
  | CallAdvance l => PageSource_advance l
  end.

Fixpoint run (cs : list Call) : M unit :=
  match cs with
  | [] => ret tt
  | c :: cs' => do_call c ;; run cs'
  end.

Record Setup := mkSetup {
  su_ptr : string;
  su_batches : list RawBatch;
  su_missing : Z;
  su_nthreads : Z;
  su_cache_prefix : string
}.

Definition reach (u : Setup) (cs : list Call) : option State :=
  match construct (su_ptr u) (su_batches u) (su_missing u) (su_nthreads u)
          (su_cache_prefix u) with
  | Ok _ s0 => match run cs s0 with Ok _ s => Some s | Fatal _ _ => None end
  | Fatal _ _ => None
  end.

End Orchestrator.

(** ** A concrete build and data set

    A host-only, single-worker build and a data set of three raw batches,
    on which the statements below are instantiated. *)

Definition host_build : Collaborators :=
  mkCollaborators false false 0 (fun z => z)
    (fun a b _ _ =>
       mkMetaInfo (num_row_ a) (num_col_ b) (num_nonzero_ a) (feature_types b)
         (labels a ++ labels b))
    (fun p q => negb (bool_decide (max_bin p = max_bin q /\ hess p = hess q)))
    (mkBatchParam 0 [] false)
    (fun _ _ _ _ _ => mkCuts [1; 2; 3])
    (fun i => bool_decide (num_nonzero_ i = num_row_ i * num_col_ i)).

Definition host_batch (rows cols entries : Z) : RawBatch :=
  mkRawBatch HostAdapter rows cols (mkMetaInfo rows cols entries [] [rows]) entries.

Definition device_batch : RawBatch := mkRawBatch DeviceAdapter 5 3 MetaInfo_empty 0.

Definition three_batches : list RawBatch :=
  [host_batch 100 20 700; host_batch 150 20 800; host_batch 50 20 900].

Definition example_setup : Setup := mkSetup "0x1" three_batches 0 4 "".

Definition blank_state : State := new_world host_build "0x1" three_batches 0 "".

Definition state_after (cs : list Call) : State :=
  default blank_state (reach host_build example_setup cs).

Definition p256 : BatchParam := mkBatchParam 256 [] false.
Definition p64 : BatchParam := mkBatchParam 64 [] false.
Definition weighted_param : BatchParam := mkBatchParam 256 [1] false.
Definition regen_param : BatchParam := mkBatchParam 256 [] true.

(** A histogram-index request with forced regen, followed by a full
    traversal of the source it returned. *)
Definition regen_then_traverse : list Call :=
  [CallGetGradientIndex regen_param; CallAdvance 1; CallAdvance 1; CallAdvance 1].

(** A distributed build: the worker of the given rank. *)
Definition worker_build (rank : Z) : Collaborators :=
  mkCollaborators false true rank (fun z => z)
    (fun a b _ _ =>
       mkMetaInfo (num_row_ a) (num_col_ b) (num_nonzero_ a) (feature_types b)
         (labels a ++ labels b))
    (fun p q => negb (bool_decide (max_bin p = max_bin q /\ hess p = hess q)))
    (mkBatchParam 0 [] false)
    (fun _ _ _ _ _ => mkCuts [1; 2; 3])
    (fun i => bool_decide (num_nonzero_ i = num_row_ i * num_col_ i)).

(** * Properties *)

Create HintDb keepsdb.

Section Properties.

Variable E : Collaborators.

(** ** Vocabulary of the statements *)

Definition no_source_event (e : Event) : Prop :=
  match e with SourceCreated _ _ | SourceReset _ _ => False | _ => True end.

(** Pure account of the constructor's loop. *)
Definition dispatchable (b : RawBatch) : bool :=
  match adapter b with HostAdapter => true | DeviceAdapter => XGBOOST_USE_CUDA E end.

Definition step_shape (a : Shape) (b : RawBatch) : Shape :=
  mkShape (wrap32 (n_batches a + 1)) (Z.max (n_features a) (NumCols b))
    (wrap64 (n_samples a + NumRows b)) (wrap64 (nnz a + page_data_Size b)).

Definition extend_info (b : RawBatch) (d : DMatrix) : DMatrix :=
  set_info (Extend E (info_ d) (proxy_Info b) false false) d.

Definition mod_count (a b : PageSource) : Prop := exists n, b = set_count a n.

Definition advance_caches (p : PageSource) (c : Cache) (s : State) : list Cache :=
  if (src_count p <? n_pages s)%nat && (S (src_count p) =? n_pages s)%nat
  then <[src_cache p := Commit c]> (caches s) else caches s.

Definition prefix_of (cache_prefix : string) : string :=
  let p := if decide (cache_prefix = "") then "DMatrix" else cache_prefix in
  if IsDistributed E then p +:+ ("-r" +:+ pretty (GetRank E)) else p.

Definition shape_of (bs : list RawBatch) : Shape := foldl step_shape (mkShape 0 0 0 0) bs.

Definition nonempty {A} (l : list A) : bool := match l with [] => false | _ => true end.

(** ** The invariant of reachable states *)

Definition name_of (s : State) : string :=
  MakeId (cache_prefix_ (this s)) (this_ptr (this s)).

Definition id_of (f : PageFormat) (s : State) : string := name_of s +:+ suffix_of f.

Definition member (f : PageFormat) (d : DMatrix) : option nat :=
  match f with
  | RowFmt => sparse_page_source_ d
  | ColFmt => column_source_ d
  | SortedColFmt => sorted_column_source_ d
  | GradientIndexFmt => ghist_index_source_ d
  end.

Definition cache_written (s : State) (f : PageFormat) : bool :=
  match cache_info_ (this s) !! id_of f s with
  | Some l => match caches s !! l with Some c => written c | None => false end
  | None => false
  end.

(** What the invariant looks at. *)
Record View := mkView {
  vreg : gmap string nat;
  vname : string;
  vmem : PageFormat -> option nat;
  vsrc : list (PageFormat * nat * option nat);
  vwr : list bool;
  vne : bool;
  vcols : Z
}.

Definition src_key (p : PageSource) : PageFormat * nat * option nat :=
  (src_format p, src_cache p, src_upstream p).

Definition view (s : State) : View :=
  mkView (cache_info_ (this s)) (name_of s) (fun f => member f (this s))
    (src_key <$> sources s) (written <$> caches s) (nonempty (batches s))
    (num_col_ (info_ (this s))).

Record InvV (v : View) : Prop := mkInvV {
  inv_reg_valid : forall id l, vreg v !! id = Some l -> (l < length (vwr v))%nat;
  inv_reg_inj : forall id1 id2 l,
    vreg v !! id1 = Some l -> vreg v !! id2 = Some l -> id1 = id2;
  inv_src_valid : forall p f l u, vsrc v !! p = Some (f, l, u) ->
    (l < length (vwr v))%nat /\ forall u', u = Some u' -> (u' < length (vsrc v))%nat;
  inv_row_reg : is_Some (vreg v !! (vname v +:+ suffix_of RowFmt));
  inv_member : forall f p, vmem v f = Some p -> exists l u, vsrc v !! p = Some (f, l, u);
  inv_owner : forall f p f' l u, vsrc v !! p = Some (f', l, u) ->
    vreg v !! (vname v +:+ suffix_of f) = Some l -> is_Some (vmem v f);
  inv_written_src : forall l, vwr v !! l = Some true ->
    exists p f u, vsrc v !! p = Some (f, l, u);
  inv_written_nonempty : forall l, vwr v !! l = Some true -> vne v = true;
  inv_row_written : vne v = true ->
    exists l, vreg v !! (vname v +:+ suffix_of RowFmt) = Some l /\ vwr v !! l = Some true;
  inv_num_col : vcols v <> 0;
  inv_row_src : forall p l u, vsrc v !! p = Some (RowFmt, l, u) ->
    vreg v !! (vname v +:+ suffix_of RowFmt) = Some l
}.

Definition Inv (s : State) : Prop := InvV (view s).

(** ** What the internal steps of a call leave alone *)

Definition quiet (e : Event) : Prop :=
  match e with
  | IterReset | IterNext | SourceCreated RowFmt _ => False
  | _ => True
  end.

Definition commit_rel (c c' : Cache) : Prop := c' = c \/ c' = Commit c.

Record Frame (s s' : State) : Prop := mkFrame {
  fr_this : set_sparse_page_source None (this s') = set_sparse_page_source None (this s);
  fr_ghists : ghists s' = ghists s;
  fr_batches : batches s' = batches s;
  fr_caches : Forall2 commit_rel (caches s) (caches s');
  fr_sources : forall p ps, sources s !! p = Some ps ->
    exists ps', sources s' !! p = Some ps' /\ mod_count ps ps';
  fr_trace : exists evs, trace s' = trace s ++ evs /\
    (cache_written s RowFmt = true -> Forall quiet evs);
  fr_row : cache_written s RowFmt = true ->
    sparse_page_source_ (this s') = sparse_page_source_ (this s)
}.

Definition reset_events (p : PageSource) (c : Cache) (l : nat) : list Event :=
  SourceReset (src_format p) l ::
  match src_format p with
  | RowFmt => if written c then [] else [IterReset]
  | _ => []
  end.

Definition set_member (f : PageFormat) (p : option nat) (d : DMatrix) : DMatrix :=
  match f with
  | RowFmt => set_sparse_page_source p d
  | ColFmt => set_column_source p d
  | SortedColFmt => set_sorted_column_source p d
  | GradientIndexFmt => set_ghist_index_source p d
  end.

(** The common shape of the two column operations. *)
Definition GetDerivedBatches (f : PageFormat) : M BatchSet :=
  let* s0 := get in
  let* id := MakeCache (suffix_of f) (cache_prefix_ (this s0)) in
  let* s1 := get in
  CHECK (negb (num_col_ (info_ (this s1)) =? 0)) "num_col_ != 0" ;;
  InitializeSparsePage ;;
  let* s := get in
  match member f (this s) with
  | None =>
      let* l := cache_info_at id in
      let* p := new_DerivedSource f (num_col_ (info_ (this s))) (n_batches_ (this s))
                  l None (sparse_page_source_ (this s)) in
      update_this (set_member f (Some p))
  | Some p => PageSource_Reset p
  end ;;
  let* s' := get in
  ret (OverSource (member f (this s'))).

(** A step is quiet when, the row cache being written, it keeps the primary
    source object and neither calls the external iterator nor creates a
    primary source. *)
Definition Quiet (s s' : State) : Prop :=
  cache_written s RowFmt = true ->
  sparse_page_source_ (this s') = sparse_page_source_ (this s) /\
  cache_written s' RowFmt = true /\
  exists evs, trace s' = trace s ++ evs /\ Forall quiet evs.

Definition in_memory (param : BatchParam) : bool := hess_empty param && negb (regen param).

Definition on_disk_gate (s : State) (param : BatchParam) : bool :=
  negb (cache_written s GradientIndexFmt)
  || (BatchParam_ne E (batch_param_ (this s)) param
      && BatchParam_ne E param (BatchParam_default E))
  || regen param.

(** A projection of the state is stable when only a write to the metadata,
    or to the external data, can change it. *)
Class Stable {X} (proj : State -> X) : Prop := {
  stable_this : forall f s, (forall d, info_ (f d) = info_ d) -> proj (with_this f s) = proj s;
  stable_caches : forall f s, proj (with_caches f s) = proj s;
  stable_sources : forall f s, proj (with_sources f s) = proj s;
  stable_ghists : forall f s, proj (with_ghists f s) = proj s;
  stable_trace : forall f s, proj (with_trace f s) = proj s
}.

Definition keeps {X} (proj : State -> X) {A} (c : M A) : Prop :=
  forall s, proj (final_state (c s)) = proj s.

(** ** The construction pass *)

Definition sum_of (f : RawBatch -> Z) (bs : list RawBatch) : Z :=
  foldr (fun b acc => f b + acc) 0 bs.

Definition running_max (bs : list RawBatch) : Z := foldl Z.max 0 (NumCols <$> bs).

Definition fails_before_sources (op : M BatchSet) (s : State) : Prop :=
  exists s', op s = Fatal (CheckFailed "num_col_ != 0") s' /\
    sources s' = sources s /\ (forall g, member g (this s') = member g (this s)) /\
    exists evs, trace s' = trace s ++ evs /\ Forall no_source_event evs.

Definition request (f : PageFormat) (param : BatchParam) : M BatchSet :=
  match f with
  | RowFmt => GetRowBatches
  | ColFmt => GetColumnBatches
  | SortedColFmt => GetSortedColumnBatches
  | GradientIndexFmt => GetGradientIndex E param
  end.

Definition reset_trace (f : PageFormat) (p q : nat) : list Event :=
  match f with
  | RowFmt => [SourceReset RowFmt p]
  | _ => [SourceReset RowFmt p; SourceReset f q]
  end.

Definition is_source_reset (e : Event) : Prop :=
  match e with SourceReset _ _ => True | _ => False end.

(** A request that does nothing but reset existing sources. *)
Definition only_resets (f : PageFormat) (param : BatchParam) (s : State) : Prop :=
  let s' := final_state (request f param s) in
  member f (this s') = member f (this s) /\
  exists evs, trace s' = trace s ++ evs /\ Forall is_source_reset evs.

(** ** Vocabulary of the further properties *)

(** The metadata merged from the raw batches, in delivery order, by the
    calls [info_.Extend(proxy->Info(), false, false)] of the constructor. *)
Definition merged_info (bs : list RawBatch) : MetaInfo :=
  foldl (fun i b => Extend E i (proxy_Info b) false false) MetaInfo_empty bs.

(** What a step may write: a member of the object, or one of the heaps. *)
Inductive Field :=
  | FRegistry | FRow | FColumn | FSortedColumn | FGHistSource | FGHistPage | FBatchParam
  | FGHists | FPosition.

Global Instance Field_eq_dec : EqDecision Field.
Proof. solve_decision. Defined.

Definition only (fs : list Field) (f : Field) : bool := bool_decide (f ∈ fs).

Definition all_but (fs : list Field) (f : Field) : bool := negb (only fs f).

(** A relation between the states before and after a step that every
    elementary write keeps, as long as the write is to a permitted member.
    The heaps of descriptors and sources are written in four ways only: by
    allocation, by committing a descriptor, by rewinding a source and by
    moving it forward. *)
Class Step (R : State -> State -> Prop) (may : Field -> bool) : Prop := {
  step_refl : forall s, R s s;
  step_trans : forall s1 s2 s3, R s1 s2 -> R s2 s3 -> R s1 s3;
  step_registry : may FRegistry = true -> forall g s,
    R s (with_this (fun d => set_cache_info (g (cache_info_ d)) d) s);
  step_row : may FRow = true -> forall p s, R s (with_this (set_sparse_page_source p) s);
  step_column : may FColumn = true -> forall p s, R s (with_this (set_column_source p) s);
  step_sorted : may FSortedColumn = true -> forall p s,
    R s (with_this (set_sorted_column_source p) s);
  step_ghist_source : may FGHistSource = true -> forall p s,
    R s (with_this (set_ghist_index_source p) s);
  step_ghist_page : may FGHistPage = true -> forall p s,
    R s (with_this (set_ghist_index_page p) s);
  step_batch_param : may FBatchParam = true -> forall p s,
    R s (with_this (set_batch_param p) s);
  step_alloc_ghist : may FGHists = true -> forall g s, R s (with_ghists (fun h => h ++ [g]) s);
  step_trace : forall f s, R s (with_trace f s);
  step_alloc_cache : forall c s, R s (with_caches (fun h => h ++ [c]) s);
  step_commit : forall l c s, caches s !! l = Some c ->
    R s (with_caches (fun h => <[l := Commit c]> h) s);
  step_alloc_source : forall p s, R s (with_sources (fun h => h ++ [p]) s);
  step_rewind : forall l p s, sources s !! l = Some p ->
    R s (with_sources (fun h => <[l := set_count p 0]> h) s);
  step_forward : may FPosition = true -> forall l p s, sources s !! l = Some p ->
    R s (with_sources (fun h => <[l := set_count p (S (src_count p))]> h) s)
}.

(** A computation moves the state along [R], whatever its outcome. *)
Definition moves (R : State -> State -> Prop) {A} (c : M A) : Prop :=
  forall s, R s (final_state (c s)).

(** The states agree on a projection. *)
Definition same_on {X} (proj : State -> X) (s s' : State) : Prop := proj s' = proj s.

(** The histogram-index side of the object: the on-disk source member, the
    in-memory page member, the pages built so far and the last-used
    parameters. *)
Definition histogram_side (s : State) :
    option nat * option nat * list GHistIndexMatrix * BatchParam :=
  (ghist_index_source_ (this s), ghist_index_page_ (this s), ghists s, batch_param_ (this s)).

(** What construction fixes for the lifetime of the object. *)
Definition fixed_side (s : State) : string * string * Z * Z * Z * MetaInfo * option nat :=
  (this_ptr (this s), cache_prefix_ (this s), missing_ (this s), ctx_nthread (this s),
   n_batches_ (this s), info_ (this s), ellpack_page_source_ (this s)).

(** The row-page source member is set and its source stands at its first
    page. *)
Definition rewound (s : State) : Prop :=
  exists p ps, sparse_page_source_ (this s) = Some p /\ sources s !! p = Some ps /\
    src_count ps = 0%nat.

(** A property of the state that a step carries over. *)
Definition carries (P : State -> Prop) (s s' : State) : Prop := P s -> P s'.

(** What holds after a computation that returns, given what held before. *)
Definition after (P : State -> Prop) {A} (c : M A) (Q : State -> Prop) : Prop :=
  forall s a s', P s -> c s = Ok a s' -> Q s'.

(** Every source of the earlier state is still there, moved at most. *)
Definition sources_persist (s s' : State) : Prop :=
  forall p ps, sources s !! p = Some ps -> exists n, sources s' !! p = Some (set_count ps n).

(** The sources of the derived formats that the object holds are bound to
    the row-page source it holds and carry the recorded counts. *)
Definition derived_bound (s : State) : Prop :=
  forall f q qs, f <> RowFmt -> member f (this s) = Some q -> sources s !! q = Some qs ->
    src_format qs = f /\
    src_upstream qs = sparse_page_source_ (this s) /\
    src_n_features qs = num_col_ (info_ (this s)) /\
    src_n_batches qs = n_batches_ (this s).

(** The row-page source the object holds is the one its constructor made,
    before the counts were known. *)
Definition row_from_ctor (s : State) : Prop :=
  sparse_page_source_ (this s) = Some 0%nat /\
  exists ps, sources s !! 0%nat = Some ps /\ src_format ps = RowFmt /\
    src_upstream ps = None /\ src_n_features ps = 0 /\ src_n_batches ps = 0.


(** The number of entries held by a sequence of row pages. *)
Definition pages_size (pages : list SparsePage) : Z :=
  foldr (fun pg acc => data_Size pg + acc) 0 pages.

(** ** Lemmas *)

Lemma bind_Ok {A B} (c : M A) (k : A -> M B) s a s' :
  c s = Ok a s' -> bind c k s = k a s'.
Proof. intros H. unfold bind. rewrite H. reflexivity. Qed.

Lemma bind_Fatal {A B} (c : M A) (k : A -> M B) s e s' :
  c s = Fatal e s' -> bind c k s = Fatal e s'.
Proof. intros H. unfold bind. rewrite H. reflexivity. Qed.

Lemma bind_get {B} (k : State -> M B) s : bind get k s = k s s.
Proof. reflexivity. Qed.

Lemma bind_ret {A B} (a : A) (k : A -> M B) s : bind (ret a) k s = k a s.
Proof. reflexivity. Qed.

Lemma bind_modify {B} f (k : unit -> M B) s : bind (modify f) k s = k tt (f s).
Proof. reflexivity. Qed.

Lemma bind_update_this {B} f (k : unit -> M B) s : bind (update_this f) k s = k tt (with_this f s).
Proof. reflexivity. Qed.

Lemma bind_log {B} e (k : unit -> M B) s :
  bind (log e) k s = k tt (with_trace (fun t => t ++ [e]) s).
Proof. reflexivity. Qed.

Lemma bind_alloc_cache {B} c (k : nat -> M B) s :
  bind (alloc_cache c) k s = k (length (caches s)) (with_caches (fun h => h ++ [c]) s).
Proof. reflexivity. Qed.

Lemma bind_alloc_source {B} p (k : nat -> M B) s :
  bind (alloc_source p) k s = k (length (sources s)) (with_sources (fun h => h ++ [p]) s).
Proof. reflexivity. Qed.

Lemma bind_alloc_ghist {B} g (k : nat -> M B) s :
  bind (alloc_ghist g) k s = k (length (ghists s)) (with_ghists (fun h => h ++ [g]) s).
Proof. reflexivity. Qed.

Lemma bind_write_source {B} l p (k : unit -> M B) s :
  bind (write_source l p) k s = k tt (with_sources (fun h => <[l := p]> h) s).
Proof. reflexivity. Qed.

Lemma bind_write_cache {B} l c (k : unit -> M B) s :
  bind (write_cache l c) k s = k tt (with_caches (fun h => <[l := c]> h) s).
Proof. reflexivity. Qed.

Lemma bind_fatal {A B} e (k : A -> M B) s : bind (fatal e) k s = Fatal e s.
Proof. reflexivity. Qed.

Lemma bind_assoc {A B C} (c : M A) (k : A -> M B) (h : B -> M C) s :
  bind (bind c k) h s = bind c (fun a => bind (k a) h) s.
Proof. unfold bind. destruct (c s); reflexivity. Qed.

Lemma max_bin_check_fails (param : BatchParam) (s : State) :
  max_bin param < 2 ->
  GetGradientIndex E param s = Fatal (CheckFailed "param.max_bin >= 2") s.
Proof.
  intros H. unfold GetGradientIndex.
  apply bind_Fatal. unfold CHECK.
  destruct (2 <=? max_bin param) eqn:Hc; [apply Z.leb_le in Hc; lia | reflexivity].
Qed.

Lemma ellpack_without_cuda (param : BatchParam) (s : State) :
  XGBOOST_USE_CUDA E = false ->
  GetEllpackBatches E param s = Fatal NoGPUSupport s.
Proof.
  intros H. unfold GetEllpackBatches. apply bind_Fatal.
  unfold AssertGPUSupport. rewrite H. reflexivity.
Qed.

Lemma MakeCache_cases format prefix s :
  let id := MakeId prefix (this_ptr (this s)) +:+ format in
  (exists l, cache_info_ (this s) !! id = Some l /\ MakeCache format prefix s = Ok id s) \/
  (cache_info_ (this s) !! id = None /\
   MakeCache format prefix s =
     Ok id (with_trace (fun t => t ++ [CacheMade id (length (caches s))])
             (with_this (fun d => set_cache_info (<[id := length (caches s)]> (cache_info_ d)) d)
               (with_caches (fun h => h ++ [mkCache false (MakeId prefix (this_ptr (this s))) format]) s)))).
Proof.
  intros id. unfold MakeCache, bind, get. simpl. fold id.
  destruct (cache_info_ (this s) !! id) as [l|] eqn:Hl.
  - left. exists l. split; reflexivity.
  - right. split; reflexivity.
Qed.

Lemma num_cols_spec b s :
  num_cols E b s = if dispatchable b then Ok (NumCols b) s else Fatal NoGPUSupport s.
Proof.
  unfold num_cols, HostAdapterDispatch, dispatchable, NFeaturesDevice, AssertGPUSupport.
  destruct (adapter b); [reflexivity|]. destruct (XGBOOST_USE_CUDA E); reflexivity.
Qed.

Lemma num_rows_spec b s :
  num_rows E b s = if dispatchable b then Ok (NumRows b) s else Fatal NoGPUSupport s.
Proof.
  unfold num_rows, HostAdapterDispatch, dispatchable, NSamplesDevice, AssertGPUSupport.
  destruct (adapter b); [reflexivity|]. destruct (XGBOOST_USE_CUDA E); reflexivity.
Qed.

Lemma loop_body_spec b a s :
  loop_body E b (page_of b) a s =
    if dispatchable b then Ok (step_shape a b) (with_this (extend_info b) s)
    else Fatal NoGPUSupport (with_this (extend_info b) s).
Proof.
  unfold loop_body. rewrite bind_update_this. fold (extend_info b).
  unfold bind at 1. rewrite num_cols_spec.
  destruct (dispatchable b) eqn:Hd; [|reflexivity].
  unfold bind at 1. rewrite num_rows_spec, Hd. reflexivity.
Qed.

Lemma mod_count_refl a : mod_count a a.
Proof. exists (src_count a). destruct a; reflexivity. Qed.

Lemma mod_count_trans a b c : mod_count a b -> mod_count b c -> mod_count a c.
Proof. intros [n ->] [m ->]. exists m. reflexivity. Qed.

Lemma Forall2_mod_count_refl l : Forall2 mod_count l l.
Proof. induction l; constructor; auto using mod_count_refl. Qed.

Lemma Forall2_mod_count_insert ss l p n :
  ss !! l = Some p -> Forall2 mod_count ss (<[l := set_count p n]> ss).
Proof.
  intros H. rewrite <- (list_insert_id ss l p H) at 1.
  apply Forall2_insert; [apply Forall2_mod_count_refl | exists n; reflexivity].
Qed.

Lemma Forall2_mod_count_trans a b c :
  Forall2 mod_count a b -> Forall2 mod_count b c -> Forall2 mod_count a c.
Proof.
  intros H. revert c. induction H; intros c Hc; inversion Hc; subst; constructor;
    eauto using mod_count_trans.
Qed.

Lemma read_source_Ok l p s : sources s !! l = Some p -> read_source l s = Ok p s.
Proof. intros H. unfold read_source. rewrite H. reflexivity. Qed.

Lemma read_cache_Ok l c s : caches s !! l = Some c -> read_cache l s = Ok c s.
Proof. intros H. unfold read_cache. rewrite H. reflexivity. Qed.

Lemma advance_spec l p c s :
  sources s !! l = Some p ->
  caches s !! src_cache p = Some c ->
  (forall u, src_upstream p = Some u -> (u < length (sources s))%nat) ->
  exists s', PageSource_advance l s = Ok tt s' /\
    this s' = this s /\ ghists s' = ghists s /\ batches s' = batches s /\
    Forall2 mod_count (sources s) (sources s') /\
    (src_format p = RowFmt ->
     sources s' = if (src_count p <? n_pages s)%nat
                  then <[l := set_count p (S (src_count p))]> (sources s) else sources s) /\
    caches s' = advance_caches p c s /\
    exists evs, trace s' = trace s ++ evs /\
      (evs = [] \/ (evs = [IterNext] /\ src_format p = RowFmt /\ written c = false)).
Proof.
  intros Hp Hc Hu. unfold PageSource_advance, advance_caches.
  rewrite (bind_Ok _ _ _ _ _ (read_source_Ok _ _ _ Hp)).
  rewrite (bind_Ok _ _ _ _ _ (read_cache_Ok _ _ _ Hc)).
  rewrite bind_get.
  destruct (src_count p <? n_pages s)%nat eqn:Hlt; cbn [andb].
  2:{ eexists; split; [reflexivity|]. repeat split; auto using Forall2_mod_count_refl.
      exists []. rewrite app_nil_r. auto. }
  unfold write_source at 1. rewrite bind_modify.
  pose proof (Forall2_mod_count_insert _ _ _ (S (src_count p)) Hp) as HF.
  assert (Hfin : forall s1 evs,
    this s1 = this s -> ghists s1 = ghists s -> batches s1 = batches s ->
    caches s1 = caches s -> trace s1 = trace s ++ evs ->
    exists s', (if (S (src_count p) =? n_pages s)%nat
                then write_cache (src_cache p) (Commit c) else ret tt) s1
               = Ok tt s' /\
      this s' = this s /\ ghists s' = ghists s /\ batches s' = batches s /\
      sources s' = sources s1 /\
      caches s' = (if (S (src_count p) =? n_pages s)%nat
                   then <[src_cache p := Commit c]> (caches s) else caches s) /\
      trace s' = trace s ++ evs).
  { intros s1 evs H1 H2 H3 H4 H5.
    destruct (S (src_count p) =? n_pages s)%nat.
    - eexists; split; [reflexivity|].
      cbn. rewrite H4. repeat split; auto.
    - eexists; split; [reflexivity|]. repeat split; auto. }
  destruct (written c) eqn:Hw.
  { rewrite bind_ret.
    edestruct (Hfin (with_sources (fun h => <[l:=set_count p (S (src_count p))]> h) s) [])
      as (s' & -> & ? & ? & ? & Hs & ? & ?); try reflexivity.
    { cbn. rewrite app_nil_r. reflexivity. }
    exists s'. split; [reflexivity|]. rewrite Hs. cbn. repeat split; auto.
    exists []. auto. }
  destruct (src_format p) eqn:Hf.
  { rewrite bind_log.
    edestruct (Hfin (with_trace (fun t => t ++ [IterNext])
                 (with_sources (fun h => <[l:=set_count p (S (src_count p))]> h) s)) [IterNext])
      as (s' & -> & ? & ? & ? & Hs & ? & ?); try reflexivity.
    exists s'. split; [reflexivity|]. rewrite Hs. cbn. repeat split; auto.
    exists [IterNext]. auto. }
  all: destruct (src_upstream p) as [u|] eqn:Hup.
  all: try (rewrite bind_ret;
    edestruct (Hfin (with_sources (fun h => <[l:=set_count p (S (src_count p))]> h) s) [])
      as (s' & -> & ? & ? & ? & Hs & ? & ?); try reflexivity;
    [ cbn; rewrite app_nil_r; reflexivity
    | exists s'; split; [reflexivity|]; rewrite Hs; cbn; repeat split; auto; try discriminate;
      exists []; auto ]).
  all: specialize (Hu u eq_refl).
  all: destruct (lookup_lt_is_Some_2 (<[l:=set_count p (S (src_count p))]> (sources s)) u) as [q Hq];
    [rewrite length_insert; exact Hu|].
  all: rewrite bind_assoc;
    rewrite (bind_Ok _ _ _ _ _ (read_source_Ok u q
       (with_sources (fun h => <[l:=set_count p (S (src_count p))]> h) s) Hq)).
  all: destruct (src_count q <? n_pages s)%nat.
  all: try (unfold write_source; rewrite bind_modify).
  all: try rewrite bind_ret.
  all: match goal with |- exists s', (if _ then _ else _) ?s1 = Ok tt s' /\ _ =>
    edestruct (Hfin s1 []) as (s' & Hr & ? & ? & ? & Hs & ? & ?); try reflexivity;
    [ cbn; rewrite app_nil_r; reflexivity
    | exists s'; split; [exact Hr|]; rewrite Hs; cbn; repeat split; auto; try discriminate;
      try (exists []; auto) ] end.
  all: try exact HF.
  all: eapply Forall2_mod_count_trans; [exact HF|];
    apply Forall2_mod_count_insert; exact Hq.
Qed.

Lemma ctor_loop_spec bs : forall pre s a p c l,
  sources s !! l = Some p -> src_format p = RowFmt -> src_upstream p = None ->
  src_count p = length pre -> batches s = pre ++ bs ->
  caches s !! src_cache p = Some c ->
  match range_for_from l bs (loop_body E) a s with
  | Ok a' s' =>
      forallb dispatchable bs = true /\ a' = foldl step_shape a bs /\
      ghists s' = ghists s /\ batches s' = batches s /\
      sources s' = <[l := set_count p (length pre + length bs)]> (sources s) /\
      caches s' = match bs with
                  | [] => caches s
                  | _ => <[src_cache p := Commit c]> (caches s)
                  end /\
      exists i, this s' = set_info i (this s)
  | Fatal e s' => e = NoGPUSupport /\ forallb dispatchable bs = false
  end.
Proof.
  induction bs as [|b bs IH]; intros pre s a p c l Hp Hf Hup Hn Hb Hc.
  - cbn. repeat split; auto.
    + rewrite Nat.add_0_r, <- Hn.
      symmetry. apply list_insert_id. rewrite Hp. f_equal. destruct p; reflexivity.
    + exists (info_ (this s)). destruct (this s); reflexivity.
  - cbn [range_for_from forallb]. unfold bind at 1. rewrite loop_body_spec.
    destruct (dispatchable b) eqn:Hd; [|split; reflexivity].
    cbn [andb].
    set (s1 := with_this (extend_info b) s).
    destruct (advance_spec l p c s1 Hp Hc) as (s2 & Ha & Ht & Hg & Hbt & _ & Hsrc & Hca & _).
    { rewrite Hup. discriminate. }
    rewrite (bind_Ok _ _ _ _ _ Ha).
    specialize (Hsrc Hf). unfold advance_caches in Hca.
    assert (Hlt : (src_count p <? n_pages s1)%nat = true).
    { apply Nat.ltb_lt. unfold n_pages. cbn. rewrite Hb, length_app, Hn. cbn. lia. }
    rewrite Hlt in Hsrc, Hca. cbn [andb] in Hca.
    assert (Hp2 : sources s2 !! l = Some (set_count p (S (src_count p)))).
    { rewrite Hsrc. apply list_lookup_insert_eq. apply lookup_lt_Some in Hp. exact Hp. }
    assert (Hlen : length (caches s1) = length (caches s)) by reflexivity.
    assert (Hclt : (src_cache p < length (caches s))%nat) by (eapply lookup_lt_Some; eauto).
    destruct bs as [|b' bs'].
    + assert (He : (S (src_count p) =? n_pages s1)%nat = true).
      { apply Nat.eqb_eq. unfold n_pages. cbn. rewrite Hb, length_app, Hn. cbn. lia. }
      rewrite He in Hca.
      cbn. repeat split; auto.
      * rewrite Hsrc. cbn. rewrite Hn. f_equal. f_equal. lia.
      * eexists. rewrite Ht. reflexivity.
    + assert (He : (S (src_count p) =? n_pages s1)%nat = false).
      { apply Nat.eqb_neq. unfold n_pages. cbn. rewrite Hb, length_app, Hn. cbn. lia. }
      rewrite He in Hca.
      specialize (IH (pre ++ [b]) s2 (step_shape a b) (set_count p (S (src_count p))) c l Hp2 Hf Hup).
      destruct (range_for_from l (b' :: bs') (loop_body E) (step_shape a b) s2) as [a' s'|e s'].
      * destruct IH as (H1 & H2 & H3 & H4 & H5 & H6 & [i H7]).
        { cbn. rewrite length_app, Hn. cbn. lia. }
        { rewrite Hbt. cbn. rewrite Hb, <- app_assoc. reflexivity. }
        { rewrite Hca. exact Hc. }
        repeat split; auto.
        -- rewrite H3, Hg. reflexivity.
        -- rewrite H4, Hbt. reflexivity.
        -- rewrite H5, Hsrc. cbn. rewrite list_insert_insert_eq.
           f_equal. f_equal. rewrite length_app. cbn. lia.
        -- rewrite H6, Hca. reflexivity.
        -- exists i. rewrite H7, Ht. reflexivity.
      * apply IH.
        { cbn. rewrite length_app, Hn. cbn. lia. }
        { rewrite Hbt. cbn. rewrite Hb, <- app_assoc. reflexivity. }
        { rewrite Hca. exact Hc. }
Qed.

Lemma cache_info_at_Ok id l s :
  cache_info_ (this s) !! id = Some l -> cache_info_at id s = Ok l s.
Proof. intros H. unfold cache_info_at. rewrite H. reflexivity. Qed.

Ltac mstep H := rewrite ?bind_assoc; rewrite (bind_Ok _ _ _ _ _ H); cbv beta.

Ltac msimpl :=
  cbn [this this_ptr caches sources ghists batches trace info_ missing_ ctx_nthread
       cache_prefix_ n_batches_ cache_info_ sparse_page_source_ column_source_
       sorted_column_source_ ghist_index_source_ ellpack_page_source_ ghist_index_page_
       batch_param_ num_row_ num_col_ num_nonzero_ feature_types labels app length
       with_trace with_this with_caches with_sources with_ghists set_cache_info
       set_sparse_page_source set_info set_n_batches set_shape set_num_col
       set_column_source set_sorted_column_source set_ghist_index_source
       set_ghist_index_page set_batch_param set_ctx_nthread set_cache_prefix].

Ltac mnorm :=
  repeat (first [rewrite bind_assoc | rewrite bind_get | rewrite bind_ret
          | rewrite bind_update_this | rewrite bind_log | rewrite bind_modify
          | rewrite bind_fatal | rewrite bind_alloc_cache | rewrite bind_alloc_source
          | rewrite bind_alloc_ghist | rewrite bind_write_source
          | rewrite bind_write_cache]; cbv beta; msimpl).

Ltac mexp :=
  unfold with_trace, with_this, with_caches, with_sources, with_ghists, set_cache_info,
    set_sparse_page_source, set_info, set_n_batches, set_shape, set_num_col;
  cbn [this this_ptr caches sources ghists batches trace info_ missing_ ctx_nthread
       cache_prefix_ n_batches_ cache_info_ sparse_page_source_ column_source_
       sorted_column_source_ ghist_index_source_ ellpack_page_source_ ghist_index_page_
       batch_param_ num_row_ num_col_ num_nonzero_ feature_types labels app length].

Ltac mnormx :=
  repeat (first [rewrite bind_assoc | rewrite bind_get | rewrite bind_ret
          | rewrite bind_update_this | rewrite bind_log | rewrite bind_modify
          | rewrite bind_fatal | rewrite bind_alloc_cache | rewrite bind_alloc_source
          | rewrite bind_alloc_ghist | rewrite bind_write_source
          | rewrite bind_write_cache]; cbv beta; mexp).

Lemma construct_spec ptr bs missing nthreads cache_prefix :
  let sh := shape_of bs in
  let name := MakeId (prefix_of cache_prefix) ptr in
  match construct E ptr bs missing nthreads cache_prefix with
  | Ok _ s =>
      forallb dispatchable bs = true /\ Allreduce_Max E (n_features sh) <> 0 /\
      (exists ft lb,
        this s = mkDMatrix ptr
                   (mkMetaInfo (n_samples sh) (Allreduce_Max E (n_features sh)) (nnz sh) ft lb)
                   missing nthreads (prefix_of cache_prefix) (n_batches sh)
                   {[ name +:+ ".row.page" := 0%nat ]} (Some 0%nat) None None None None None
                   (BatchParam_default E)) /\
      caches s = [mkCache (nonempty bs) name ".row.page"] /\
      sources s = [mkPageSource RowFmt 0 None 0 0 None (length bs)] /\
      ghists s = [] /\ batches s = bs
  | Fatal e s =>
      (e = NoGPUSupport /\ forallb dispatchable bs = false) \/
      (e = CheckFailed "info_.num_col_ != 0" /\ forallb dispatchable bs = true /\
       Allreduce_Max E (n_features sh) = 0)
  end.
Proof.
  intros sh name. unfold construct, SparsePageDMatrix_ctor.
  rewrite !bind_update_this.
  assert (Hpre : forall (k : unit -> M unit),
    bind (if IsDistributed E
         then update_this (fun d => set_cache_prefix
                 (cache_prefix_ d +:+ ("-r" +:+ pretty (GetRank E))) d) else ret tt) k
      (with_this (fun d => set_cache_prefix
                   (if decide (cache_prefix_ d = "") then "DMatrix" else cache_prefix_ d) d)
         (with_this (set_ctx_nthread nthreads) (new_world E ptr bs missing cache_prefix)))
    = k tt (mkState (mkDMatrix ptr MetaInfo_empty missing nthreads (prefix_of cache_prefix) 0 ∅
                  None None None None None None (BatchParam_default E)) [] [] [] bs [])).
  { intros k. unfold prefix_of. destruct (IsDistributed E); reflexivity. }
  rewrite Hpre. clear Hpre.
  set (s1 := mkState _ _ _ _ _ _).
  unfold GetRowBatchesImpl, InitializeSparsePage.
  rewrite !bind_assoc, bind_get.
  destruct (MakeCache_cases ".row.page" (prefix_of cache_prefix) s1) as [(l & Hl & _)|[_ Hm]].
  { cbn in Hl. rewrite lookup_empty in Hl. discriminate. }
  change (cache_prefix_ (this s1)) with (prefix_of cache_prefix).
  rewrite bind_assoc, (bind_Ok _ _ _ _ _ Hm). clear Hm.
  change (MakeId (prefix_of cache_prefix) (this_ptr (this s1))) with name.
  subst s1. mexp. rewrite insert_empty.
  rewrite bind_assoc.
  match goal with |- context [bind _ _ ?s] =>
    rewrite (bind_Ok _ _ _ _ _ (cache_info_at_Ok (name +:+ ".row.page") 0%nat s
               (lookup_singleton_eq _ _))) end.
  rewrite bind_assoc.
  match goal with |- context [bind _ _ ?s] =>
    rewrite (bind_Ok _ _ _ _ _ (read_cache_Ok 0%nat (mkCache false name ".row.page") s eq_refl))
  end.
  cbn [written]. mnormx. mexp.
  match goal with |- context [bind _ _ ?s] =>
    rewrite (bind_Ok _ _ _ _ _ (cache_info_at_Ok (name +:+ ".row.page") 0%nat s
               (lookup_singleton_eq _ _))) end.
  unfold new_SparsePageSource. rewrite !bind_assoc.
  match goal with |- context [bind _ _ ?s] =>
    rewrite (bind_Ok _ _ _ _ _ (read_cache_Ok 0%nat (mkCache false name ".row.page") s eq_refl))
  end.
  mnormx. cbn [written]. mnormx. mexp.
  unfold range_for. mnormx.
  unfold remaining_batches. mexp. cbn [lookup list_lookup src_count]. rewrite drop_0.
  match goal with |- context [bind (range_for_from _ _ _ ?a) _ ?s] =>
    pose proof (ctor_loop_spec bs [] s a
      (mkPageSource RowFmt 0 None 0 0 None 0) (mkCache false name ".row.page") 0%nat
      eq_refl eq_refl eq_refl eq_refl eq_refl eq_refl) as Hloop;
    unfold bind at 1;
    destruct (range_for_from 0%nat bs (loop_body E) a s) as [a' s'|e s']
  end; lazy beta iota.
  2:{ left. exact Hloop. }
  destruct Hloop as (Hd & Ha & Hg & Hb & Hsrc & Hca & [i Hth]).
  mnormx. mexp.
  fold sh in Ha. fold (shape_of bs) in Ha. fold sh in Ha. subst a'.
  unfold CHECK. rewrite Hth. mexp.
  destruct (Allreduce_Max E (n_features sh) =? 0) eqn:Hz; cbn [negb]; unfold ret, fatal.
  { right. apply Z.eqb_eq in Hz. auto. }
  apply Z.eqb_neq in Hz. mexp.
  repeat split; auto.
  - eexists _, _. reflexivity.
  - rewrite Hca. destruct bs; reflexivity.
Qed.

Lemma suffix_of_inj f g : suffix_of f = suffix_of g -> f = g.
Proof. destruct f, g; cbn; intros H; try reflexivity; discriminate. Qed.

Lemma append_inj_l a x y : a +:+ x = a +:+ y -> x = y.
Proof. induction a; cbn; intros H; [exact H|]. injection H as H. auto. Qed.

Lemma id_inj n f g : n +:+ suffix_of f = n +:+ suffix_of g -> f = g.
Proof. intros H. apply suffix_of_inj. eapply append_inj_l. exact H. Qed.

(** Committing the descriptor of an existing source, in a non-empty data set. *)
Lemma InvV_commit v l :
  InvV v -> (exists p f u, vsrc v !! p = Some (f, l, u)) -> vne v = true ->
  InvV (mkView (vreg v) (vname v) (vmem v) (vsrc v) (<[l := true]> (vwr v)) (vne v) (vcols v)).
Proof.
  intros [H1 H2 H3 H4 H5 H6 H7 H8 H9 H10 H11] Hs Hn.
  constructor; cbn [vreg vname vmem vsrc vwr vne vcols]; auto.
  - intros id l' H. rewrite length_insert. eauto.
  - intros p f l' u H. rewrite length_insert. eauto.
  - intros l' H. destruct (decide (l = l')) as [->|Hne]; [exact Hs|].
    rewrite list_lookup_insert_ne in H by exact Hne. eauto.
  - intros _. destruct (H9 Hn) as (l' & Hl & Hw). exists l'. split; [exact Hl|].
    destruct (decide (l = l')) as [->|Hne].
    + apply list_lookup_insert_eq. eapply lookup_lt_Some; eauto.
    + rewrite list_lookup_insert_ne by exact Hne. exact Hw.
Qed.

(** Registering a fresh descriptor. *)
Lemma InvV_make v k :
  InvV v -> vreg v !! k = None ->
  InvV (mkView (<[k := length (vwr v)]> (vreg v)) (vname v) (vmem v) (vsrc v)
          (vwr v ++ [false]) (vne v) (vcols v)).
Proof.
  intros [H1 H2 H3 H4 H5 H6 H7 H8 H9 H10 H11] Hk.
  constructor; cbn [vreg vname vmem vsrc vwr vne vcols]; auto.
  - intros id' l H. rewrite length_app. cbn.
    destruct (decide (k = id')) as [->|Hne].
    + rewrite lookup_insert_eq in H. injection H as <-. lia.
    + rewrite lookup_insert_ne in H by exact Hne. apply H1 in H. lia.
  - intros id1 id2 l Ha Hb.
    destruct (decide (k = id1)) as [Hn1|Hn1]; destruct (decide (k = id2)) as [Hn2|Hn2]; subst; auto.
    + rewrite lookup_insert_eq in Ha. injection Ha as <-.
      rewrite lookup_insert_ne in Hb by exact Hn2. apply H1 in Hb. lia.
    + rewrite lookup_insert_eq in Hb. injection Hb as <-.
      rewrite lookup_insert_ne in Ha by exact Hn1. apply H1 in Ha. lia.
    + rewrite lookup_insert_ne in Ha by exact Hn1.
      rewrite lookup_insert_ne in Hb by exact Hn2. eauto.
  - intros p f l u H. rewrite length_app. cbn. destruct (H3 _ _ _ _ H) as [Ha Hb].
    split; [lia|exact Hb].
  - destruct (decide (k = vname v +:+ suffix_of RowFmt)) as [->|Hne].
    + rewrite lookup_insert_eq. eauto.
    + rewrite lookup_insert_ne by exact Hne. exact H4.
  - intros f p f' l u Hp Hr.
    destruct (decide (k = vname v +:+ suffix_of f)) as [->|Hne].
    + rewrite lookup_insert_eq in Hr. injection Hr as <-.
      apply H3 in Hp. lia.
    + rewrite lookup_insert_ne in Hr by exact Hne. eauto.
  - intros l H. apply H7.
    destruct (decide (l < length (vwr v))%nat) as [Hlt|Hge].
    + rewrite lookup_app_l in H by exact Hlt. exact H.
    + rewrite lookup_app_r in H by lia.
      destruct (l - length (vwr v))%nat; cbn in H; discriminate.
  - intros l H. apply (H8 l).
    destruct (decide (l < length (vwr v))%nat) as [Hlt|Hge].
    + rewrite lookup_app_l in H by exact Hlt. exact H.
    + rewrite lookup_app_r in H by lia.
      destruct (l - length (vwr v))%nat; cbn in H; discriminate.
  - intros Hn. destruct (H9 Hn) as (l & Hl & Hw). exists l. split.
    + rewrite lookup_insert_ne; [exact Hl|]. intros ->. congruence.
    + rewrite lookup_app_l; [exact Hw|]. eapply lookup_lt_Some; eauto.
  - intros p l u H. specialize (H11 _ _ _ H).
    rewrite lookup_insert_ne; [exact H11|]. intros ->. congruence.
Qed.

(** Erasing the descriptor of a format other than the row format. *)
Lemma InvV_erase v f :
  InvV v -> f <> RowFmt ->
  InvV (mkView (delete (vname v +:+ suffix_of f) (vreg v)) (vname v) (vmem v) (vsrc v)
          (vwr v) (vne v) (vcols v)).
Proof.
  intros [H1 H2 H3 H4 H5 H6 H7 H8 H9 H10 H11] Hf.
  assert (Hne : vname v +:+ suffix_of f <> vname v +:+ suffix_of RowFmt).
  { intros H. apply id_inj in H. contradiction. }
  constructor; cbn [vreg vname vmem vsrc vwr vne vcols]; auto.
  - intros id l H. apply lookup_delete_Some in H as [_ H]. eauto.
  - intros id1 id2 l Ha Hb. apply lookup_delete_Some in Ha as [_ Ha].
    apply lookup_delete_Some in Hb as [_ Hb]. eauto.
  - rewrite lookup_delete_ne by exact Hne. exact H4.
  - intros f0 p f' l u Hp Hr. apply lookup_delete_Some in Hr as [_ Hr]. eauto.
  - intros Hn. destruct (H9 Hn) as (l & Hl & Hw). exists l. split; [|exact Hw].
    rewrite lookup_delete_ne by exact Hne. exact Hl.
  - intros p l u H. rewrite lookup_delete_ne by exact Hne. eauto.
Qed.

(** Creating a source for format [f] over the registered descriptor of [f]
    and making it the member for [f]. *)
Lemma InvV_new v f l u :
  InvV v -> vreg v !! (vname v +:+ suffix_of f) = Some l ->
  (forall u', u = Some u' -> (u' < length (vsrc v))%nat) ->
  InvV (mkView (vreg v) (vname v)
          (fun g => if decide (g = f) then Some (length (vsrc v)) else vmem v g)
          (vsrc v ++ [(f, l, u)]) (vwr v) (vne v) (vcols v)).
Proof.
  intros [H1 H2 H3 H4 H5 H6 H7 H8 H9 H10 H11] Hl Hu.
  constructor; cbn [vreg vname vmem vsrc vwr vne vcols]; auto.
  - intros p f0 l0 u0 H. rewrite length_app. cbn.
    destruct (decide (p < length (vsrc v))%nat) as [Hlt|Hge].
    + rewrite lookup_app_l in H by exact Hlt. destruct (H3 _ _ _ _ H) as [Ha Hb].
      split; [exact Ha|]. intros u' Hu'. specialize (Hb u' Hu'). lia.
    + rewrite lookup_app_r in H by lia.
      destruct (p - length (vsrc v))%nat as [|n] eqn:Hn; cbn in H; [|destruct n; discriminate].
      injection H as <- <- <-. split; [eauto|]. intros u' Hu'. specialize (Hu u' Hu'). lia.
  - intros g p H. destruct (decide (g = f)) as [->|Hne].
    + injection H as <-. exists l, u. rewrite lookup_app_r by lia.
      rewrite Nat.sub_diag. reflexivity.
    + destruct (H5 _ _ H) as (l0 & u0 & Hp). exists l0, u0.
      rewrite lookup_app_l; [exact Hp|]. eapply lookup_lt_Some; eauto.
  - intros g p f' l0 u0 Hp Hr. destruct (decide (g = f)) as [->|Hne]; [eauto|].
    destruct (decide (p < length (vsrc v))%nat) as [Hlt|Hge].
    + rewrite lookup_app_l in Hp by exact Hlt. eauto.
    + rewrite lookup_app_r in Hp by lia.
      destruct (p - length (vsrc v))%nat as [|n] eqn:Hn; cbn in Hp; [|destruct n; discriminate].
      injection Hp as <- <- <-. specialize (H2 _ _ _ Hl Hr). apply id_inj in H2. congruence.
  - intros l0 H. destruct (H7 _ H) as (p & f0 & u0 & Hp). exists p, f0, u0.
    rewrite lookup_app_l; [exact Hp|]. eapply lookup_lt_Some; eauto.
  - intros p l0 u0 H.
    destruct (decide (p < length (vsrc v))%nat) as [Hlt|Hge].
    + rewrite lookup_app_l in H by exact Hlt. eauto.
    + rewrite lookup_app_r in H by lia.
      destruct (p - length (vsrc v))%nat as [|n] eqn:Hn; cbn in H; [|destruct n; discriminate].
      injection H as <- <- <-. exact Hl.
Qed.

(** The invariant does not depend on the representation of the member map. *)
Lemma InvV_ext v w :
  InvV v -> vreg w = vreg v -> vname w = vname v -> (forall f, vmem w f = vmem v f) ->
  vsrc w = vsrc v -> vwr w = vwr v -> vne w = vne v -> vcols w = vcols v -> InvV w.
Proof.
  intros [H1 H2 H3 H4 H5 H6 H7 H8 H9 H10 H11] E1 E2 E3 E4 E5 E6 E7.
  constructor; rewrite ?E1, ?E2, ?E4, ?E5, ?E6, ?E7; auto.
  - intros f p. rewrite E3. auto.
  - intros f p f' l u. rewrite E3. eauto.
Qed.

Lemma construct_Inv ptr bs missing nthreads cache_prefix s :
  construct E ptr bs missing nthreads cache_prefix = Ok tt s -> Inv s.
Proof.
  intros H. pose proof (construct_spec ptr bs missing nthreads cache_prefix) as Hs.
  rewrite H in Hs. cbv zeta in Hs.
  destruct Hs as (_ & Hnz & (ft & lb & Ht) & Hc & Hsrc & _ & Hb).
  unfold Inv, view, name_of. rewrite Ht, Hc, Hsrc, Hb. cbn.
  set (name := MakeId (prefix_of cache_prefix) ptr).
  constructor; cbn [vreg vname vmem vsrc vwr vne vcols].
  - intros id l Hl. apply lookup_singleton_Some in Hl as [_ <-]. cbn. lia.
  - intros id1 id2 l H1 H2. apply lookup_singleton_Some in H1 as [<- _].
    apply lookup_singleton_Some in H2 as [<- _]. reflexivity.
  - intros [|p] f l u Hp; [|discriminate]. injection Hp as <- <- <-. cbn.
    split; [lia|discriminate].
  - rewrite lookup_singleton_eq. eauto.
  - intros [] p Hp; try discriminate. injection Hp as <-. exists 0%nat, None. reflexivity.
  - intros f p f' l u Hp Hr. destruct p as [|p]; [|discriminate]. injection Hp as <- <- <-.
    apply lookup_singleton_Some in Hr as [Hr _]. apply (id_inj name RowFmt f) in Hr.
    subst f. cbn. eauto.
  - intros l Hl. destruct l as [|l]; [|discriminate]. exists 0%nat, RowFmt, None. reflexivity.
  - intros l Hl. destruct l as [|l]; [|discriminate]. cbn in Hl. congruence.
  - intros Hn. exists 0%nat. rewrite lookup_singleton_eq. split; [reflexivity|].
    cbn. rewrite Hn. reflexivity.
  - exact Hnz.
  - intros p l u Hp. destruct p as [|p]; [|discriminate]. injection Hp as <- <-.
    apply lookup_singleton_eq.
Qed.

Lemma Forall2_commit_refl l : Forall2 commit_rel l l.
Proof. induction l; constructor; auto. left. reflexivity. Qed.

Lemma commit_rel_trans a b c : commit_rel a b -> commit_rel b c -> commit_rel a c.
Proof.
  intros [->| ->] [->| ->]; unfold commit_rel; auto.
Qed.

Lemma Frame_refl s : Frame s s.
Proof.
  constructor; auto using Forall2_commit_refl.
  - intros p ps H. exists ps. split; [exact H|apply mod_count_refl].
  - exists []. rewrite app_nil_r. split; [reflexivity|constructor].
Qed.

Lemma this_fields d d' :
  set_sparse_page_source None d' = set_sparse_page_source None d ->
  this_ptr d' = this_ptr d /\ info_ d' = info_ d /\ cache_prefix_ d' = cache_prefix_ d /\
  n_batches_ d' = n_batches_ d /\ cache_info_ d' = cache_info_ d /\
  column_source_ d' = column_source_ d /\ sorted_column_source_ d' = sorted_column_source_ d /\
  ghist_index_source_ d' = ghist_index_source_ d /\ ghist_index_page_ d' = ghist_index_page_ d /\
  batch_param_ d' = batch_param_ d /\ missing_ d' = missing_ d /\ ctx_nthread d' = ctx_nthread d /\
  ellpack_page_source_ d' = ellpack_page_source_ d.
Proof.
  unfold set_sparse_page_source. intros H. injection H. intros. repeat split; assumption.
Qed.

Lemma cache_written_mono s s' f :
  cache_info_ (this s') = cache_info_ (this s) -> name_of s' = name_of s ->
  Forall2 commit_rel (caches s) (caches s') ->
  cache_written s f = true -> cache_written s' f = true.
Proof.
  unfold cache_written, id_of. intros -> -> HF.
  destruct (cache_info_ (this s) !! (name_of s +:+ suffix_of f)) as [l|]; [|discriminate].
  destruct (caches s !! l) as [c|] eqn:Hc; [|discriminate].
  destruct (Forall2_lookup_l _ _ _ _ _ HF Hc) as (c' & -> & [->| ->]); auto.
Qed.

Lemma Frame_name s s' : Frame s s' -> name_of s' = name_of s.
Proof.
  intros [H _ _ _ _ _ _]. apply this_fields in H. unfold name_of.
  destruct H as (-> & _ & -> & _). reflexivity.
Qed.

Lemma Frame_written s s' f : Frame s s' -> cache_written s f = true -> cache_written s' f = true.
Proof.
  intros HF. apply cache_written_mono; [|apply Frame_name; exact HF|apply HF].
  destruct HF as [H _ _ _ _ _ _]. apply this_fields in H. apply H.
Qed.

Lemma Frame_trans s1 s2 s3 : Frame s1 s2 -> Frame s2 s3 -> Frame s1 s3.
Proof.
  intros F1 F2. pose proof (Frame_written _ _ RowFmt F1) as Hw.
  destruct F1 as [A1 A2 A3 A4 A5 A6 A7], F2 as [B1 B2 B3 B4 B5 B6 B7].
  constructor; try congruence.
  - clear - A4 B4. revert B4. generalize (caches s3). induction A4; intros k Hk;
      inversion Hk; subst; constructor; eauto using commit_rel_trans.
  - intros p ps H. destruct (A5 _ _ H) as (ps' & H' & M1).
    destruct (B5 _ _ H') as (ps'' & H'' & M2). eauto using mod_count_trans.
  - destruct A6 as (e1 & T1 & Q1), B6 as (e2 & T2 & Q2). exists (e1 ++ e2).
    rewrite T2, T1, app_assoc. split; [reflexivity|]. intros H. apply Forall_app. auto.
  - intros H. rewrite B7, A7; auto.
Qed.

(** ** The invariant, read on states *)

Lemma key_lookup s p f l u :
  (src_key <$> sources s) !! p = Some (f, l, u) <->
  exists ps, sources s !! p = Some ps /\ src_format ps = f /\ src_cache ps = l /\
             src_upstream ps = u.
Proof.
  rewrite list_lookup_fmap. split.
  - intros H. apply fmap_Some in H as (ps & Hp & Hk). exists ps. unfold src_key in Hk.
    injection Hk as -> -> ->. auto.
  - intros (ps & -> & <- & <- & <-). reflexivity.
Qed.

Lemma wr_lookup s l b :
  (written <$> caches s) !! l = Some b <-> exists c, caches s !! l = Some c /\ written c = b.
Proof.
  rewrite list_lookup_fmap. split.
  - intros H. apply fmap_Some in H as (c & Hc & ->). eauto.
  - intros (c & -> & <-). reflexivity.
Qed.

Lemma Inv_reg_cache s id l :
  Inv s -> cache_info_ (this s) !! id = Some l -> exists c, caches s !! l = Some c.
Proof.
  intros HI H. apply (inv_reg_valid _ HI) in H. cbn in H. rewrite length_fmap in H.
  apply lookup_lt_is_Some_2 in H. destruct H as [c Hc]. eauto.
Qed.

Lemma Inv_src_cache s p ps :
  Inv s -> sources s !! p = Some ps -> exists c, caches s !! src_cache ps = Some c.
Proof.
  intros HI H.
  destruct (inv_src_valid _ HI p (src_format ps) (src_cache ps) (src_upstream ps)) as [Hl _].
  { apply key_lookup. eauto. }
  cbn in Hl. rewrite length_fmap in Hl. apply lookup_lt_is_Some_2 in Hl. destruct Hl. eauto.
Qed.

Lemma Inv_src_upstream s p ps :
  Inv s -> sources s !! p = Some ps ->
  forall u, src_upstream ps = Some u -> (u < length (sources s))%nat.
Proof.
  intros HI H u Hu.
  destruct (inv_src_valid _ HI p (src_format ps) (src_cache ps) (src_upstream ps)) as [_ Hv].
  { apply key_lookup. eauto. }
  specialize (Hv u Hu). cbn in Hv. rewrite length_fmap in Hv. exact Hv.
Qed.

Lemma Inv_member_src s f p :
  Inv s -> member f (this s) = Some p ->
  exists ps, sources s !! p = Some ps /\ src_format ps = f.
Proof.
  intros HI H. destruct (inv_member _ HI f p H) as (l & u & Hk).
  apply key_lookup in Hk as (ps & Hp & Hf & _). eauto.
Qed.

Lemma Inv_written_member s f l c :
  Inv s -> cache_info_ (this s) !! id_of f s = Some l -> caches s !! l = Some c ->
  written c = true -> is_Some (member f (this s)).
Proof.
  intros HI Hr Hc Hw.
  destruct (inv_written_src _ HI l) as (p & f' & u & Hk).
  { apply wr_lookup. eauto. }
  exact (inv_owner _ HI f p f' l u Hk Hr).
Qed.

Lemma Inv_row_cache s p ps :
  Inv s -> sources s !! p = Some ps -> src_format ps = RowFmt ->
  cache_info_ (this s) !! id_of RowFmt s = Some (src_cache ps).
Proof.
  intros HI Hp Hf. apply (inv_row_src _ HI p (src_cache ps) (src_upstream ps)).
  apply key_lookup. eauto.
Qed.

Lemma Inv_written_row s l c :
  Inv s -> caches s !! l = Some c -> written c = true -> cache_written s RowFmt = true.
Proof.
  intros HI Hc Hw.
  assert (Hn : vne (view s) = true).
  { apply (inv_written_nonempty _ HI l). apply wr_lookup. eauto. }
  destruct (inv_row_written _ HI Hn) as (l' & Hl & Hw').
  apply wr_lookup in Hw' as (c' & Hc' & Hw').
  unfold cache_written, id_of. cbn [view vreg vname] in Hl. rewrite Hl, Hc'. exact Hw'.
Qed.

Lemma Inv_num_col s : Inv s -> num_col_ (info_ (this s)) <> 0.
Proof. intros HI. exact (inv_num_col _ HI). Qed.

Lemma view_with_trace f s : view (with_trace f s) = view s.
Proof. reflexivity. Qed.

Lemma keys_mod_count ss ss' :
  Forall2 mod_count ss ss' -> src_key <$> ss' = src_key <$> ss.
Proof.
  induction 1 as [|a b ss ss' [n ->] _ IH]; [reflexivity|].
  cbn. rewrite IH. reflexivity.
Qed.

(** ** Specifications of the internal steps *)

Lemma Inv_same_keys s s' :
  Inv s -> this s' = this s -> caches s' = caches s -> batches s' = batches s ->
  Forall2 mod_count (sources s) (sources s') -> Inv s'.
Proof.
  intros HI Ht Hc Hb Hs. unfold Inv, view, name_of in *.
  rewrite Ht, Hc, Hb, (keys_mod_count _ _ Hs). exact HI.
Qed.

Lemma Frame_same s s' evs :
  this s' = this s -> caches s' = caches s -> ghists s' = ghists s -> batches s' = batches s ->
  Forall2 mod_count (sources s) (sources s') ->
  trace s' = trace s ++ evs -> (cache_written s RowFmt = true -> Forall quiet evs) ->
  Frame s s'.
Proof.
  intros Ht Hc Hg Hb Hs Htr Hq. constructor; auto.
  - rewrite Ht. reflexivity.
  - rewrite Hc. apply Forall2_commit_refl.
  - intros p ps Hp. destruct (Forall2_lookup_l _ _ _ _ _ Hs Hp) as (ps' & H1 & H2). eauto.
  - eauto.
  - intros _. rewrite Ht. reflexivity.
Qed.

Lemma Reset_spec l p c s :
  sources s !! l = Some p -> caches s !! src_cache p = Some c ->
  exists s', PageSource_Reset l s = Ok tt s' /\
    this s' = this s /\ caches s' = caches s /\ ghists s' = ghists s /\
    batches s' = batches s /\ sources s' = <[l := set_count p 0]> (sources s) /\
    trace s' = trace s ++ reset_events p c l.
Proof.
  intros Hp Hc. unfold PageSource_Reset, reset_events.
  mstep (read_source_Ok _ _ _ Hp). mstep (read_cache_Ok _ _ _ Hc). mnorm.
  destruct (src_format p); [destruct (written c)|..]; mnorm;
    (eexists; split; [reflexivity|]); msimpl; rewrite <- ?app_assoc; repeat split.
Qed.

Lemma Reset_Inv l p s :
  Inv s -> sources s !! l = Some p ->
  exists s', PageSource_Reset l s = Ok tt s' /\ Inv s' /\ Frame s s' /\
    caches s' = caches s /\ this s' = this s /\
    sources s' = <[l := set_count p 0]> (sources s) /\
    (src_format p <> RowFmt \/ cache_written s RowFmt = true ->
     trace s' = trace s ++ [SourceReset (src_format p) l]).
Proof.
  intros HI Hp. destruct (Inv_src_cache _ _ _ HI Hp) as [c Hc].
  destruct (Reset_spec l p c s Hp Hc) as (s' & Hr & Ht & Hca & Hg & Hb & Hs & Htr).
  assert (HF : Forall2 mod_count (sources s) (sources s')).
  { rewrite Hs. apply Forall2_mod_count_insert. exact Hp. }
  assert (Hq : src_format p <> RowFmt \/ cache_written s RowFmt = true ->
               reset_events p c l = [SourceReset (src_format p) l]).
  { intros Hor. unfold reset_events. destruct (src_format p) eqn:Hf; try reflexivity.
    destruct Hor as [Hor|Hw]; [congruence|].
    pose proof (Inv_row_cache _ _ _ HI Hp Hf) as Hrc.
    unfold cache_written in Hw. rewrite Hrc, Hc in Hw. rewrite Hw. reflexivity. }
  exists s'. split; [exact Hr|]. split; [eapply Inv_same_keys; eauto|].
  split; [|repeat split; auto].
  - eapply Frame_same; eauto. intros Hw. rewrite Hq by auto. repeat constructor.
  - intros Hor. rewrite Htr, Hq by exact Hor. reflexivity.
Qed.

Lemma MakeCache_registered f s l :
  cache_info_ (this s) !! id_of f s = Some l ->
  MakeCache (suffix_of f) (cache_prefix_ (this s)) s = Ok (id_of f s) s.
Proof.
  intros H. destruct (MakeCache_cases (suffix_of f) (cache_prefix_ (this s)) s)
    as [(l' & _ & Hm)|[Hn _]]; [exact Hm|].
  unfold id_of, name_of in H. congruence.
Qed.

Lemma view_new_source s f ps :
  src_format ps = f ->
  let s' := with_sources (fun h => h ++ [ps]) s in
  forall d', cache_info_ d' = cache_info_ (this s) ->
    MakeId (cache_prefix_ d') (this_ptr d') = name_of s ->
    (forall g, member g d' = if decide (g = f) then Some (length (sources s))
                             else member g (this s)) ->
    num_col_ (info_ d') = num_col_ (info_ (this s)) ->
    forall s'', this s'' = d' -> caches s'' = caches s -> batches s'' = batches s ->
      sources s'' = sources s ++ [ps] ->
      Inv s -> cache_info_ (this s) !! id_of f s = Some (src_cache ps) ->
      (forall u, src_upstream ps = Some u -> (u < length (sources s))%nat) ->
      Inv s''.
Proof.
  intros Hf s' d' Hr Hn Hm Hcol s'' Ht Hc Hb Hs HI Hreg Hu.
  eapply InvV_ext.
  - apply (InvV_new (view s) f (src_cache ps) (src_upstream ps) HI).
    + exact Hreg.
    + cbn. rewrite length_fmap. exact Hu.
  - cbn. rewrite Ht. exact Hr.
  - cbn. unfold name_of at 1. rewrite Ht. exact Hn.
  - intros g. cbn. rewrite Ht, Hm, length_fmap. reflexivity.
  - cbn. rewrite Hs, fmap_app. cbn. unfold src_key. rewrite Hf. reflexivity.
  - cbn. rewrite Hc. reflexivity.
  - cbn. rewrite Hb. reflexivity.
  - cbn. rewrite Ht. exact Hcol.
Qed.

Lemma Init_spec s :
  Inv s ->
  exists s', InitializeSparsePage s = Ok tt s' /\ Inv s' /\ Frame s s' /\
    caches s' = caches s /\
    (exists p ps, sparse_page_source_ (this s') = Some p /\ sources s' !! p = Some ps /\
                  src_count ps = 0%nat /\ src_format ps = RowFmt) /\
    (cache_written s RowFmt = true ->
     exists p ps, sparse_page_source_ (this s) = Some p /\ sources s !! p = Some ps /\
       this s' = this s /\ sources s' = <[p := set_count ps 0]> (sources s) /\
       trace s' = trace s ++ [SourceReset RowFmt p]).
Proof.
  intros HI. destruct (inv_row_reg _ HI) as [l Hl]. cbn [view vreg vname] in Hl.
  change (name_of s +:+ suffix_of RowFmt) with (id_of RowFmt s) in Hl.
  destruct (Inv_reg_cache _ _ _ HI Hl) as [c Hc].
  unfold InitializeSparsePage. mnorm.
  mstep (MakeCache_registered RowFmt s l Hl).
  mstep (cache_info_at_Ok _ _ _ Hl). mstep (read_cache_Ok _ _ _ Hc).
  assert (Hcw : cache_written s RowFmt = written c).
  { unfold cache_written. rewrite Hl, Hc. reflexivity. }
  destruct (written c) eqn:Hw.
  - mnorm. destruct (Inv_written_member s RowFmt l c HI Hl Hc Hw) as [p Hm].
    cbn [member] in Hm. rewrite Hm.
    destruct (Inv_member_src s RowFmt p HI Hm) as (ps & Hp & Hf).
    destruct (Reset_Inv p ps s HI Hp) as (s' & Hr & HI' & HF & Hca & Ht & Hs & Htr).
    exists s'. rewrite Hf in Htr.
    split; [exact Hr|]. split; [exact HI'|]. split; [exact HF|]. split; [exact Hca|]. split.
    + exists p, (set_count ps 0). rewrite Ht, Hs. repeat split; auto.
      apply list_lookup_insert_eq. eapply lookup_lt_Some; eauto.
    + intros _. exists p, ps. repeat split; auto.
  - mnorm. mstep (cache_info_at_Ok (id_of RowFmt s) l
       (with_this (set_sparse_page_source None) s) Hl).
    unfold new_SparsePageSource.
    mstep (read_cache_Ok l c (with_this (set_sparse_page_source None) s) Hc).
    mnorm. rewrite Hw. mnorm.
    eexists. split; [reflexivity|]. msimpl.
    split; [|split; [|split; [reflexivity|split]]].
    + eapply (view_new_source s RowFmt
               (mkPageSource RowFmt l None (num_col_ (info_ (this s))) (n_batches_ (this s))
                  None 0))
        with (d' := set_sparse_page_source (Some (length (sources s))) (this s));
        try reflexivity; try exact HI; try exact Hl.
      * intros []; reflexivity.
      * discriminate.
    + constructor; msimpl; try reflexivity.
      * apply Forall2_commit_refl.
      * intros p ps Hp. exists ps. split; [|apply mod_count_refl].
        rewrite lookup_app_l; [exact Hp|]. eapply lookup_lt_Some; eauto.
      * eexists. rewrite <- !app_assoc. split; [reflexivity|]. congruence.
      * congruence.
    + eexists _, _. split; [reflexivity|].
      split; [apply list_lookup_middle; reflexivity|split; reflexivity].
    + congruence.
Qed.

Lemma advance_Inv l p s :
  Inv s -> sources s !! l = Some p ->
  exists s', PageSource_advance l s = Ok tt s' /\ Inv s' /\ Frame s s' /\
    this s' = this s /\ length (sources s') = length (sources s) /\
    (src_format p = RowFmt ->
     sources s' = if (src_count p <? n_pages s)%nat
                  then <[l := set_count p (S (src_count p))]> (sources s) else sources s).
Proof.
  intros HI Hp. destruct (Inv_src_cache _ _ _ HI Hp) as [c Hc].
  destruct (advance_spec l p c s Hp Hc (Inv_src_upstream _ _ _ HI Hp))
    as (s' & Ha & Ht & Hg & Hb & Hs & Hrow & Hca & evs & Htr & Hev).
  exists s'. split; [exact Ha|].
  assert (Hq : cache_written s RowFmt = true -> Forall quiet evs).
  { intros Hw. destruct Hev as [->|(-> & Hf & Hu)]; [constructor|].
    pose proof (Inv_row_cache _ _ _ HI Hp Hf) as Hrc.
    unfold cache_written in Hw. rewrite Hrc, Hc in Hw. congruence. }
  assert (HFc : Forall2 commit_rel (caches s) (caches s')).
  { rewrite Hca. unfold advance_caches.
    destruct ((src_count p <? n_pages s)%nat && (S (src_count p) =? n_pages s)%nat);
      [|apply Forall2_commit_refl].
    rewrite <- (list_insert_id (caches s) _ _ Hc) at 1.
    apply Forall2_insert; [apply Forall2_commit_refl|right; reflexivity]. }
  split; [|split; [|split; [exact Ht|split; [symmetry; eapply Forall2_length; eauto|exact Hrow]]]].
  - unfold advance_caches in Hca.
    destruct ((src_count p <? n_pages s)%nat && (S (src_count p) =? n_pages s)%nat) eqn:Hcm.
    + apply andb_prop in Hcm as [_ Hn]. apply Nat.eqb_eq in Hn.
      assert (Hne : nonempty (batches s) = true).
      { unfold n_pages in Hn. destruct (batches s); [discriminate|reflexivity]. }
      eapply InvV_ext.
      * apply (InvV_commit (view s) (src_cache p) HI); [|exact Hne].
        exists l, (src_format p), (src_upstream p). apply key_lookup. eauto.
      * cbn. rewrite Ht. reflexivity.
      * cbn. unfold name_of. rewrite Ht. reflexivity.
      * intros f. cbn. rewrite Ht. reflexivity.
      * cbn. apply keys_mod_count. exact Hs.
      * cbn. rewrite Hca, list_fmap_insert. reflexivity.
      * cbn. rewrite Hb. reflexivity.
      * cbn. rewrite Ht. reflexivity.
    + eapply Inv_same_keys; eauto.
  - constructor; auto.
    + rewrite Ht. reflexivity.
    + intros q qs Hq'. destruct (Forall2_lookup_l _ _ _ _ _ Hs Hq') as (qs' & H1 & H2). eauto.
    + eauto.
    + intros _. rewrite Ht. reflexivity.
Qed.

Lemma range_for_pages l bs : forall s acc,
  Inv s -> is_Some (sources s !! l) ->
  exists s', range_for_from l bs (fun _ page acc => ret (acc ++ [page])) acc s
             = Ok (acc ++ (page_of <$> bs)) s' /\ Inv s' /\ Frame s s'.
Proof.
  induction bs as [|b bs IH]; intros s acc HI [p Hp].
  - exists s. cbn. rewrite app_nil_r. auto using Frame_refl.
  - cbn [range_for_from]. mnorm.
    destruct (advance_Inv l p s HI Hp) as (s1 & Ha & HI1 & HF1 & _ & Hlen & _).
    mstep Ha.
    destruct (IH s1 (acc ++ [page_of b]) HI1) as (s' & Hr & HI' & HF').
    { apply lookup_lt_is_Some_2. rewrite Hlen. eapply lookup_lt_Some; eauto. }
    exists s'. rewrite Hr, <- app_assoc. cbn. eauto using Frame_trans.
Qed.

Lemma full_pass_spec s :
  Inv s ->
  exists s', full_pass s = Ok (page_of <$> batches s) s' /\ Inv s' /\ Frame s s'.
Proof.
  intros HI. unfold full_pass, GetRowBatches, GetRowBatchesImpl.
  destruct (Init_spec s HI) as (s1 & Hi & HI1 & HF1 & _ & (p & ps & Hm & Hp & Hn & _) & _).
  mstep Hi. mnorm. rewrite Hm. unfold traverse, range_for. mnorm.
  unfold remaining_batches. rewrite Hp, Hn, drop_0.
  destruct (range_for_pages p (batches s1) s1 [] HI1) as (s' & Hr & HI' & HF'); [eauto|].
  exists s'. rewrite Hr. rewrite (fr_batches _ _ HF1). cbn. eauto using Frame_trans.
Qed.

Lemma traverse_spec p s :
  Inv s -> is_Some (sources s !! p) ->
  exists s', traverse (OverSource (Some p)) s = Ok (pages_of s (OverSource (Some p))) s' /\
    Inv s' /\ Frame s s'.
Proof.
  intros HI Hp. unfold traverse, range_for. mnorm.
  destruct (range_for_pages p (remaining_batches s p) s [] HI Hp) as (s' & Hr & HI' & HF').
  exists s'. rewrite Hr. cbn. auto.
Qed.

(** ** Specifications of the batch retrieval operations *)

Lemma GetRowBatches_spec s :
  Inv s ->
  exists p s', GetRowBatches s = Ok (OverSource (Some p)) s' /\ Inv s' /\ Frame s s' /\
    is_Some (sources s' !! p) /\
    pages_of s' (OverSource (Some p)) = page_of <$> batches s /\
    (cache_written s RowFmt = true ->
     sparse_page_source_ (this s) = Some p /\ this s' = this s /\ caches s' = caches s /\
     length (sources s') = length (sources s) /\
     trace s' = trace s ++ [SourceReset RowFmt p]).
Proof.
  intros HI. unfold GetRowBatches, GetRowBatchesImpl.
  destruct (Init_spec s HI) as (s1 & Hi & HI1 & HF1 & Hca & (p & ps & Hm & Hp & Hn & _) & Hw).
  mstep Hi. mnorm. rewrite Hm. exists p, s1. split; [reflexivity|].
  split; [exact HI1|]. split; [exact HF1|]. split; [eauto|]. split.
  - unfold pages_of, remaining_pages, remaining_batches. rewrite Hp, Hn, drop_0.
    rewrite (fr_batches _ _ HF1). reflexivity.
  - intros H. destruct (Hw H) as (p' & ps' & Hm' & Hp' & Ht & Hs & Htr).
    rewrite Ht in Hm. assert (p' = p) by congruence. subst p'.
    repeat split; auto. rewrite Hs. apply length_insert.
Qed.

Lemma GetColumnBatches_eq : GetColumnBatches = GetDerivedBatches ColFmt.
Proof. reflexivity. Qed.

Lemma GetSortedColumnBatches_eq : GetSortedColumnBatches = GetDerivedBatches SortedColFmt.
Proof. reflexivity. Qed.

Lemma MakeCache_Inv f s :
  Inv s ->
  exists s', MakeCache (suffix_of f) (cache_prefix_ (this s)) s = Ok (id_of f s) s' /\ Inv s' /\
    info_ (this s') = info_ (this s) /\ n_batches_ (this s') = n_batches_ (this s) /\
    name_of s' = name_of s /\ batches s' = batches s /\ ghists s' = ghists s /\
    sources s' = sources s /\ (forall g, member g (this s') = member g (this s)) /\
    batch_param_ (this s') = batch_param_ (this s) /\
    ghist_index_page_ (this s') = ghist_index_page_ (this s) /\
    (exists l, cache_info_ (this s') !! id_of f s = Some l /\
       (cache_info_ (this s) !! id_of f s = None -> l = length (caches s) /\ f <> RowFmt)) /\
    (forall g, cache_written s' g = cache_written s g) /\
    (is_Some (cache_info_ (this s) !! id_of f s) -> s' = s) /\
    (exists evs, trace s' = trace s ++ evs /\ Forall quiet evs /\
       forall e, e ∈ evs -> exists l, e = CacheMade (id_of f s) l) /\
    (exists extra, caches s' = caches s ++ extra).
Proof.
  intros HI.
  destruct (MakeCache_cases (suffix_of f) (cache_prefix_ (this s)) s)
    as [(l & Hl & Hm)|[Hn Hm]].
  - exists s. split; [exact Hm|]. split; [exact HI|]. repeat split; auto.
    + exists l. split; [exact Hl|]. intros H. unfold id_of, name_of in H. congruence.
    + exists []. rewrite app_nil_r. split; [reflexivity|]. split; [constructor|].
      intros e He. inversion He.
    + exists []. rewrite app_nil_r. reflexivity.
  - eexists. split; [exact Hm|]. msimpl.
    assert (Hf : f <> RowFmt).
    { intros ->. destruct (inv_row_reg _ HI) as [l Hl]. cbn [view vreg vname] in Hl.
      unfold name_of in Hl. cbn [suffix_of] in *. congruence. }
    split; [|repeat split; auto].
    + eapply InvV_ext; [apply (InvV_make (view s) (id_of f s) HI); exact Hn|..];
        cbn [view vreg vname vmem vsrc vwr vne vcols]; msimpl; try reflexivity.
      * rewrite length_fmap. reflexivity.
      * rewrite fmap_app. reflexivity.
    + eexists. split; [apply lookup_insert_eq|]. auto.
    + intros g. unfold cache_written, id_of, name_of. msimpl.
      fold (name_of s). fold (id_of g s).
      destruct (decide (id_of f s = id_of g s)) as [Heq|Hne].
      * rewrite <- Heq. fold (id_of f s).
        assert (Hn' : cache_info_ (this s) !! id_of f s = None) by exact Hn.
        rewrite lookup_insert_eq, Hn'.
        rewrite lookup_app_r by lia. rewrite Nat.sub_diag. reflexivity.
      * fold (id_of f s). rewrite lookup_insert_ne by exact Hne.
        destruct (cache_info_ (this s) !! id_of g s) as [l|] eqn:Hl; [|reflexivity].
        destruct (Inv_reg_cache _ _ _ HI Hl) as [c Hc].
        rewrite lookup_app_l by (eapply lookup_lt_Some; eauto). reflexivity.
    + intros [l Hl]. unfold id_of, name_of in Hl. congruence.
    + eexists. split; [reflexivity|]. split; [repeat constructor|].
      intros e He. apply list_elem_of_singleton in He. subst e. eauto.
    + eexists. reflexivity.
Qed.

Lemma member_frame s s' f :
  Frame s s' -> f <> RowFmt -> member f (this s') = member f (this s).
Proof.
  intros HF Hf. destruct (this_fields _ _ (fr_this _ _ HF))
    as (_ & _ & _ & _ & _ & H1 & H2 & H3 & _).
  destruct f; cbn; congruence.
Qed.

Lemma Frame_fields s s' :
  Frame s s' ->
  info_ (this s') = info_ (this s) /\ n_batches_ (this s') = n_batches_ (this s) /\
  cache_info_ (this s') = cache_info_ (this s) /\ name_of s' = name_of s /\
  batch_param_ (this s') = batch_param_ (this s) /\
  ghist_index_page_ (this s') = ghist_index_page_ (this s).
Proof.
  intros HF. pose proof (Frame_name _ _ HF) as Hn.
  destruct (this_fields _ _ (fr_this _ _ HF))
    as (_ & H1 & _ & H2 & H3 & _ & _ & _ & H4 & H5 & _).
  auto 10.
Qed.

Lemma set_member_member f g p d :
  member g (set_member f p d) = if decide (g = f) then p else member g d.
Proof. destruct f, g; reflexivity. Qed.

Lemma set_member_fields f p d :
  cache_info_ (set_member f p d) = cache_info_ d /\
  cache_prefix_ (set_member f p d) = cache_prefix_ d /\
  this_ptr (set_member f p d) = this_ptr d /\ info_ (set_member f p d) = info_ d /\
  n_batches_ (set_member f p d) = n_batches_ d /\
  batch_param_ (set_member f p d) = batch_param_ d /\
  ghist_index_page_ (set_member f p d) = ghist_index_page_ d.
Proof. destruct f; repeat split. Qed.

Lemma GetDerived_spec f s :
  f <> RowFmt -> Inv s ->
  exists q s', GetDerivedBatches f s = Ok (OverSource (Some q)) s' /\ Inv s' /\
    (cache_written s f = true ->
     exists p, sparse_page_source_ (this s) = Some p /\ member f (this s) = Some q /\
       this s' = this s /\ caches s' = caches s /\
       length (sources s') = length (sources s) /\
       trace s' = trace s ++ [SourceReset RowFmt p; SourceReset f q]).
Proof.
  intros Hf HI. unfold GetDerivedBatches. mnorm.
  destruct (MakeCache_Inv f s HI)
    as (sA & Hm & HIA & HiA & _ & HnA & _ & _ & HsA & HmA & _ & _ & (l & Hl & _) & HwA & HeqA & _).
  mstep Hm. mnorm.
  pose proof (Inv_num_col _ HIA) as Hnc. apply Z.eqb_neq in Hnc. rewrite Hnc. cbn [negb CHECK].
  mnorm.
  destruct (Init_spec sA HIA) as (sB & Hi & HIB & HFB & HcB & (p & ps & HmB & HpB & _) & HwB).
  mstep Hi. mnorm.
  destruct (Frame_fields _ _ HFB) as (HiB & HnbB & HrB & HnB & _).
  pose proof (member_frame _ _ f HFB Hf) as Hmf. rewrite HmA in Hmf.
  destruct (member f (this sB)) as [q|] eqn:Hq.
  - destruct (Inv_member_src sB f q HIB Hq) as (qs & Hqs & Hqf).
    destruct (Reset_Inv q qs sB HIB Hqs) as (sC & Hr & HIC & _ & HcC & HtC & HsC & HtrC).
    mstep Hr. mnorm. rewrite HtC, Hq. exists q, sC. split; [reflexivity|]. split; [exact HIC|].
    intros Hw0. pose proof Hw0 as Hw. rewrite <- HwA in Hw.
    assert (Hrow : cache_written sA RowFmt = true).
    { unfold cache_written in Hw.
      destruct (cache_info_ (this sA) !! id_of f sA) as [l'|]; [|discriminate].
      destruct (caches sA !! l') as [c|] eqn:Hc; [|discriminate].
      eapply Inv_written_row; eauto. }
    destruct (HwB Hrow) as (p' & ps' & Hp' & Hps' & HtB & HsB & HtrB).
    assert (HsAs : sA = s).
    { apply HeqA. unfold cache_written in Hw0.
      destruct (cache_info_ (this s) !! id_of f s) eqn:Hx; [eauto|discriminate]. }
    subst sA. exists p'. split; [exact Hp'|]. split; [congruence|].
    split; [congruence|]. split; [congruence|]. split.
    + rewrite HsC, length_insert, HsB, length_insert. reflexivity.
    + rewrite HtrC by (left; congruence). rewrite HtrB, Hqf, <- app_assoc. reflexivity.
  - assert (HlB : cache_info_ (this sB) !! id_of f s = Some l) by (rewrite HrB; exact Hl).
    mstep (cache_info_at_Ok _ _ _ HlB).
    unfold new_DerivedSource. mnorm.
    eexists _, _. split.
    { rewrite set_member_member. rewrite decide_True by reflexivity. reflexivity. }
    split.
    + eapply (view_new_source sB f
               (mkPageSource f l (sparse_page_source_ (this sB)) (num_col_ (info_ (this sB)))
                  (n_batches_ (this sB)) None 0))
        with (d' := set_member f (Some (length (sources sB))) (this sB));
        try reflexivity; try exact HIB.
      * apply set_member_fields.
      * unfold name_of. destruct (set_member_fields f (Some (length (sources sB))) (this sB))
          as (_ & -> & -> & _). reflexivity.
      * intros g. apply set_member_member.
      * destruct (set_member_fields f (Some (length (sources sB))) (this sB))
          as (_ & _ & _ & -> & _). reflexivity.
      * cbn [src_cache]. unfold id_of in *. rewrite HnB, HnA. exact HlB.
      * cbn [src_upstream]. rewrite HmB. intros u Hu. injection Hu as <-.
        eapply lookup_lt_Some; eauto.
    + intros Hw. exfalso. unfold cache_written in Hw.
      destruct (cache_info_ (this s) !! id_of f s) as [l'|] eqn:Hl'; [|discriminate].
      destruct (caches s !! l') as [c|] eqn:Hc; [|discriminate].
      destruct (Inv_written_member s f l' c HI Hl' Hc Hw) as [q Hq']. congruence.
Qed.

Lemma Quiet_refl s : Quiet s s.
Proof.
  intros H. repeat split; auto. exists []. rewrite app_nil_r. split; [reflexivity|constructor].
Qed.

Lemma Quiet_trans s1 s2 s3 : Quiet s1 s2 -> Quiet s2 s3 -> Quiet s1 s3.
Proof.
  intros Q1 Q2 H. destruct (Q1 H) as (A1 & A2 & e1 & A3 & A4).
  destruct (Q2 A2) as (B1 & B2 & e2 & B3 & B4).
  split; [congruence|]. split; [exact B2|]. exists (e1 ++ e2).
  rewrite B3, A3, app_assoc. split; [reflexivity|]. apply Forall_app. auto.
Qed.

Lemma Frame_Quiet s s' : Frame s s' -> Quiet s s'.
Proof.
  intros HF H. split; [exact (fr_row _ _ HF H)|]. split; [eapply Frame_written; eauto|].
  destruct (fr_trace _ _ HF) as (evs & He & Hq). eauto.
Qed.

Lemma Quiet_intro s s' evs :
  sparse_page_source_ (this s') = sparse_page_source_ (this s) ->
  (cache_written s RowFmt = true -> cache_written s' RowFmt = true) ->
  trace s' = trace s ++ evs -> Forall quiet evs -> Quiet s s'.
Proof. intros H1 H2 H3 H4 H. eauto 10. Qed.

Lemma Inv_irrelevant s s' :
  Inv s -> cache_info_ (this s') = cache_info_ (this s) -> name_of s' = name_of s ->
  (forall g, member g (this s') = member g (this s)) ->
  num_col_ (info_ (this s')) = num_col_ (info_ (this s)) ->
  sources s' = sources s -> caches s' = caches s -> batches s' = batches s -> Inv s'.
Proof.
  intros HI H1 H2 H3 H4 H5 H6 H7. eapply InvV_ext; [exact HI|..]; cbn; congruence.
Qed.

Lemma new_GHistIndexMatrix_spec mb sk s :
  Inv s ->
  exists s2, Frame s s2 /\ Inv s2 /\
    new_GHistIndexMatrix mb sk s =
      Ok (length (ghists s))
         (with_trace (fun t => t ++ [GHistBuilt (length (ghists s))])
            (with_ghists (fun h => h ++ [mkGHistIndexMatrix mb sk (page_of <$> batches s)]) s2)).
Proof.
  intros HI. destruct (full_pass_spec s HI) as (s2 & Hf & HI2 & HF).
  exists s2. split; [exact HF|]. split; [exact HI2|].
  unfold new_GHistIndexMatrix. mstep Hf. mnorm. rewrite (fr_ghists _ _ HF). reflexivity.
Qed.

Lemma SketchOnDMatrix_spec mb sk h s :
  Inv s ->
  exists s2, Frame s s2 /\ Inv s2 /\
    SketchOnDMatrix E mb sk h s =
      Ok (SketchOnDMatrix_cuts E (info_ (this s)) (page_of <$> batches s) mb sk h)
         (with_trace (fun t => t ++ [SketchComputed mb sk]) s2).
Proof.
  intros HI. destruct (full_pass_spec s HI) as (s2 & Hf & HI2 & HF).
  exists s2. split; [exact HF|]. split; [exact HI2|].
  unfold SketchOnDMatrix. mstep Hf. mnorm.
  destruct (Frame_fields _ _ HF) as (-> & _). reflexivity.
Qed.

Lemma CHECK_max_bin param {A} (k : unit -> M A) s :
  2 <= max_bin param ->
  bind (CHECK (2 <=? max_bin param) "param.max_bin >= 2") k s = k tt s.
Proof. intros H. apply Z.leb_le in H. rewrite H. reflexivity. Qed.

Lemma GetGradientIndex_keep param s :
  2 <= max_bin param -> in_memory param = true -> rebuild_in_memory E s param = false ->
  GetGradientIndex E param s = Ok (SinglePage (ghist_index_page_ (this s))) s /\
  is_Some (ghist_index_page_ (this s)).
Proof.
  intros Hmb Him Hrb. unfold GetGradientIndex. rewrite CHECK_max_bin by exact Hmb.
  fold (in_memory param). rewrite Him. mnorm. rewrite Hrb. mnorm. split; [reflexivity|].
  unfold rebuild_in_memory in Hrb. apply orb_false_elim in Hrb as [Hrb _].
  apply negb_false_iff, bool_decide_eq_true in Hrb. exact Hrb.
Qed.

Lemma GetGradientIndex_rebuild param s :
  Inv s -> 2 <= max_bin param -> in_memory param = true ->
  rebuild_in_memory E s param = true ->
  exists s', GetGradientIndex E param s = Ok (SinglePage (Some (length (ghists s)))) s' /\
    Inv s' /\ Quiet s s' /\
    ghists s' = ghists s ++
      [mkGHistIndexMatrix (max_bin param) (regen param) (page_of <$> batches s)] /\
    ghist_index_page_ (this s') = Some (length (ghists s)) /\
    batch_param_ (this s') = param.
Proof.
  intros HI Hmb Him Hrb. unfold GetGradientIndex. rewrite CHECK_max_bin by exact Hmb.
  fold (in_memory param). rewrite Him. mnorm. rewrite Hrb. mnorm.
  destruct (Init_spec s HI) as (s1 & Hi1 & HI1 & HF1 & _).
  mstep Hi1.
  destruct (new_GHistIndexMatrix_spec (max_bin param) (regen param) s1 HI1)
    as (s2 & HF2 & HI2 & Hn).
  mstep Hn. mnorm.
  set (s4 := with_this _ (with_trace _ (with_ghists _ s2))).
  assert (HI4 : Inv s4).
  { apply (Inv_irrelevant s2); try reflexivity. exact HI2. }
  destruct (Init_spec s4 HI4) as (s5 & Hi5 & HI5 & HF5 & _).
  mstep Hi5. mnorm.
  destruct (Frame_fields _ _ HF5) as (Hinfo5 & _ & Hr5 & Hn5 & _ & Hpg5).
  rewrite Hpg5. subst s4. msimpl. rewrite (fr_ghists _ _ HF1).
  set (s4 := with_this _ (with_trace _ (with_ghists _ s2))) in *.
  eexists. split; [reflexivity|]. msimpl.
  split; [|split; [|split; [|split; [|reflexivity]]]].
  4:{ rewrite Hpg5. subst s4. msimpl. rewrite (fr_ghists _ _ HF1). reflexivity. }
  - apply (Inv_irrelevant s5); try reflexivity. exact HI5.
  - eapply Quiet_trans; [apply Frame_Quiet; exact HF1|].
    eapply Quiet_trans; [apply Frame_Quiet; exact HF2|].
    eapply (Quiet_trans _ s4).
    { eapply Quiet_intro with (evs := [GHistBuilt _]); try reflexivity; [auto|].
      repeat constructor. }
    eapply Quiet_trans; [apply Frame_Quiet; exact HF5|].
    eapply Quiet_intro with (evs := []); try reflexivity; [auto| |constructor].
    msimpl. rewrite app_nil_r. reflexivity.
  - rewrite (fr_ghists _ _ HF5). subst s4. msimpl.
    rewrite (fr_ghists _ _ HF2), (fr_ghists _ _ HF1), (fr_batches _ _ HF1). reflexivity.
Qed.

Lemma Frame_sources_length s s' : Frame s s' -> (length (sources s) <= length (sources s'))%nat.
Proof.
  intros HF. destruct (decide (length (sources s) <= length (sources s'))%nat) as [|Hn]; auto.
  destruct (lookup_lt_is_Some_2 (sources s) (length (sources s'))) as [ps Hp]; [lia|].
  destruct (fr_sources _ _ HF _ _ Hp) as (ps' & Hp' & _). apply lookup_lt_Some in Hp'. lia.
Qed.

Lemma Frame_caches_length s s' : Frame s s' -> length (caches s') = length (caches s).
Proof. intros HF. symmetry. eapply Forall2_length. apply HF. Qed.

(** The part of the on-disk path that precedes the gate. *)
Lemma on_disk_prefix param s :
  Inv s ->
  exists sA sB l c,
    MakeCache ".gradient_index.page" (cache_prefix_ (this s)) s
      = Ok (id_of GradientIndexFmt s) sA /\
    InitializeSparsePage sA = Ok tt sB /\
    Inv sA /\ Inv sB /\ Frame sA sB /\ caches sB = caches sA /\
    cache_info_ (this sB) !! id_of GradientIndexFmt s = Some l /\
    caches sB !! l = Some c /\
    rebuild_on_disk E sB c param = on_disk_gate s param /\
    info_ (this sA) = info_ (this s) /\ n_batches_ (this sA) = n_batches_ (this s) /\
    name_of sA = name_of s /\ batches sA = batches s /\ ghists sA = ghists s /\
    sources sA = sources s /\ (forall g, member g (this sA) = member g (this s)) /\
    ghist_index_page_ (this sA) = ghist_index_page_ (this s) /\
    (cache_written s GradientIndexFmt = true -> sA = s) /\
    (exists evs, trace sA = trace s ++ evs /\ Forall quiet evs) /\
    (forall g, cache_written sA g = cache_written s g) /\
    (exists extra, caches sA = caches s ++ extra) /\
    batch_param_ (this sA) = batch_param_ (this s).
Proof.
  intros HI.
  destruct (MakeCache_Inv GradientIndexFmt s HI)
    as (sA & Hm & HIA & HiA & HnbA & HnA & HbA & HgA & HsA & HmA & HbpA & HpgA & (l & Hl & _)
        & HwA & HeqA & (evs & HtrA & HqA & _) & HexA).
  destruct (Init_spec sA HIA) as (sB & Hi & HIB & HFB & HcB & _).
  destruct (Frame_fields _ _ HFB) as (HiB & HnbB & HrB & HnB & HbpB & _).
  destruct (Inv_reg_cache sA _ _ HIA Hl) as [c Hc].
  exists sA, sB, l, c.
  split; [exact Hm|]. split; [exact Hi|]. split; [exact HIA|]. split; [exact HIB|].
  split; [exact HFB|]. split; [exact HcB|]. split; [rewrite HrB; exact Hl|].
  split; [rewrite HcB; exact Hc|]. split.
  { unfold rebuild_on_disk, on_disk_gate. rewrite HbpB, HbpA. f_equal. f_equal. f_equal.
    rewrite <- HwA. unfold cache_written. unfold id_of at 1. rewrite HnA.
    fold (id_of GradientIndexFmt s). rewrite Hl, Hc. reflexivity. }
  repeat (split; [assumption|]). split.
  { intros Hw. apply HeqA. unfold cache_written in Hw.
    destruct (cache_info_ (this s) !! id_of GradientIndexFmt s); [eauto|discriminate]. }
  split; [eauto|]. auto.
Qed.

Lemma GetGradientIndex_reset param s :
  Inv s -> 2 <= max_bin param -> in_memory param = false -> on_disk_gate s param = false ->
  exists p0 p ps s',
    GetGradientIndex E param s = Ok (OverSource (Some p)) s' /\ Inv s' /\
    sparse_page_source_ (this s) = Some p0 /\
    ghist_index_source_ (this s) = Some p /\ sources s !! p = Some ps /\
    this s' = this s /\ caches s' = caches s /\
    length (sources s') = length (sources s) /\
    sources s' !! p = Some (set_count ps 0) /\
    trace s' = trace s ++ [SourceReset RowFmt p0; SourceReset GradientIndexFmt p].
Proof.
  intros HI Hmb Him Hg.
  destruct (on_disk_prefix param s HI)
    as (sA & sB & l & c & Hm & Hi & HIA & HIB & HFB & HcB & Hl & Hc & Hgate & _ & _ & HnA & _ & _
        & _ & _ & _ & HeqA & _).
  assert (Hw : cache_written s GradientIndexFmt = true).
  { unfold on_disk_gate in Hg. apply orb_false_elim in Hg as [Hg _].
    apply orb_false_elim in Hg as [Hg _]. apply negb_false_iff in Hg. exact Hg. }
  specialize (HeqA Hw). subst sA.
  assert (Hrow : cache_written s RowFmt = true).
  { unfold cache_written in Hw.
    destruct (cache_info_ (this s) !! id_of GradientIndexFmt s) as [l'|]; [|discriminate].
    destruct (caches s !! l') as [c'|] eqn:Hc'; [|discriminate].
    eapply Inv_written_row; eauto. }
  destruct (Init_spec s HI) as (sB' & Hi' & _ & _ & _ & _ & HwB).
  assert (sB' = sB) by congruence. subst sB'.
  destruct (HwB Hrow) as (p0 & ps0 & Hp0 & Hps0 & HtB & HsB & HtrB).
  unfold GetGradientIndex. rewrite CHECK_max_bin by exact Hmb.
  fold (in_memory param). rewrite Him. mnorm.
  mstep Hm. mstep Hi. mstep (cache_info_at_Ok _ _ _ Hl). mstep (read_cache_Ok _ _ _ Hc).
  mnorm. rewrite Hgate, Hg. mnorm.
  assert (Hcw : written c = true).
  { unfold cache_written in Hw. rewrite HtB in Hl. rewrite Hl, <- HcB, Hc in Hw. exact Hw. }
  destruct (Inv_written_member sB GradientIndexFmt l c HIB) as [p Hp]; auto.
  { unfold id_of. rewrite (Frame_name _ _ HFB). exact Hl. }
  cbn [member] in Hp. rewrite Hp.
  destruct (Inv_member_src sB GradientIndexFmt p HIB Hp) as (psB & HpsB & Hf).
  destruct (Reset_Inv p psB sB HIB HpsB) as (sC & Hr & HIC & _ & HcC & HtC & HsC & HtrC).
  mstep Hr. mnorm. rewrite HtC, Hp.
  assert (Hps : exists ps, sources s !! p = Some ps /\ set_count psB 0 = set_count ps 0).
  { rewrite HsB in HpsB. destruct (decide (p0 = p)) as [->|Hne].
    - rewrite list_lookup_insert_eq in HpsB by (eapply lookup_lt_Some; eauto).
      injection HpsB as <-. eauto.
    - rewrite list_lookup_insert_ne in HpsB by exact Hne. eauto. }
  destruct Hps as (ps & Hps & Heq).
  exists p0, p, ps, sC. split; [reflexivity|]. split; [exact HIC|].
  split; [exact Hp0|]. split; [congruence|]. split; [exact Hps|]. split; [congruence|].
  split; [congruence|]. split; [rewrite HsC, length_insert, HsB, length_insert; reflexivity|].
  split.
  - rewrite HsC, <- Heq. apply list_lookup_insert_eq. eapply lookup_lt_Some; eauto.
  - rewrite HtrC by (left; congruence). rewrite HtrB, Hf, <- app_assoc. reflexivity.
Qed.

Lemma MakeCache_Quiet f s s' :
  Inv s -> MakeCache (suffix_of f) (cache_prefix_ (this s)) s = Ok (id_of f s) s' -> Quiet s s'.
Proof.
  intros HI Hm.
  destruct (MakeCache_Inv f s HI)
    as (sA & Hm' & _ & _ & _ & _ & _ & _ & _ & HmA & _ & _ & _ & HwA & _ & (evs & HtrA & HqA & _) & _).
  assert (sA = s') by congruence. subst sA.
  eapply Quiet_intro; [exact (HmA RowFmt)|rewrite HwA; auto|exact HtrA|exact HqA].
Qed.

Lemma erase_Inv s :
  Inv s ->
  let s' := with_trace (fun t => t ++ [CacheErased (id_of GradientIndexFmt s)])
              (with_this (fun d => set_cache_info
                 (delete (id_of GradientIndexFmt s) (cache_info_ d)) d) s) in
  cache_info_erase (id_of GradientIndexFmt s) s = Ok tt s' /\ Inv s' /\ Quiet s s' /\
  cache_info_ (this s') !! id_of GradientIndexFmt s = None.
Proof.
  intros HI s'. split; [reflexivity|]. split; [|split].
  - eapply InvV_ext; [apply (InvV_erase (view s) GradientIndexFmt HI); discriminate|..];
      reflexivity.
  - eapply Quiet_intro with (evs := [CacheErased _]); try reflexivity; [|repeat constructor].
    unfold cache_written, id_of, name_of. subst s'. msimpl.
    rewrite lookup_delete_ne; [auto|]. intros H. apply id_inj in H. discriminate.
  - subst s'. msimpl. apply lookup_delete_eq.
Qed.

Lemma MakeCache_fresh f s :
  Inv s -> cache_info_ (this s) !! id_of f s = None ->
  exists s', MakeCache (suffix_of f) (cache_prefix_ (this s)) s = Ok (id_of f s) s' /\
    Inv s' /\ Quiet s s' /\
    cache_info_ (this s') !! id_of f s = Some (length (caches s)) /\
    trace s' = trace s ++ [CacheMade (id_of f s) (length (caches s))] /\
    info_ (this s') = info_ (this s) /\ n_batches_ (this s') = n_batches_ (this s) /\
    name_of s' = name_of s /\ batches s' = batches s /\ sources s' = sources s /\
    (forall g, member g (this s') = member g (this s)).
Proof.
  intros HI Hn.
  destruct (MakeCache_Inv f s HI)
    as (s' & Hm & HI' & Hi & Hnb & Hnm & Hb & _ & Hs & Hmem & _ & _ & (l & Hl & Hfr) & _).
  exists s'. split; [exact Hm|]. split; [exact HI'|].
  split; [eapply MakeCache_Quiet; eauto|].
  destruct (Hfr Hn) as [-> _]. split; [exact Hl|].
  split; [|auto 10].
  destruct (MakeCache_cases (suffix_of f) (cache_prefix_ (this s)) s)
    as [(l' & Hl' & _)|[_ Hm']].
  - unfold id_of, name_of in Hn. congruence.
  - rewrite Hm in Hm'. injection Hm' as ->. reflexivity.
Qed.

Lemma GetGradientIndex_disk_rebuild param s :
  Inv s -> 2 <= max_bin param -> in_memory param = false -> on_disk_gate s param = true ->
  let gid := id_of GradientIndexFmt s in
  let cuts := SketchOnDMatrix_cuts E (info_ (this s)) (page_of <$> batches s)
                (max_bin param) (regen param) (hess param) in
  let s' := final_state (GetGradientIndex E param s) in
  exists l' evs,
    trace s' = trace s ++ evs /\ Quiet s s' /\
    CacheErased gid ∈ evs /\ CacheMade gid l' ∈ evs /\
    SketchComputed (max_bin param) (regen param) ∈ evs /\
    (length (caches s) <= l')%nat /\ cache_info_ (this s') !! gid = Some l' /\
    info_ (this s') = info_ (this s) /\ batch_param_ (this s') = param /\
    match Values cuts with
    | [] => GetGradientIndex E param s = Fatal (CheckFailed "cuts.Values().size() != 0") s' /\
            ghist_index_source_ (this s') = None
    | _ => exists p,
        GetGradientIndex E param s = Ok (OverSource (Some p)) s' /\ Inv s' /\
        (length (sources s) <= p)%nat /\ ghist_index_source_ (this s') = Some p /\
        is_Some (sparse_page_source_ (this s')) /\
        SourceCreated GradientIndexFmt p ∈ evs /\
        sources s' !! p = Some
          (mkPageSource GradientIndexFmt l' (sparse_page_source_ (this s'))
             (num_col_ (info_ (this s))) (n_batches_ (this s))
             (Some (mkGHistBinding param cuts (IsDense E (info_ (this s))) (max_bin param)
                      (feature_types (info_ (this s)))))
             0)
    end.
Proof.
  intros HI Hmb Him Hg gid cuts. cbv zeta.
  destruct (on_disk_prefix param s HI)
    as (sA & sB & l & c & Hm & Hi & HIA & HIB & HFB & HcB & Hl & Hc & Hgate & HiA & HnbA & HnA
        & HbA & _ & HsA & HmA & _ & _ & (evA & HtrA & HqA) & HwA & (exA & HexA) & _).
  destruct (Frame_fields _ _ HFB) as (HiB & HnbB & HrB & HnB & _).
  assert (HgidB : id_of GradientIndexFmt sB = gid).
  { unfold gid, id_of. rewrite HnB, HnA. reflexivity. }
  destruct (erase_Inv sB HIB) as (He & HIC & HQC & HlC). rewrite HgidB in He, HIC, HQC, HlC.
  set (sC := with_trace _ (with_this _ sB)) in *.
  assert (HgidC : id_of GradientIndexFmt sC = gid) by exact HgidB.
  rewrite <- HgidC in HlC.
  destruct (MakeCache_fresh GradientIndexFmt sC HIC HlC)
    as (sD & HmD & HID & HQD & HlD & HtrD & HiD & HnbD & HnD & HbD & HsD & HmemD).
  rewrite HgidC in HmD, HlD, HtrD.
  destruct (SketchOnDMatrix_spec (max_bin param) (regen param) (hess param) sD HID)
    as (s2 & HF2 & HI2 & Hsk).
  set (sE := with_trace (fun t => t ++ [SketchComputed (max_bin param) (regen param)]) s2) in *.
  assert (HIE : Inv sE) by (apply (Inv_irrelevant s2); try reflexivity; exact HI2).
  destruct (Init_spec sE HIE) as (sF & HiF & HIF & HFF & HcF & (p0 & ps0 & Hp0 & Hps0 & _) & _).
  destruct (Frame_fields _ _ HF2) as (Hi2 & Hnb2 & Hr2 & Hn2 & _).
  destruct (Frame_fields _ _ HFF) as (HiF' & HnbF & HrF & HnF & _).
  assert (Hinfo : info_ (this sF) = info_ (this s)).
  { rewrite HiF'. subst sE. msimpl. rewrite Hi2, HiD. subst sC. msimpl. congruence. }
  assert (Hnb : n_batches_ (this sF) = n_batches_ (this s)).
  { rewrite HnbF. subst sE. msimpl. rewrite Hnb2, HnbD. subst sC. msimpl. congruence. }
  assert (Hcuts : SketchOnDMatrix_cuts E (info_ (this sD)) (page_of <$> batches sD)
                    (max_bin param) (regen param) (hess param) = cuts).
  { unfold cuts. rewrite HiD, HbD. subst sC. msimpl.
    rewrite HiB, HiA, (fr_batches _ _ HFB), HbA. reflexivity. }
  rewrite Hcuts in Hsk.
  assert (HlF : cache_info_ (this sF) !! gid = Some (length (caches sC))).
  { rewrite HrF. subst sE. msimpl. rewrite Hr2. exact HlD. }
  assert (Hlen : (length (caches s) <= length (caches sC))%nat).
  { subst sC. msimpl. rewrite HcB, HexA, length_app. lia. }
  destruct (fr_trace _ _ HFB) as (evB & HtrB & _).
  destruct (fr_trace _ _ HF2) as (ev2 & Htr2 & _).
  destruct (fr_trace _ _ HFF) as (evF & HtrF & _).
  assert (HtrF' : trace sF = trace s ++
     (evA ++ evB ++ [CacheErased gid] ++ [CacheMade gid (length (caches sC))] ++ ev2
      ++ [SketchComputed (max_bin param) (regen param)] ++ evF)).
  { rewrite HtrF. subst sE. msimpl. rewrite Htr2, HtrD. subst sC. msimpl.
    rewrite HtrB, HtrA. rewrite <- !app_assoc. reflexivity. }
  assert (HQF : Quiet s sF).
  { eapply Quiet_trans; [eapply (MakeCache_Quiet GradientIndexFmt); eauto|].
    eapply Quiet_trans; [apply Frame_Quiet; exact HFB|].
    eapply Quiet_trans; [exact HQC|]. eapply Quiet_trans; [exact HQD|].
    eapply Quiet_trans; [apply Frame_Quiet; exact HF2|].
    eapply (Quiet_trans _ sE); [|apply Frame_Quiet; exact HFF].
    eapply Quiet_intro with (evs := [SketchComputed _ _]); try reflexivity; [auto|].
    repeat constructor. }
  unfold GetGradientIndex. rewrite CHECK_max_bin by exact Hmb.
  fold (in_memory param). rewrite Him. mnorm.
  mstep Hm. mstep Hi. mstep (cache_info_at_Ok _ _ _ Hl). mstep (read_cache_Ok _ _ _ Hc).
  mnorm. rewrite Hgate, Hg.
  rewrite bind_assoc. rewrite (bind_Ok _ _ _ _ _ He). cbv beta. mnorm.
  change (cache_prefix_ (this sB)) with (cache_prefix_ (this sC)).
  mstep HmD. mstep Hsk. mstep HiF. mnorm.
  destruct (Values cuts) as [|v vs] eqn:Hv; cbn [length Nat.eqb negb CHECK]; mnorm.
  - unfold fatal. cbn [final_state]. exists (length (caches sC)).
    eexists. split; [msimpl; exact HtrF'|]. split.
    { eapply Quiet_trans; [exact HQF|].
      eapply Quiet_intro with (evs := []); try reflexivity; [auto| |constructor].
      msimpl. rewrite app_nil_r. reflexivity. }
    split; [set_solver|]. split; [set_solver|]. split; [set_solver|].
    split; [exact Hlen|]. split; [exact HlF|]. split; [exact Hinfo|].
    split; [reflexivity|]. split; reflexivity.
  - assert (HlG : cache_info_ (this (with_this (set_ghist_index_source None)
                     (with_this (set_batch_param param) sF))) !! gid
                  = Some (length (caches sC))) by exact HlF.
    mstep (cache_info_at_Ok _ _ _ HlG). unfold new_DerivedSource. mnorm.
    unfold ret. cbn [final_state]. exists (length (caches sC)). eexists. split.
    { msimpl. rewrite HtrF', <- app_assoc. reflexivity. }
    split.
    { eapply Quiet_trans; [exact HQF|].
      eapply Quiet_intro with (evs := [SourceCreated GradientIndexFmt _]); try reflexivity;
        [auto|repeat constructor]. }
    split; [set_solver|]. split; [set_solver|]. split; [set_solver|].
    split; [exact Hlen|]. split; [exact HlF|]. split; [exact Hinfo|]. split; [reflexivity|].
    exists (length (sources sF)). split; [reflexivity|]. msimpl. split.
    { eapply (view_new_source sF GradientIndexFmt
               (mkPageSource GradientIndexFmt (length (caches sC)) (sparse_page_source_ (this sF))
                  (num_col_ (info_ (this sF))) (n_batches_ (this sF))
                  (Some (mkGHistBinding param cuts (IsDense E (info_ (this sF))) (max_bin param)
                           (feature_types (info_ (this sF))))) 0))
        with (d' := set_ghist_index_source (Some (length (sources sF)))
                      (set_ghist_index_source None (set_batch_param param (this sF))));
        try reflexivity; try exact HIF.
      - intros []; reflexivity.
      - cbn [src_cache]. unfold id_of. rewrite HnF. subst sE. unfold name_of at 1. msimpl.
        fold (name_of s2). rewrite Hn2, HnD. fold (id_of GradientIndexFmt sC).
        rewrite HgidC. exact HlF.
      - cbn [src_upstream]. rewrite Hp0. intros u Hu. injection Hu as <-.
        eapply lookup_lt_Some; eauto. }
    split.
    { transitivity (length (sources sE)); [|apply Frame_sources_length; exact HFF].
      subst sE. msimpl.
      transitivity (length (sources sD)); [|apply Frame_sources_length; exact HF2].
      rewrite HsD. subst sC. msimpl.
      transitivity (length (sources sA)); [rewrite HsA; lia|].
      apply Frame_sources_length; exact HFB. }
    split; [reflexivity|]. split; [rewrite Hp0; eauto|]. split; [set_solver|].
    rewrite Hinfo, Hnb. apply list_lookup_middle. reflexivity.
Qed.

(** ** Frame property: the dataset metadata *)

Global Instance Stable_info : Stable (fun s => info_ (this s)).
Proof. constructor; intros; cbn; auto. Qed.

Global Instance Stable_batches : Stable batches.
Proof. constructor; intros; reflexivity. Qed.

Section Keeps.

Context {X} (proj : State -> X) `{!Stable proj}.

Lemma keeps_ret {A} (a : A) : keeps proj (ret a).
Proof. intros s. reflexivity. Qed.

Lemma keeps_fatal {A} e : keeps proj (@fatal A e).
Proof. intros s. reflexivity. Qed.

Lemma keeps_get : keeps proj get.
Proof. intros s. reflexivity. Qed.

Lemma keeps_bind {A B} (c : M A) (k : A -> M B) :
  keeps proj c -> (forall a, keeps proj (k a)) -> keeps proj (bind c k).
Proof.
  intros Hc Hk s. unfold bind. specialize (Hc s).
  destruct (c s) as [a s1|e s1]; cbn in *; [rewrite (Hk a s1)|]; exact Hc.
Qed.

Lemma keeps_update_this f :
  (forall d, info_ (f d) = info_ d) -> keeps proj (update_this f).
Proof. intros H s. cbn. apply stable_this. exact H. Qed.

Ltac keeps_step :=
  first
    [ solve [auto 2 with keepsdb nocore]
    | apply keeps_ret | apply keeps_fatal | apply keeps_get
    | apply keeps_bind; [|intros]
    | apply keeps_update_this; intros []; reflexivity
    | apply keeps_update_this; intros ?; reflexivity
    | match goal with
      | |- keeps proj (if ?x then _ else _) => destruct x
      | |- keeps proj (match ?x with Some _ => _ | None => _ end) => destruct x
      | |- keeps proj (match ?x with RowFmt => _ | _ => _ end) => destruct x
      end ].

Ltac keeps_tac := repeat keeps_step.

Lemma keeps_read_cache l : keeps proj (read_cache l).
Proof. intros s. unfold read_cache. destruct (caches s !! l); reflexivity. Qed.

#[local] Hint Resolve keeps_read_cache : keepsdb.

Lemma keeps_read_source l : keeps proj (read_source l).
Proof. intros s. unfold read_source. destruct (sources s !! l); reflexivity. Qed.

#[local] Hint Resolve keeps_read_source : keepsdb.

Lemma keeps_cache_info_at id : keeps proj (cache_info_at id).
Proof. intros s. unfold cache_info_at. destruct (cache_info_ (this s) !! id); reflexivity. Qed.

#[local] Hint Resolve keeps_cache_info_at : keepsdb.

Lemma keeps_alloc_cache c : keeps proj (alloc_cache c).
Proof. intros s. apply stable_caches. Qed.

#[local] Hint Resolve keeps_alloc_cache : keepsdb.

Lemma keeps_alloc_source p : keeps proj (alloc_source p).
Proof. intros s. apply stable_sources. Qed.

#[local] Hint Resolve keeps_alloc_source : keepsdb.

Lemma keeps_alloc_ghist g : keeps proj (alloc_ghist g).
Proof. intros s. apply stable_ghists. Qed.

#[local] Hint Resolve keeps_alloc_ghist : keepsdb.

Lemma keeps_log e : keeps proj (log e).
Proof. intros s. apply stable_trace. Qed.

#[local] Hint Resolve keeps_log : keepsdb.

Lemma keeps_write_source l p : keeps proj (write_source l p).
Proof. intros s. apply stable_sources. Qed.

#[local] Hint Resolve keeps_write_source : keepsdb.

Lemma keeps_write_cache l c : keeps proj (write_cache l c).
Proof. intros s. apply stable_caches. Qed.

#[local] Hint Resolve keeps_write_cache : keepsdb.

Lemma keeps_CHECK b what : keeps proj (CHECK b what).
Proof. unfold CHECK. destruct b; keeps_tac. Qed.

#[local] Hint Resolve keeps_CHECK : keepsdb.

Lemma keeps_MakeCache format prefix : keeps proj (MakeCache format prefix).
Proof.
  unfold MakeCache. keeps_tac.
Qed.

#[local] Hint Resolve keeps_MakeCache : keepsdb.

Lemma keeps_cache_info_erase id : keeps proj (cache_info_erase id).
Proof. unfold cache_info_erase. keeps_tac. Qed.

#[local] Hint Resolve keeps_cache_info_erase : keepsdb.

Lemma keeps_new_SparsePageSource nf nb l : keeps proj (new_SparsePageSource nf nb l).
Proof.
  unfold new_SparsePageSource.
  keeps_tac.
Qed.

#[local] Hint Resolve keeps_new_SparsePageSource : keepsdb.

Lemma keeps_new_DerivedSource f nf nb l b u : keeps proj (new_DerivedSource f nf nb l b u).
Proof.
  unfold new_DerivedSource. keeps_tac.
Qed.

#[local] Hint Resolve keeps_new_DerivedSource : keepsdb.

Lemma keeps_PageSource_Reset l : keeps proj (PageSource_Reset l).
Proof.
  unfold PageSource_Reset. keeps_tac.
Qed.

#[local] Hint Resolve keeps_PageSource_Reset : keepsdb.

Lemma keeps_PageSource_advance l : keeps proj (PageSource_advance l).
Proof.
  unfold PageSource_advance. keeps_tac.
Qed.

#[local] Hint Resolve keeps_PageSource_advance : keepsdb.

Lemma keeps_InitializeSparsePage : keeps proj InitializeSparsePage.
Proof.
  unfold InitializeSparsePage. keeps_tac.
Qed.

#[local] Hint Resolve keeps_InitializeSparsePage : keepsdb.

Lemma keeps_GetRowBatches : keeps proj GetRowBatches.
Proof.
  unfold GetRowBatches, GetRowBatchesImpl. keeps_tac.
Qed.

#[local] Hint Resolve keeps_GetRowBatches : keepsdb.

Lemma keeps_range_for_from {A} l bs (body : RawBatch -> SparsePage -> A -> M A) :
  (forall b pg a, keeps proj (body b pg a)) -> forall a, keeps proj (range_for_from l bs body a).
Proof.
  intros Hb. induction bs as [|b bs IH]; intros a; cbn [range_for_from].
  - apply keeps_ret.
  - keeps_tac.
Qed.

Lemma keeps_full_pass : keeps proj full_pass.
Proof.
  unfold full_pass, traverse, range_for. keeps_tac.
  destruct a as [[l|]|o]; keeps_tac.
  apply keeps_range_for_from. intros. apply keeps_ret.
Qed.

#[local] Hint Resolve keeps_full_pass : keepsdb.

Lemma keeps_GetColumnBatches : keeps proj GetColumnBatches.
Proof.
  unfold GetColumnBatches. keeps_tac.
Qed.

#[local] Hint Resolve keeps_GetColumnBatches : keepsdb.

Lemma keeps_GetSortedColumnBatches : keeps proj GetSortedColumnBatches.
Proof.
  unfold GetSortedColumnBatches. keeps_tac.
Qed.

#[local] Hint Resolve keeps_GetSortedColumnBatches : keepsdb.

Lemma keeps_GetGradientIndex param : keeps proj (GetGradientIndex E param).
Proof.
  unfold GetGradientIndex, new_GHistIndexMatrix, SketchOnDMatrix.
  keeps_tac.
Qed.

#[local] Hint Resolve keeps_GetGradientIndex : keepsdb.

Lemma keeps_GetEllpackBatches param : keeps proj (GetEllpackBatches E param).
Proof.
  unfold GetEllpackBatches, AssertGPUSupport. keeps_tac.
Qed.

End Keeps.

Lemma GetGradientIndex_cases param s :
  Inv s ->
  let r := GetGradientIndex E param s in
  (exists b, r = Ok b (final_state r) /\ Inv (final_state r))
  \/ r = Fatal (CheckFailed "param.max_bin >= 2") s
  \/ r = Fatal (CheckFailed "cuts.Values().size() != 0") (final_state r).
Proof.
  intros HI r. subst r.
  destruct (Z_lt_le_dec (max_bin param) 2) as [Hlt|Hge].
  { right. left. apply max_bin_check_fails. exact Hlt. }
  destruct (in_memory param) eqn:Him.
  - destruct (rebuild_in_memory E s param) eqn:Hrb.
    + destruct (GetGradientIndex_rebuild param s HI Hge Him Hrb) as (s' & -> & HI' & _).
      left. eexists. split; [reflexivity|exact HI'].
    + destruct (GetGradientIndex_keep param s Hge Him Hrb) as [-> _].
      left. eexists. split; [reflexivity|exact HI].
  - destruct (on_disk_gate s param) eqn:Hg.
    + pose proof (GetGradientIndex_disk_rebuild param s HI Hge Him Hg) as H.
      cbv zeta in H. destruct H as (l' & evs & _ & _ & _ & _ & _ & _ & _ & _ & _ & H).
      destruct (Values _) in H.
      * right. right. destruct H as [H _]. rewrite H at 1. reflexivity.
      * left. destruct H as (p & H & HI' & _). eexists. split; [rewrite H at 1; reflexivity|].
        exact HI'.
    + destruct (GetGradientIndex_reset param s HI Hge Him Hg) as (p0 & p & ps & s' & -> & HI' & _).
      left. eexists. split; [reflexivity|exact HI'].
Qed.

Lemma do_call_Inv c s s' : Inv s -> do_call E c s = Ok tt s' -> Inv s'.
Proof.
  intros HI. destruct c as [| | |param|l]; cbn [do_call].
  - destruct (GetRowBatches_spec s HI) as (p & s1 & H & HI1 & _).
    rewrite (bind_Ok _ _ _ _ _ H). intros [= <-]. exact HI1.
  - rewrite GetColumnBatches_eq.
    destruct (GetDerived_spec ColFmt s) as (q & s1 & H & HI1 & _); [discriminate|exact HI|].
    rewrite (bind_Ok _ _ _ _ _ H). intros [= <-]. exact HI1.
  - rewrite GetSortedColumnBatches_eq.
    destruct (GetDerived_spec SortedColFmt s) as (q & s1 & H & HI1 & _); [discriminate|exact HI|].
    rewrite (bind_Ok _ _ _ _ _ H). intros [= <-]. exact HI1.
  - destruct (GetGradientIndex_cases param s HI) as [(b & H & HI1)|[H|H]];
      unfold bind; rewrite H; [intros [= <-]; exact HI1|discriminate..].
  - destruct (sources s !! l) as [p|] eqn:Hp.
    + destruct (advance_Inv l p s HI Hp) as (s1 & H & HI1 & _). rewrite H. intros [= <-].
      exact HI1.
    + unfold PageSource_advance, bind, read_source. rewrite Hp. discriminate.
Qed.

Lemma run_Inv cs : forall s s', Inv s -> run E cs s = Ok tt s' -> Inv s'.
Proof.
  induction cs as [|c cs IH]; intros s s' HI; cbn [run].
  - intros [= <-]. exact HI.
  - unfold bind. destruct (do_call E c s) as [[] s1|e s1] eqn:Hc; [|discriminate].
    intros H. eapply IH; [|exact H]. eapply do_call_Inv; eauto.
Qed.

Lemma keeps_do_call {X} (proj : State -> X) `{!Stable proj} c : keeps proj (do_call E c).
Proof.
  destruct c; cbn [do_call]; try (apply keeps_bind; [|intros; apply keeps_ret]).
  - apply keeps_GetRowBatches; assumption.
  - apply keeps_GetColumnBatches; assumption.
  - apply keeps_GetSortedColumnBatches; assumption.
  - apply keeps_GetGradientIndex; assumption.
  - apply keeps_PageSource_advance; assumption.
Qed.

Lemma keeps_run {X} (proj : State -> X) `{!Stable proj} cs : keeps proj (run E cs).
Proof.
  induction cs as [|c cs IH]; cbn [run]; [apply keeps_ret|].
  apply keeps_bind; [apply keeps_do_call; assumption|intros; exact IH].
Qed.

Lemma reach_Inv u cs s : reach E u cs = Some s -> Inv s.
Proof.
  unfold reach.
  destruct (construct E _ _ _ _ _) as [[] s0|e s0] eqn:Hc; [|discriminate].
  destruct (run E cs s0) as [[] s1|e s1] eqn:Hr; [|discriminate].
  intros [= <-]. eapply run_Inv; [|exact Hr]. eapply construct_Inv; eauto.
Qed.

Lemma reach_batches u cs s : reach E u cs = Some s -> batches s = su_batches u.
Proof.
  unfold reach.
  destruct (construct E _ _ _ _ _) as [[] s0|e s0] eqn:Hc; [|discriminate].
  destruct (run E cs s0) as [[] s1|e s1] eqn:Hr; [|discriminate].
  intros [= <-]. pose proof (keeps_run batches cs s0) as Hk. rewrite Hr in Hk. cbn in Hk.
  rewrite Hk. pose proof (construct_spec (su_ptr u) (su_batches u) (su_missing u)
    (su_nthreads u) (su_cache_prefix u)) as Hs. rewrite Hc in Hs. apply Hs.
Qed.

Lemma wrap64_add_l a b : wrap64 (wrap64 a + b) = wrap64 (a + b).
Proof. unfold wrap64. apply Zplus_mod_idemp_l. Qed.

Lemma fold_samples bs : forall a,
  wrap64 (n_samples (foldl step_shape a bs)) = wrap64 (n_samples a + sum_of NumRows bs).
Proof.
  induction bs as [|b bs IH]; intros a; cbn [foldl sum_of foldr].
  - rewrite Z.add_0_r. reflexivity.
  - rewrite IH. cbn [step_shape n_samples]. rewrite wrap64_add_l. f_equal.
    fold (sum_of NumRows bs). lia.
Qed.

Lemma fold_nnz bs : forall a,
  wrap64 (nnz (foldl step_shape a bs)) = wrap64 (nnz a + sum_of page_data_Size bs).
Proof.
  induction bs as [|b bs IH]; intros a; cbn [foldl sum_of foldr].
  - rewrite Z.add_0_r. reflexivity.
  - rewrite IH. cbn [step_shape nnz]. rewrite wrap64_add_l. f_equal.
    fold (sum_of page_data_Size bs). lia.
Qed.

Lemma wrap64_idem z : wrap64 (wrap64 z) = wrap64 z.
Proof. unfold wrap64, size_t_mod. apply Zmod_mod. Qed.

Lemma fold_wrapped bs : forall a,
  wrap64 (n_samples a) = n_samples a -> wrap64 (nnz a) = nnz a ->
  wrap64 (n_samples (foldl step_shape a bs)) = n_samples (foldl step_shape a bs) /\
  wrap64 (nnz (foldl step_shape a bs)) = nnz (foldl step_shape a bs).
Proof.
  induction bs as [|b bs IH]; intros a H1 H2; cbn [foldl]; [auto|].
  apply IH; cbn [step_shape n_samples nnz]; apply wrap64_idem.
Qed.

Lemma fold_features bs : forall a,
  n_features (foldl step_shape a bs) = foldl Z.max (n_features a) (NumCols <$> bs).
Proof.
  induction bs as [|b bs IH]; intros a; cbn [foldl fmap list_fmap]; [reflexivity|].
  rewrite IH. reflexivity.
Qed.

Lemma shape_of_spec bs :
  n_samples (shape_of bs) = wrap64 (sum_of NumRows bs) /\
  nnz (shape_of bs) = wrap64 (sum_of page_data_Size bs) /\
  n_features (shape_of bs) = running_max bs.
Proof.
  unfold shape_of.
  destruct (fold_wrapped bs (mkShape 0 0 0 0) eq_refl eq_refl) as [H1 H2].
  rewrite <- H1, <- H2, fold_samples, fold_nnz, fold_features. auto.
Qed.

Lemma wrap64_small z : 0 <= z < size_t_mod -> wrap64 z = z.
Proof. intros H. unfold wrap64. apply Z.mod_small. exact H. Qed.

Lemma derived_zero_fatal f s :
  num_col_ (info_ (this s)) = 0 -> fails_before_sources (GetDerivedBatches f) s.
Proof.
  intros H. unfold fails_before_sources, GetDerivedBatches. rewrite bind_get.
  destruct (MakeCache_cases (suffix_of f) (cache_prefix_ (this s)) s) as [(l & Hl & Hm)|[Hl Hm]];
    rewrite (bind_Ok _ _ _ _ _ Hm), bind_get; msimpl;
    rewrite H; cbn [Z.eqb negb CHECK]; rewrite bind_fatal;
    (eexists; split; [reflexivity|]); msimpl; (split; [reflexivity|]); (split; [intros []; reflexivity|]).
  - exists []. rewrite app_nil_r. split; constructor.
  - eexists. split; [reflexivity|]. repeat constructor.
Qed.

Lemma Inv_nonempty_written s : Inv s -> batches s <> [] -> cache_written s RowFmt = true.
Proof.
  intros HI Hb. assert (Hn : vne (view s) = true).
  { cbn. destruct (batches s); [contradiction|reflexivity]. }
  destruct (inv_row_written _ HI Hn) as (l & Hl & Hw).
  apply wr_lookup in Hw as (c & Hc & Hw). cbn [view vreg vname] in Hl.
  unfold cache_written, id_of. rewrite Hl, Hc. exact Hw.
Qed.

Lemma cache_written_row s f : Inv s -> cache_written s f = true -> cache_written s RowFmt = true.
Proof.
  intros HI Hw. unfold cache_written in Hw.
  destruct (cache_info_ (this s) !! id_of f s) as [l|]; [|discriminate].
  destruct (caches s !! l) as [c|] eqn:Hc; [|discriminate].
  eapply Inv_written_row; eauto.
Qed.

Lemma GetGradientIndex_Quiet param s :
  Inv s -> Quiet s (final_state (GetGradientIndex E param s)).
Proof.
  intros HI.
  destruct (Z_lt_le_dec (max_bin param) 2) as [Hlt|Hge].
  { rewrite max_bin_check_fails by exact Hlt. apply Quiet_refl. }
  destruct (in_memory param) eqn:Him.
  - destruct (rebuild_in_memory E s param) eqn:Hrb.
    + destruct (GetGradientIndex_rebuild param s HI Hge Him Hrb) as (s' & -> & _ & HQ & _).
      exact HQ.
    + destruct (GetGradientIndex_keep param s Hge Him Hrb) as [-> _]. apply Quiet_refl.
  - destruct (on_disk_gate s param) eqn:Hg.
    + pose proof (GetGradientIndex_disk_rebuild param s HI Hge Him Hg) as H.
      cbv zeta in H. destruct H as (l' & evs & _ & HQ & _). exact HQ.
    + destruct (GetGradientIndex_reset param s HI Hge Him Hg)
        as (p0 & p & ps & s' & -> & _ & _ & _ & _ & Ht & Hc & _ & _ & Htr).
      cbn [final_state]. eapply Quiet_intro; [rewrite Ht; reflexivity| |exact Htr|].
      * unfold cache_written, id_of, name_of. rewrite Ht, Hc. auto.
      * repeat constructor.
Qed.

Lemma run_advances advs : forall s s',
  Inv s -> run E (CallAdvance <$> advs) s = Ok tt s' -> Inv s' /\ this s' = this s /\
  (cache_written s RowFmt = true -> cache_written s' RowFmt = true).
Proof.
  induction advs as [|l advs IH]; intros s s' HI; cbn [fmap list_fmap run].
  - intros [= <-]. auto.
  - cbn [do_call]. destruct (sources s !! l) as [p|] eqn:Hp.
    + destruct (advance_Inv l p s HI Hp) as (s1 & H & HI1 & HF & Ht & _).
      rewrite (bind_Ok _ _ _ _ _ H). intros Hr.
      destruct (IH s1 s' HI1 Hr) as (A & B & C). split; [exact A|]. split; [congruence|].
      intros Hw. apply C. eapply Frame_written; eauto.
    + unfold PageSource_advance, bind, read_source. rewrite Hp. discriminate.
Qed.

(** * The claims *)

(** C1. Construction over a sequence of raw batches that this build can
    query, and whose reduced column count is nonzero, succeeds; the final
    metadata holds the sum of the per-batch row counts and the sum of the
    per-batch page sizes, both in [size_t] arithmetic (hence the exact sums
    whenever they fit in 64 bits), and the distributed-max reduction of the
    running maximum of the per-batch column counts. *)
Theorem C1_construction_shape ptr bs missing nthreads cache_prefix :
  forallb dispatchable bs = true ->
  Allreduce_Max E (running_max bs) <> 0 ->
  exists s, construct E ptr bs missing nthreads cache_prefix = Ok tt s /\
    num_row_ (info_ (this s)) = wrap64 (sum_of NumRows bs) /\
    num_nonzero_ (info_ (this s)) = wrap64 (sum_of page_data_Size bs) /\
    num_col_ (info_ (this s)) = Allreduce_Max E (running_max bs) /\
    (0 <= sum_of NumRows bs < size_t_mod ->
     num_row_ (info_ (this s)) = sum_of NumRows bs) /\
    (0 <= sum_of page_data_Size bs < size_t_mod ->
     num_nonzero_ (info_ (this s)) = sum_of page_data_Size bs).
Proof.
  intros Hd Hnz. pose proof (construct_spec ptr bs missing nthreads cache_prefix) as Hs.
  destruct (shape_of_spec bs) as (Hrows & Hnnz & Hcols). cbv zeta in Hs.
  destruct (construct E ptr bs missing nthreads cache_prefix) as [[] s|e s].
  - destruct Hs as (_ & _ & (ft & lb & Ht) & _). exists s. split; [reflexivity|].
    rewrite Ht. cbn [info_ num_row_ num_col_ num_nonzero_]. rewrite Hrows, Hnnz, Hcols.
    repeat split; auto using wrap64_small.
  - exfalso. destruct Hs as [[_ Hs]|(_ & _ & Hs)]; [congruence|].
    rewrite Hcols in Hs. contradiction.
Qed.

(** C2. In the in-memory regime (no row weights, no forced regen, max_bin at
    least 2) a call from a reachable state rebuilds the single-page index
    exactly when no page exists, or the parameters differ from the last-used
    ones and from the default ones, or regen is requested; otherwise the
    existing page is served and the state is unchanged.  A first call with
    max_bin 256 followed by one with max_bin 64 rebuilds on the second call,
    the comparison telling the two records apart and 64 from the default. *)
Theorem C2_in_memory_gate u cs s param :
  reach E u cs = Some s ->
  2 <= max_bin param -> hess param = [] -> regen param = false ->
  let cond := ghist_index_page_ (this s) = None \/
              (BatchParam_ne E param (batch_param_ (this s)) = true /\
               BatchParam_ne E param (BatchParam_default E) = true) \/
              regen param = true in
  (cond ->
   exists s', GetGradientIndex E param s = Ok (SinglePage (Some (length (ghists s)))) s' /\
     ghists s' = ghists s ++
       [mkGHistIndexMatrix (max_bin param) false (page_of <$> su_batches u)] /\
     ghist_index_page_ (this s') = Some (length (ghists s)) /\
     batch_param_ (this s') = param) /\
  (~ cond ->
   exists g, ghist_index_page_ (this s) = Some g /\
     GetGradientIndex E param s = Ok (SinglePage (Some g)) s) /\
  (forall p256 p64,
     max_bin p256 = 256 -> hess p256 = [] -> regen p256 = false ->
     max_bin p64 = 64 -> hess p64 = [] -> regen p64 = false ->
     ghist_index_page_ (this s) = None ->
     BatchParam_ne E p64 p256 = true -> BatchParam_ne E p64 (BatchParam_default E) = true ->
     exists s1 s2,
       GetGradientIndex E p256 s = Ok (SinglePage (Some (length (ghists s)))) s1 /\
       GetGradientIndex E p64 s1 = Ok (SinglePage (Some (S (length (ghists s))))) s2 /\
       ghists s2 = ghists s ++
         [mkGHistIndexMatrix 256 false (page_of <$> su_batches u);
          mkGHistIndexMatrix 64 false (page_of <$> su_batches u)]).
Proof.
  intros Hr Hmb Hh Hrg cond. pose proof (reach_Inv _ _ _ Hr) as HI.
  pose proof (reach_batches _ _ _ Hr) as Hb.
  assert (Him : forall p, hess p = [] -> regen p = false -> in_memory p = true).
  { intros p H1 H2. unfold in_memory, hess_empty. rewrite H1, H2. reflexivity. }
  assert (Hgate : rebuild_in_memory E s param = true <-> cond).
  { unfold rebuild_in_memory, cond. rewrite orb_true_iff, andb_true_iff, negb_true_iff.
    rewrite bool_decide_eq_false, Hrg. split.
    - intros [H|H]; [left|right; left; exact H].
      destruct (ghist_index_page_ (this s)); [exfalso; apply H; eauto|reflexivity].
    - intros [H|[H|H]]; [left|right; exact H|discriminate].
      rewrite H. intros [x Hx]. discriminate. }
  split; [|split].
  - intros Hc. apply Hgate in Hc.
    destruct (GetGradientIndex_rebuild param s HI Hmb (Him _ Hh Hrg) Hc)
      as (s' & H1 & _ & _ & H2 & H3 & H4).
    exists s'. rewrite Hrg, Hb in H2. auto.
  - intros Hc. destruct (rebuild_in_memory E s param) eqn:Hrb.
    { exfalso. apply Hc, Hgate. reflexivity. }
    destruct (GetGradientIndex_keep param s Hmb (Him _ Hh Hrg) Hrb) as [H1 [g Hg]].
    exists g. rewrite Hg in H1. auto.
  - intros p256 p64 M1 H1 R1 M2 H2 R2 Hnone N1 N2.
    assert (G1 : rebuild_in_memory E s p256 = true).
    { unfold rebuild_in_memory. rewrite Hnone. reflexivity. }
    destruct (GetGradientIndex_rebuild p256 s HI) as (s1 & E1 & HI1 & _ & A1 & B1 & C1);
      [lia|auto|exact G1|].
    assert (G2 : rebuild_in_memory E s1 p64 = true).
    { unfold rebuild_in_memory. rewrite C1, N1, N2. apply orb_true_r. }
    destruct (GetGradientIndex_rebuild p64 s1 HI1) as (s2 & E2 & _ & _ & A2 & _);
      [lia|auto|exact G2|].
    exists s1, s2. split; [exact E1|]. rewrite A1, length_app, Nat.add_1_r in E2.
    split; [exact E2|]. rewrite A2, A1, <- app_assoc.
    pose proof (keeps_GetGradientIndex batches p256 s) as Hk. rewrite E1 in Hk. cbn in Hk.
    rewrite Hk, Hb, M1, R1, M2, R2. reflexivity.
Qed.

(** C3. In the on-disk regime (row weights or forced regen, max_bin at
    least 2) a call from a reachable state whose histogram-index cache entry
    is missing or not fully written, or whose parameters differ from the
    last-used ones, or that forces regen, erases the registry entry and
    creates a fresh descriptor, computes the cuts over the whole data set
    with the sorted flag equal to regen, and, the cuts being non-empty,
    replaces the source by a new one bound to the new descriptor, the cuts,
    the feature types, the density flag and the shared row-page source;
    otherwise it resets the existing source.  The comparison of [BatchParam]
    is a parameter: a weighted record is taken to differ from the default. *)
Theorem C3_on_disk_gate u cs s param :
  reach E u cs = Some s ->
  2 <= max_bin param -> in_memory param = false ->
  (hess param <> [] -> BatchParam_ne E param (BatchParam_default E) = true) ->
  let gid := id_of GradientIndexFmt s in
  let cuts := SketchOnDMatrix_cuts E (info_ (this s)) (page_of <$> su_batches u)
                (max_bin param) (regen param) (hess param) in
  let r := GetGradientIndex E param s in
  let s' := final_state r in
  let cond := cache_written s GradientIndexFmt = false \/
              BatchParam_ne E (batch_param_ (this s)) param = true \/
              regen param = true in
  (cond ->
   exists l' evs, trace s' = trace s ++ evs /\
     CacheErased gid ∈ evs /\ CacheMade gid l' ∈ evs /\
     SketchComputed (max_bin param) (regen param) ∈ evs /\
     (length (caches s) <= l')%nat /\ cache_info_ (this s') !! gid = Some l' /\
     batch_param_ (this s') = param /\
     match Values cuts with
     | [] => r = Fatal (CheckFailed "cuts.Values().size() != 0") s' /\
             ghist_index_source_ (this s') = None
     | _ => exists p, r = Ok (OverSource (Some p)) s' /\
         (length (sources s) <= p)%nat /\ ghist_index_source_ (this s') = Some p /\
         is_Some (sparse_page_source_ (this s')) /\
         SourceCreated GradientIndexFmt p ∈ evs /\
         sources s' !! p = Some
           (mkPageSource GradientIndexFmt l' (sparse_page_source_ (this s'))
              (num_col_ (info_ (this s))) (n_batches_ (this s))
              (Some (mkGHistBinding param cuts (IsDense E (info_ (this s))) (max_bin param)
                       (feature_types (info_ (this s)))))
              0)
     end) /\
  (~ cond ->
   exists p0 p ps, r = Ok (OverSource (Some p)) s' /\
     sparse_page_source_ (this s) = Some p0 /\ ghist_index_source_ (this s) = Some p /\
     sources s !! p = Some ps /\ this s' = this s /\ caches s' = caches s /\
     length (sources s') = length (sources s) /\ sources s' !! p = Some (set_count ps 0) /\
     trace s' = trace s ++ [SourceReset RowFmt p0; SourceReset GradientIndexFmt p]).
Proof.
  intros Hr Hmb Him Hne gid cuts r s' cond. pose proof (reach_Inv _ _ _ Hr) as HI.
  pose proof (reach_batches _ _ _ Hr) as Hb.
  assert (Hgate : on_disk_gate s param = true <-> cond).
  { unfold on_disk_gate, cond. rewrite !orb_true_iff, andb_true_iff, negb_true_iff.
    split.
    - intros [[H|[H _]]|H]; auto.
    - intros [H|[H|H]]; auto.
      destruct (regen param) eqn:Hrg; [auto|]. left. right. split; [exact H|].
      apply Hne. intros Hh. unfold in_memory, hess_empty in Him. rewrite Hh, Hrg in Him.
      discriminate. }
  split.
  - intros Hc. apply Hgate in Hc.
    pose proof (GetGradientIndex_disk_rebuild param s HI Hmb Him Hc) as H. cbv zeta in H.
    fold r in H. fold s' in H. rewrite Hb in H. fold cuts in H. fold gid in H.
    destruct H as (l' & evs & H1 & _ & H2 & H3 & H4 & H5 & H6 & _ & H7 & H8).
    exists l', evs. repeat (split; [assumption|]).
    destruct (Values cuts); [exact H8|].
    destruct H8 as (p & A & _ & B). exists p. split; [exact A|exact B].
  - intros Hc. destruct (on_disk_gate s param) eqn:Hg.
    { exfalso. apply Hc, Hgate. reflexivity. }
    destruct (GetGradientIndex_reset param s HI Hmb Him Hg)
      as (p0 & p & ps & s1 & H1 & _ & H2).
    exists p0, p, ps. subst s' r. rewrite H1. cbn [final_state]. split; [reflexivity|exact H2].
Qed.

(** C4. Construction fails fatally when the reduced column count is zero
    (on the zero check itself whenever every batch could be queried); with a
    recorded column count of zero, "get column batches" and "get sorted
    column batches" fail on their check with every source and every source
    member as before, having created or reset none. *)
Theorem C4_zero_columns_fatal ptr bs missing nthreads cache_prefix s :
  (Allreduce_Max E (running_max bs) = 0 ->
   exists e s', construct E ptr bs missing nthreads cache_prefix = Fatal e s' /\
     (forallb dispatchable bs = true -> e = CheckFailed "info_.num_col_ != 0")) /\
  (num_col_ (info_ (this s)) = 0 ->
   fails_before_sources GetColumnBatches s /\ fails_before_sources GetSortedColumnBatches s).
Proof.
  split.
  - intros Hz. pose proof (construct_spec ptr bs missing nthreads cache_prefix) as Hs.
    destruct (shape_of_spec bs) as (_ & _ & Hcols). cbv zeta in Hs. rewrite Hcols in Hs.
    destruct (construct E ptr bs missing nthreads cache_prefix) as [[] s0|e s0].
    + exfalso. destruct Hs as (_ & Hnz & _). contradiction.
    + exists e, s0. split; [reflexivity|]. intros Hd.
      destruct Hs as [[_ Hs]|[Hs _]]; [congruence|exact Hs].
  - intros Hz. split.
    + rewrite GetColumnBatches_eq. apply derived_zero_fatal. exact Hz.
    + rewrite GetSortedColumnBatches_eq. apply derived_zero_fatal. exact Hz.
Qed.

(** C5 (amended). From a reachable state in which the cache entry of a
    format is fully written, a request for that format keeps the primary
    row source object and logs no call of the external iterator and no
    creation of a primary source.  For the row, column and sorted-column
    formats, and for the histogram-index format on its on-disk path when
    regen is not forced and the parameters equal the last-used or the
    default ones, the request resets the existing sources and does nothing
    else. *)
Theorem C5_written_cache_replays u cs s f param :
  reach E u cs = Some s -> cache_written s f = true ->
  let r := request f param s in
  let s' := final_state r in
  (is_Some (sparse_page_source_ (this s)) /\
   sparse_page_source_ (this s') = sparse_page_source_ (this s) /\
   exists evs, trace s' = trace s ++ evs /\ Forall quiet evs) /\
  (f <> GradientIndexFmt \/
   (2 <= max_bin param /\ in_memory param = false /\ on_disk_gate s param = false) ->
   exists p q, sparse_page_source_ (this s) = Some p /\ member f (this s) = Some q /\
     r = Ok (OverSource (Some q)) s' /\ this s' = this s /\ caches s' = caches s /\
     length (sources s') = length (sources s) /\
     trace s' = trace s ++ reset_trace f p q).
Proof.
  intros Hr Hw r s'. pose proof (reach_Inv _ _ _ Hr) as HI.
  pose proof (cache_written_row s f HI Hw) as Hrow.
  assert (Hexact : f <> GradientIndexFmt \/
   (2 <= max_bin param /\ in_memory param = false /\ on_disk_gate s param = false) ->
   exists p q, sparse_page_source_ (this s) = Some p /\ member f (this s) = Some q /\
     r = Ok (OverSource (Some q)) s' /\ this s' = this s /\ caches s' = caches s /\
     length (sources s') = length (sources s) /\
     trace s' = trace s ++ reset_trace f p q).
  { intros Hcase. subst s' r. destruct f; cbn [request reset_trace].
    - destruct (GetRowBatches_spec s HI) as (p & s1 & H & _ & _ & _ & _ & Hx).
      destruct (Hx Hrow) as (A & B & C & D & F). exists p, p. rewrite H. cbn. auto 10.
    - rewrite GetColumnBatches_eq.
      destruct (GetDerived_spec ColFmt s) as (q & s1 & H & _ & Hx); [discriminate|exact HI|].
      destruct (Hx Hw) as (p & A & B & C & D & F & G). exists p, q. rewrite H. cbn. auto 10.
    - rewrite GetSortedColumnBatches_eq.
      destruct (GetDerived_spec SortedColFmt s) as (q & s1 & H & _ & Hx);
        [discriminate|exact HI|].
      destruct (Hx Hw) as (p & A & B & C & D & F & G). exists p, q. rewrite H. cbn. auto 10.
    - destruct Hcase as [Hcase|(Hmb & Him & Hg)]; [contradiction|].
      destruct (GetGradientIndex_reset param s HI Hmb Him Hg)
        as (p0 & p & ps & s1 & H & _ & A & B & _ & C & D & F & _ & G).
      exists p0, p. rewrite H. cbn. auto 10. }
  split; [|exact Hexact].
  assert (HQ : Quiet s s').
  { subst s' r. destruct f; cbn [request].
    - destruct (GetRowBatches_spec s HI) as (p & s1 & -> & _ & HF & _). apply Frame_Quiet, HF.
    - destruct Hexact as (p & q & _ & _ & _ & Ht & Hc & _ & Htr); [left; discriminate|].
      cbn [request] in Ht, Hc, Htr.
      eapply Quiet_intro; [rewrite Ht; reflexivity| |exact Htr|repeat constructor].
      unfold cache_written, id_of, name_of. rewrite Ht, Hc. auto.
    - destruct Hexact as (p & q & _ & _ & _ & Ht & Hc & _ & Htr); [left; discriminate|].
      cbn [request] in Ht, Hc, Htr.
      eapply Quiet_intro; [rewrite Ht; reflexivity| |exact Htr|repeat constructor].
      unfold cache_written, id_of, name_of. rewrite Ht, Hc. auto.
    - apply GetGradientIndex_Quiet. exact HI. }
  destruct (HQ Hrow) as (A & _ & B). split; [|split; [exact A|exact B]].
  unfold cache_written in Hrow.
  destruct (cache_info_ (this s) !! id_of RowFmt s) as [l|] eqn:Hl; [|discriminate].
  destruct (caches s !! l) as [c|] eqn:Hc; [|discriminate].
  exact (Inv_written_member s RowFmt l c HI Hl Hc Hrow).
Qed.

(** C6. From a reachable state, "get row batches" returns a batch set
    whose traversal yields every row page from the first one; after any
    advancing of the iterators handed out so far, a second call again
    returns a batch set whose traversal yields every row page from the first
    one, over the same source object when the data set is not empty. *)
Theorem C6_row_batches_restart u cs s advs :
  reach E u cs = Some s ->
  exists p1 s1, GetRowBatches s = Ok (OverSource (Some p1)) s1 /\
    pages_of s1 (OverSource (Some p1)) = page_of <$> su_batches u /\
    (exists t1, traverse (OverSource (Some p1)) s1 = Ok (page_of <$> su_batches u) t1) /\
    forall s1', run E (CallAdvance <$> advs) s1 = Ok tt s1' ->
      exists p2 s2, GetRowBatches s1' = Ok (OverSource (Some p2)) s2 /\
        pages_of s2 (OverSource (Some p2)) = page_of <$> su_batches u /\
        (exists t2, traverse (OverSource (Some p2)) s2 = Ok (page_of <$> su_batches u) t2) /\
        (su_batches u <> [] -> p2 = p1).
Proof.
  intros Hr. pose proof (reach_Inv _ _ _ Hr) as HI.
  pose proof (reach_batches _ _ _ Hr) as Hb.
  destruct (GetRowBatches_spec s HI) as (p1 & s1 & H1 & HI1 & HF1 & Hs1 & Hp1 & Hx1).
  exists p1, s1. split; [exact H1|]. rewrite Hb in Hp1. split; [exact Hp1|]. split.
  { destruct (traverse_spec p1 s1 HI1 Hs1) as (t1 & Ht & _). rewrite Hp1 in Ht. eauto. }
  intros s1' Hrun. destruct (run_advances advs s1 s1' HI1 Hrun) as (HI1' & Ht1' & Hw1').
  destruct (GetRowBatches_spec s1' HI1') as (p2 & s2 & H2 & HI2 & _ & Hs2 & Hp2 & Hx2).
  exists p2, s2. split; [exact H2|].
  pose proof (keeps_run batches (CallAdvance <$> advs) s1) as Hk. rewrite Hrun in Hk.
  cbn in Hk. rewrite Hk, (fr_batches _ _ HF1), Hb in Hp2. split; [exact Hp2|]. split.
  { destruct (traverse_spec p2 s2 HI2 Hs2) as (t2 & Ht & _). rewrite Hp2 in Ht. eauto. }
  intros Hne. assert (Hw : cache_written s RowFmt = true).
  { apply Inv_nonempty_written; [exact HI|]. rewrite Hb. exact Hne. }
  destruct (Hx1 Hw) as (A1 & B1 & _).
  assert (Hw1 : cache_written s1 RowFmt = true) by (eapply Frame_written; eauto).
  destruct (Hx2 (Hw1' Hw1)) as (A2 & _). congruence.
Qed.

(** C7. With max_bin below 2, "get histogram-index batches" fails on its
    first check and leaves the state, the event log included, as it was. *)
Theorem C7_small_max_bin_fails_first (param : BatchParam) (s : State) :
  max_bin param < 2 ->
  GetGradientIndex E param s = Fatal (CheckFailed "param.max_bin >= 2") s.
Proof. apply max_bin_check_fails. Qed.

(** C8. For a raw batch the host dispatch cannot query, the row and column
    count queries are the device-side ones; in a build without CUDA these
    fail with the capability-missing error, and so does every construction
    whose batch sequence contains such a batch: no count is returned. *)
Theorem C8_device_fallback proxy s :
  adapter proxy = DeviceAdapter ->
  (num_rows E proxy s = NSamplesDevice E proxy s /\
   num_cols E proxy s = NFeaturesDevice E proxy s) /\
  (XGBOOST_USE_CUDA E = false ->
   NSamplesDevice E proxy s = Fatal NoGPUSupport s /\
   NFeaturesDevice E proxy s = Fatal NoGPUSupport s /\
   forall ptr pre post missing nthreads cache_prefix,
     exists s', construct E ptr (pre ++ proxy :: post) missing nthreads cache_prefix
                = Fatal NoGPUSupport s').
Proof.
  intros Ha. split.
  - unfold num_rows, num_cols, HostAdapterDispatch. rewrite Ha. split; reflexivity.
  - intros Hc. unfold NSamplesDevice, NFeaturesDevice, AssertGPUSupport. rewrite Hc.
    split; [reflexivity|]. split; [reflexivity|].
    intros ptr pre post missing nthreads cache_prefix.
    pose proof (construct_spec ptr (pre ++ proxy :: post) missing nthreads cache_prefix) as Hs.
    cbv zeta in Hs.
    assert (Hd : forallb dispatchable (pre ++ proxy :: post) = false).
    { rewrite forallb_app. cbn [forallb]. unfold dispatchable at 2. rewrite Ha, Hc.
      cbn [andb]. apply andb_false_r. }
    destruct (construct E ptr (pre ++ proxy :: post) missing nthreads cache_prefix)
      as [[] s0|e s0].
    + destruct Hs as (Hs & _). congruence.
    + destruct Hs as [[-> _]|(_ & Hs & _)]; [eauto|congruence].
Qed.

(** C9. From a reachable state, each of the four batch retrieval operations
    leaves the dataset metadata as it was, whatever the outcome; the row,
    column and sorted-column operations return a batch set, and so does the
    histogram-index operation unless its max_bin check or its check of the
    computed cuts fires. *)
Theorem C9_retrieval_keeps_metadata u cs s param :
  reach E u cs = Some s ->
  (info_ (this (final_state (GetRowBatches s))) = info_ (this s) /\
   is_Ok (GetRowBatches s) = true) /\
  (info_ (this (final_state (GetColumnBatches s))) = info_ (this s) /\
   is_Ok (GetColumnBatches s) = true) /\
  (info_ (this (final_state (GetSortedColumnBatches s))) = info_ (this s) /\
   is_Ok (GetSortedColumnBatches s) = true) /\
  (info_ (this (final_state (GetGradientIndex E param s))) = info_ (this s) /\
   (2 <= max_bin param -> in_memory param = true ->
    is_Ok (GetGradientIndex E param s) = true) /\
   (is_Ok (GetGradientIndex E param s) = true \/
    error_of (GetGradientIndex E param s) = Some (CheckFailed "param.max_bin >= 2") \/
    error_of (GetGradientIndex E param s) = Some (CheckFailed "cuts.Values().size() != 0"))).
Proof.
  intros Hr. pose proof (reach_Inv _ _ _ Hr) as HI.
  split; [|split; [|split]].
  - split; [apply (keeps_GetRowBatches (fun s => info_ (this s)))|].
    destruct (GetRowBatches_spec s HI) as (p & s1 & -> & _). reflexivity.
  - split; [apply (keeps_GetColumnBatches (fun s => info_ (this s)))|].
    rewrite GetColumnBatches_eq.
    destruct (GetDerived_spec ColFmt s) as (q & s1 & -> & _); [discriminate|exact HI|].
    reflexivity.
  - split; [apply (keeps_GetSortedColumnBatches (fun s => info_ (this s)))|].
    rewrite GetSortedColumnBatches_eq.
    destruct (GetDerived_spec SortedColFmt s) as (q & s1 & -> & _); [discriminate|exact HI|].
    reflexivity.
  - split; [apply (keeps_GetGradientIndex (fun s => info_ (this s)))|]. split.
    + intros Hmb Him. destruct (rebuild_in_memory E s param) eqn:Hrb.
      * destruct (GetGradientIndex_rebuild param s HI Hmb Him Hrb) as (s' & -> & _).
        reflexivity.
      * destruct (GetGradientIndex_keep param s Hmb Him Hrb) as [-> _]. reflexivity.
    + destruct (GetGradientIndex_cases param s HI) as [(b & -> & _)|[-> | ->]]; auto.
Qed.

(** C10. In a build without CUDA, "get ellpack batches" fails with the
    capability-missing error for every parameter record and every state,
    which it leaves as it was. *)
Theorem C10_ellpack_needs_cuda (param : BatchParam) (s : State) :
  XGBOOST_USE_CUDA E = false ->
  GetEllpackBatches E param s = Fatal NoGPUSupport s.
Proof. apply ellpack_without_cuda. Qed.


(** * Further properties *)

(** ** The constructor *)

Lemma bind_inv {A B} (c : M A) (k : A -> M B) s b s' :
  bind c k s = Ok b s' -> exists a s1, c s = Ok a s1 /\ k a s1 = Ok b s'.
Proof.
  unfold bind. destruct (c s) as [a s1|e s1]; [eauto|discriminate].
Qed.

Lemma append_nonempty (a b : string) : a <> "" -> a +:+ b <> "".
Proof. destruct a; [contradiction|discriminate]. Qed.

Lemma prefix_of_nonempty cache_prefix : prefix_of cache_prefix <> "".
Proof.
  unfold prefix_of.
  assert (H : (if decide (cache_prefix = "") then "DMatrix" else cache_prefix) <> "").
  { destruct (decide (cache_prefix = "")); [discriminate|assumption]. }
  destruct (IsDistributed E); [apply append_nonempty|]; exact H.
Qed.

Lemma construct_this ptr bs missing nthreads cache_prefix s :
  construct E ptr bs missing nthreads cache_prefix = Ok tt s ->
  exists ft lb,
    this s = mkDMatrix ptr
      (mkMetaInfo (n_samples (shape_of bs)) (Allreduce_Max E (n_features (shape_of bs)))
         (nnz (shape_of bs)) ft lb)
      missing nthreads (prefix_of cache_prefix) (n_batches (shape_of bs))
      {[ MakeId (prefix_of cache_prefix) ptr +:+ ".row.page" := 0%nat ]}
      (Some 0%nat) None None None None None (BatchParam_default E).
Proof.
  intros H. pose proof (construct_spec ptr bs missing nthreads cache_prefix) as Hs.
  rewrite H in Hs. cbv zeta in Hs. apply Hs.
Qed.

(** X1. A successful construction records the object identity, the missing
    value and the thread count it was given, and resolves the cache prefix:
    an empty prefix becomes "DMatrix", and in a distributed run the marker
    "-r" followed by the worker's rank is appended.  The resolved prefix is
    never empty. *)
Theorem X1_ctor_resolves_prefix ptr bs missing nthreads cache_prefix s :
  construct E ptr bs missing nthreads cache_prefix = Ok tt s ->
  let base := if decide (cache_prefix = "") then "DMatrix" else cache_prefix in
  cache_prefix_ (this s)
    = (if IsDistributed E then base +:+ "-r" +:+ pretty (GetRank E) else base) /\
  cache_prefix_ (this s) <> "" /\
  this_ptr (this s) = ptr /\ missing_ (this s) = missing /\ ctx_nthread (this s) = nthreads.
Proof.
  intros H base. destruct (construct_this _ _ _ _ _ _ H) as (ft & lb & ->).
  cbn [cache_prefix_ this_ptr missing_ ctx_nthread].
  split; [reflexivity|]. split; [apply prefix_of_nonempty|]. auto.
Qed.

Lemma wrap32_add_l a b : wrap32 (wrap32 a + b) = wrap32 (a + b).
Proof. unfold wrap32. apply Zplus_mod_idemp_l. Qed.

Lemma fold_batches bs : forall a,
  wrap32 (n_batches a) = n_batches a ->
  n_batches (foldl step_shape a bs) = wrap32 (n_batches a + Z.of_nat (length bs)).
Proof.
  induction bs as [|b bs IH]; intros a Ha; cbn [foldl length].
  - rewrite Z.add_0_r. symmetry. exact Ha.
  - rewrite IH.
    + cbn [step_shape n_batches]. rewrite wrap32_add_l. f_equal. lia.
    + cbn [step_shape n_batches]. unfold wrap32. apply Zmod_mod.
Qed.

(** X2. A successful construction records the number of raw batches the
    iterator delivered, counted in [uint32_t] arithmetic: the exact number
    whenever it is below 2^32. *)
Theorem X2_ctor_counts_batches ptr bs missing nthreads cache_prefix s :
  construct E ptr bs missing nthreads cache_prefix = Ok tt s ->
  n_batches_ (this s) = wrap32 (Z.of_nat (length bs)) /\
  (Z.of_nat (length bs) < 2 ^ 32 -> n_batches_ (this s) = Z.of_nat (length bs)).
Proof.
  intros H. destruct (construct_this _ _ _ _ _ _ H) as (ft & lb & ->).
  cbn [n_batches_]. unfold shape_of. rewrite fold_batches by reflexivity.
  cbn [n_batches]. rewrite Z.add_0_l. split; [reflexivity|].
  intros Hlt. unfold wrap32. apply Z.mod_small. lia.
Qed.

Lemma loop_merges bs : forall l a s a' s',
  range_for_from l bs (loop_body E) a s = Ok a' s' ->
  info_ (this s') = foldl (fun i b => Extend E i (proxy_Info b) false false) (info_ (this s)) bs.
Proof.
  induction bs as [|b bs IH]; intros l a s a' s'; cbn [range_for_from foldl].
  - intros [= _ <-]. reflexivity.
  - intros H. apply bind_inv in H as (a1 & s1 & H1 & H).
    apply bind_inv in H as ([] & s2 & H2 & H).
    rewrite loop_body_spec in H1. destruct (dispatchable b); [|discriminate].
    injection H1 as <- <-.
    pose proof (keeps_PageSource_advance (fun s => info_ (this s)) l
                  (with_this (extend_info b) s)) as Hk.
    rewrite H2 in Hk. cbn [final_state] in Hk.
    rewrite (IH _ _ _ _ _ H), Hk. reflexivity.
Qed.

Lemma ctor_first_request ptr bs missing nthreads cache_prefix :
  let name := MakeId (prefix_of cache_prefix) ptr in
  GetRowBatchesImpl
    (mkState (mkDMatrix ptr MetaInfo_empty missing nthreads (prefix_of cache_prefix) 0 ∅
                None None None None None None (BatchParam_default E)) [] [] [] bs [])
  = Ok (OverSource (Some 0%nat))
      (mkState (mkDMatrix ptr MetaInfo_empty missing nthreads (prefix_of cache_prefix) 0
                  {[ name +:+ ".row.page" := 0%nat ]}
                  (Some 0%nat) None None None None None (BatchParam_default E))
         [mkCache false name ".row.page"]
         [mkPageSource RowFmt 0 None 0 0 None 0] [] bs
         [CacheMade (name +:+ ".row.page") 0; SourceCreated RowFmt 0; IterReset; IterNext]).
Proof.
  intros name. set (s1 := mkState _ _ _ _ _ _).
  unfold GetRowBatchesImpl, InitializeSparsePage.
  rewrite !bind_assoc, bind_get.
  destruct (MakeCache_cases ".row.page" (prefix_of cache_prefix) s1) as [(l & Hl & _)|[_ Hm]].
  { cbn in Hl. rewrite lookup_empty in Hl. discriminate. }
  change (cache_prefix_ (this s1)) with (prefix_of cache_prefix).
  rewrite bind_assoc, (bind_Ok _ _ _ _ _ Hm). clear Hm.
  change (MakeId (prefix_of cache_prefix) (this_ptr (this s1))) with name.
  subst s1. mexp. rewrite insert_empty.
  rewrite bind_assoc.
  match goal with |- context [bind _ _ ?s] =>
    rewrite (bind_Ok _ _ _ _ _ (cache_info_at_Ok (name +:+ ".row.page") 0%nat s
               (lookup_singleton_eq _ _))) end.
  rewrite bind_assoc.
  match goal with |- context [bind _ _ ?s] =>
    rewrite (bind_Ok _ _ _ _ _ (read_cache_Ok 0%nat (mkCache false name ".row.page") s eq_refl))
  end.
  cbn [written]. mnormx. mexp.
  match goal with |- context [bind _ _ ?s] =>
    rewrite (bind_Ok _ _ _ _ _ (cache_info_at_Ok (name +:+ ".row.page") 0%nat s
               (lookup_singleton_eq _ _))) end.
  unfold new_SparsePageSource. rewrite !bind_assoc.
  match goal with |- context [bind _ _ ?s] =>
    rewrite (bind_Ok _ _ _ _ _ (read_cache_Ok 0%nat (mkCache false name ".row.page") s eq_refl))
  end.
  mnormx. cbn [written]. mnormx. mexp. reflexivity.
Qed.

Lemma construct_merges ptr bs missing nthreads cache_prefix s :
  construct E ptr bs missing nthreads cache_prefix = Ok tt s ->
  feature_types (info_ (this s)) = feature_types (merged_info bs) /\
  labels (info_ (this s)) = labels (merged_info bs).
Proof.
  unfold construct, SparsePageDMatrix_ctor. rewrite !bind_update_this. intros H.
  apply bind_inv in H as ([] & s1 & H1 & H).
  assert (Hs1 : s1 = mkState (mkDMatrix ptr MetaInfo_empty missing nthreads
                    (prefix_of cache_prefix) 0 ∅ None None None None None None
                    (BatchParam_default E)) [] [] [] bs []).
  { unfold prefix_of. destruct (IsDistributed E); injection H1 as <-; reflexivity. }
  subst s1. clear H1. cbv beta in H.
  apply bind_inv in H as (it & s2 & H2 & H).
  rewrite ctor_first_request in H2. injection H2 as <- <-.
  apply bind_inv in H as (a & s3 & H3 & H).
  unfold range_for in H3. rewrite bind_get in H3. cbn in H3. rewrite drop_0 in H3.
  apply loop_merges in H3. cbn [this info_] in H3. fold (merged_info bs) in H3.
  mnorm. unfold CHECK in H. revert H. mnorm.
  destruct (negb _); [|discriminate]. intros [= <-]. cbn. rewrite H3. auto.
Qed.

(** X3. A successful construction merges the per-batch metadata in delivery
    order, by [Extend] with both flags false, starting from the empty
    record; the three shape fields of the merged record are then replaced
    by the constructor's own counters and the reduced column count. *)
Theorem X3_ctor_merges_metadata ptr bs missing nthreads cache_prefix s :
  construct E ptr bs missing nthreads cache_prefix = Ok tt s ->
  info_ (this s)
    = mkMetaInfo (wrap64 (sum_of NumRows bs)) (Allreduce_Max E (running_max bs))
        (wrap64 (sum_of page_data_Size bs))
        (feature_types (merged_info bs)) (labels (merged_info bs)).
Proof.
  intros H. destruct (construct_merges _ _ _ _ _ _ H) as [Hft Hlb].
  destruct (construct_this _ _ _ _ _ _ H) as (ft & lb & Ht).
  destruct (shape_of_spec bs) as (Hrows & Hnnz & Hcols).
  rewrite Ht in Hft, Hlb |- *. cbn [info_ feature_types labels] in *.
  rewrite Hrows, Hnnz, Hcols, Hft, Hlb. reflexivity.
Qed.

(** X4. A successful construction creates the row-page source and nothing
    else: the registry holds the single entry of the row format, one source
    exists, the column, sorted-column and histogram-index members and the
    in-memory histogram page are null, and the last-used parameters are the
    default ones.  The row source was created before the pass computed the
    column and batch counts, so it was given zero for both. *)
Theorem X4_ctor_creates_row_source_only ptr bs missing nthreads cache_prefix s :
  construct E ptr bs missing nthreads cache_prefix = Ok tt s ->
  (exists ps, sources s = [ps] /\ sparse_page_source_ (this s) = Some 0%nat /\
     src_format ps = RowFmt /\ src_upstream ps = None /\ src_cache ps = 0%nat /\
     src_n_features ps = 0 /\ src_n_batches ps = 0) /\
  cache_info_ (this s) = {[ id_of RowFmt s := 0%nat ]} /\ length (caches s) = 1%nat /\
  column_source_ (this s) = None /\ sorted_column_source_ (this s) = None /\
  ghist_index_source_ (this s) = None /\ ghist_index_page_ (this s) = None /\
  ghists s = [] /\ batch_param_ (this s) = BatchParam_default E.
Proof.
  intros H. pose proof (construct_spec ptr bs missing nthreads cache_prefix) as Hs.
  rewrite H in Hs. cbv zeta in Hs.
  destruct Hs as (_ & _ & (ft & lb & Ht) & Hc & Hsrc & Hg & _).
  unfold id_of, name_of. rewrite Ht, Hc, Hsrc, Hg. cbn. split; [eauto 10|]. auto 10.
Qed.

(** ** What a request leaves alone

    Frame rules for a relation between the states before and after a
    step: each operation moves the state along the relation, provided the
    members it writes are permitted. *)

Create HintDb movesdb.

Section Moves.

Context (R : State -> State -> Prop) (may : Field -> bool) `{!Step R may}.

Lemma moves_ret {A} (a : A) : moves R (ret a).
Proof. intros s. apply step_refl. Qed.

Lemma moves_fatal {A} e : moves R (@fatal A e).
Proof. intros s. apply step_refl. Qed.

Lemma moves_get : moves R get.
Proof. intros s. apply step_refl. Qed.

Lemma moves_bind {A B} (c : M A) (k : A -> M B) :
  moves R c -> (forall a, moves R (k a)) -> moves R (bind c k).
Proof.
  intros Hc Hk s. unfold bind. specialize (Hc s).
  destruct (c s) as [a s1|e s1]; cbn [final_state] in *; [|exact Hc].
  eapply step_trans; [exact Hc|apply Hk].
Qed.

Lemma moves_log e : moves R (log e).
Proof. intros s. apply step_trace. Qed.

Lemma moves_read_cache l : moves R (read_cache l).
Proof. intros s. unfold read_cache. destruct (caches s !! l); apply step_refl. Qed.

Lemma moves_read_source l : moves R (read_source l).
Proof. intros s. unfold read_source. destruct (sources s !! l); apply step_refl. Qed.

Lemma moves_cache_info_at id : moves R (cache_info_at id).
Proof. intros s. unfold cache_info_at. destruct (cache_info_ (this s) !! id); apply step_refl. Qed.

Lemma moves_alloc_cache c : moves R (alloc_cache c).
Proof. intros s. apply step_alloc_cache. Qed.

Lemma moves_alloc_source p : moves R (alloc_source p).
Proof. intros s. apply step_alloc_source. Qed.

Lemma moves_alloc_ghist g : may FGHists = true -> moves R (alloc_ghist g).
Proof. intros H s. apply step_alloc_ghist. exact H. Qed.

Lemma moves_CHECK b what : moves R (CHECK b what).
Proof. unfold CHECK. destruct b; [apply moves_ret|apply moves_fatal]. Qed.

Lemma moves_set_row p : may FRow = true -> moves R (update_this (set_sparse_page_source p)).
Proof. intros H s. apply step_row. exact H. Qed.

Lemma moves_set_column p : may FColumn = true -> moves R (update_this (set_column_source p)).
Proof. intros H s. apply step_column. exact H. Qed.

Lemma moves_set_sorted p :
  may FSortedColumn = true -> moves R (update_this (set_sorted_column_source p)).
Proof. intros H s. apply step_sorted. exact H. Qed.

Lemma moves_set_ghist_source p :
  may FGHistSource = true -> moves R (update_this (set_ghist_index_source p)).
Proof. intros H s. apply step_ghist_source. exact H. Qed.

Lemma moves_set_ghist_page p :
  may FGHistPage = true -> moves R (update_this (set_ghist_index_page p)).
Proof. intros H s. apply step_ghist_page. exact H. Qed.

Lemma moves_set_batch_param p :
  may FBatchParam = true -> moves R (update_this (set_batch_param p)).
Proof. intros H s. apply step_batch_param. exact H. Qed.

Lemma moves_set_registry g :
  may FRegistry = true ->
  moves R (update_this (fun d => set_cache_info (g (cache_info_ d)) d)).
Proof. intros H s. apply step_registry. exact H. Qed.

#[local] Hint Resolve moves_ret moves_fatal moves_get moves_log moves_read_cache
  moves_read_source moves_cache_info_at moves_alloc_cache moves_alloc_source moves_alloc_ghist
  moves_CHECK moves_set_row moves_set_column moves_set_sorted moves_set_ghist_source
  moves_set_ghist_page moves_set_batch_param : movesdb.

Ltac moves_step :=
  first
    [ solve [auto 3 with movesdb nocore]
    | apply moves_bind; [|intros]
    | apply moves_set_registry; assumption
    | match goal with
      | |- moves R (if ?x then _ else _) => destruct x
      | |- moves R (match ?x with Some _ => _ | None => _ end) => destruct x
      | |- moves R (match ?x with RowFmt => _ | _ => _ end) => destruct x
      end ].

Ltac moves_tac := repeat moves_step.

Lemma moves_MakeCache format prefix :
  may FRegistry = true -> moves R (MakeCache format prefix).
Proof. intros H. unfold MakeCache. moves_tac. Qed.

#[local] Hint Resolve moves_MakeCache : movesdb.

Lemma moves_cache_info_erase id : may FRegistry = true -> moves R (cache_info_erase id).
Proof. intros H. unfold cache_info_erase. moves_tac. Qed.

#[local] Hint Resolve moves_cache_info_erase : movesdb.

Lemma moves_new_SparsePageSource nf nb l : moves R (new_SparsePageSource nf nb l).
Proof. unfold new_SparsePageSource. moves_tac. Qed.

Lemma moves_new_DerivedSource f nf nb l b u : moves R (new_DerivedSource f nf nb l b u).
Proof. unfold new_DerivedSource. moves_tac. Qed.

#[local] Hint Resolve moves_new_SparsePageSource moves_new_DerivedSource : movesdb.

Lemma moves_PageSource_Reset l : moves R (PageSource_Reset l).
Proof.
  intros s. unfold PageSource_Reset.
  unfold bind at 1, read_source. destruct (sources s !! l) as [p|] eqn:Hp; [|apply step_refl].
  unfold bind at 1, read_cache.
  destruct (caches s !! src_cache p) as [c|]; [|apply step_refl].
  unfold write_source. rewrite bind_modify.
  eapply step_trans; [apply (step_rewind l p s Hp)|].
  generalize (with_sources (fun h => <[l := set_count p 0]> h) s).
  change (moves R (log (SourceReset (src_format p) l) ;;
    match src_format p with
    | RowFmt => if written c then ret tt else log IterReset
    | _ => ret tt
    end)). moves_tac.
Qed.

Lemma moves_PageSource_advance l : may FPosition = true -> moves R (PageSource_advance l).
Proof.
  intros Hmay s. unfold PageSource_advance.
  unfold bind at 1, read_source. destruct (sources s !! l) as [p|] eqn:Hp; [|apply step_refl].
  unfold bind at 1, read_cache.
  destruct (caches s !! src_cache p) as [c|] eqn:Hc; [|apply step_refl].
  rewrite bind_get. destruct (src_count p <? n_pages s)%nat; [|apply step_refl].
  unfold write_source at 1. rewrite bind_modify.
  eapply step_trans; [apply (step_forward Hmay l p s Hp)|].
  set (s1 := with_sources _ s).
  assert (Hc1 : caches s1 = caches s) by reflexivity. clearbody s1.
  assert (Hfin : forall s2, caches s2 = caches s ->
    R s2 (final_state ((if (S (src_count p) =? n_pages s)%nat
                        then write_cache (src_cache p) (Commit c) else ret tt) s2))).
  { intros s2 Hc2. destruct (S (src_count p) =? n_pages s)%nat; [|apply step_refl].
    apply step_commit. rewrite Hc2. exact Hc. }
  assert (Hup : forall u, R s1 (final_state (bind
    (let* q := read_source u in
     if (src_count q <? n_pages s)%nat
     then write_source u (set_count q (S (src_count q))) else ret tt)
    (fun _ => if (S (src_count p) =? n_pages s)%nat
              then write_cache (src_cache p) (Commit c) else ret tt) s1))).
  { intros u. rewrite bind_assoc.
    unfold bind at 1, read_source. destruct (sources s1 !! u) as [q|] eqn:Hq; [|apply step_refl].
    destruct (src_count q <? n_pages s)%nat; [|cbn; apply Hfin; exact Hc1].
    unfold write_source. rewrite bind_modify.
    eapply step_trans; [apply (step_forward Hmay u q s1 Hq)|].
    apply Hfin. exact Hc1. }
  destruct (written c).
  { rewrite bind_ret. apply Hfin. exact Hc1. }
  destruct (src_format p).
  - rewrite bind_log. eapply step_trans; [apply step_trace|]. apply Hfin. exact Hc1.
  - destruct (src_upstream p) as [u|]; [apply Hup|rewrite bind_ret; apply Hfin; exact Hc1].
  - destruct (src_upstream p) as [u|]; [apply Hup|rewrite bind_ret; apply Hfin; exact Hc1].
  - destruct (src_upstream p) as [u|]; [apply Hup|rewrite bind_ret; apply Hfin; exact Hc1].
Qed.

#[local] Hint Resolve moves_PageSource_Reset moves_PageSource_advance : movesdb.

Lemma moves_InitializeSparsePage :
  may FRegistry = true -> may FRow = true -> moves R InitializeSparsePage.
Proof. intros H1 H2. unfold InitializeSparsePage. moves_tac. Qed.

#[local] Hint Resolve moves_InitializeSparsePage : movesdb.

Lemma moves_GetRowBatches :
  may FRegistry = true -> may FRow = true -> moves R GetRowBatches.
Proof. intros H1 H2. unfold GetRowBatches, GetRowBatchesImpl. moves_tac. Qed.

#[local] Hint Resolve moves_GetRowBatches : movesdb.

Lemma moves_range_for_from {A} l bs (body : RawBatch -> SparsePage -> A -> M A) :
  may FPosition = true ->
  (forall b pg a, moves R (body b pg a)) -> forall a, moves R (range_for_from l bs body a).
Proof.
  intros Hmay Hb. induction bs as [|b bs IH]; intros a; cbn [range_for_from].
  - apply moves_ret.
  - moves_tac.
Qed.

Lemma moves_traverse it : may FPosition = true -> moves R (traverse it).
Proof.
  intros Hmay. unfold traverse, range_for. destruct it as [[l|]|o]; moves_tac.
  apply moves_range_for_from; [exact Hmay|]. intros. apply moves_ret.
Qed.

#[local] Hint Resolve moves_traverse : movesdb.

Lemma moves_full_pass :
  may FRegistry = true -> may FRow = true -> may FPosition = true -> moves R full_pass.
Proof. intros H1 H2 H3. unfold full_pass. moves_tac. Qed.

#[local] Hint Resolve moves_full_pass : movesdb.

Lemma moves_GetColumnBatches :
  may FRegistry = true -> may FRow = true -> may FColumn = true -> moves R GetColumnBatches.
Proof. intros H1 H2 H3. unfold GetColumnBatches. moves_tac. Qed.

Lemma moves_GetSortedColumnBatches :
  may FRegistry = true -> may FRow = true -> may FSortedColumn = true ->
  moves R GetSortedColumnBatches.
Proof. intros H1 H2 H3. unfold GetSortedColumnBatches. moves_tac. Qed.

Lemma moves_GetGradientIndex_in_memory param :
  in_memory param = true ->
  may FRegistry = true -> may FRow = true -> may FGHists = true -> may FGHistPage = true ->
  may FBatchParam = true -> may FPosition = true ->
  moves R (GetGradientIndex E param).
Proof.
  intros Him H1 H2 H3 H4 H5 H6. unfold GetGradientIndex, new_GHistIndexMatrix.
  fold (in_memory param). rewrite Him. moves_tac.
Qed.

Lemma moves_GetGradientIndex_on_disk param :
  in_memory param = false ->
  may FRegistry = true -> may FRow = true -> may FGHistSource = true ->
  may FBatchParam = true -> may FPosition = true ->
  moves R (GetGradientIndex E param).
Proof.
  intros Him H1 H2 H3 H4 H5. unfold GetGradientIndex, SketchOnDMatrix.
  fold (in_memory param). rewrite Him. moves_tac.
Qed.

Lemma moves_GetGradientIndex param :
  (forall f, may f = true) -> moves R (GetGradientIndex E param).
Proof.
  intros H. destruct (in_memory param) eqn:Him.
  - apply moves_GetGradientIndex_in_memory; auto.
  - apply moves_GetGradientIndex_on_disk; auto.
Qed.

Lemma moves_do_call c : (forall f, may f = true) -> moves R (do_call E c).
Proof.
  intros H. destruct c; cbn [do_call]; try (apply moves_bind; [|intros; apply moves_ret]).
  - apply moves_GetRowBatches; auto.
  - apply moves_GetColumnBatches; auto.
  - apply moves_GetSortedColumnBatches; auto.
  - apply moves_GetGradientIndex; auto.
  - apply moves_PageSource_advance; auto.
Qed.

Lemma moves_run cs : (forall f, may f = true) -> moves R (run E cs).
Proof.
  intros H. induction cs as [|c cs IH]; cbn [run]; [apply moves_ret|].
  apply moves_bind; [apply moves_do_call; exact H|intros; exact IH].
Qed.

End Moves.

(** Agreement on a projection is such a relation, as soon as no permitted
    write changes the projection. *)
Lemma Step_same_on {X} (proj : State -> X) (may : Field -> bool) :
  (forall f s, proj (with_trace f s) = proj s) ->
  (forall f s, proj (with_caches f s) = proj s) ->
  (forall f s, proj (with_sources f s) = proj s) ->
  (may FRegistry = true -> forall m s, proj (with_this (set_cache_info m) s) = proj s) ->
  (may FRow = true -> forall p s, proj (with_this (set_sparse_page_source p) s) = proj s) ->
  (may FColumn = true -> forall p s, proj (with_this (set_column_source p) s) = proj s) ->
  (may FSortedColumn = true ->
   forall p s, proj (with_this (set_sorted_column_source p) s) = proj s) ->
  (may FGHistSource = true ->
   forall p s, proj (with_this (set_ghist_index_source p) s) = proj s) ->
  (may FGHistPage = true -> forall p s, proj (with_this (set_ghist_index_page p) s) = proj s) ->
  (may FBatchParam = true -> forall p s, proj (with_this (set_batch_param p) s) = proj s) ->
  (may FGHists = true -> forall f s, proj (with_ghists f s) = proj s) ->
  Step (same_on proj) may.
Proof.
  intros Ht Hc Hs H1 H2 H3 H4 H5 H6 H7 H8. unfold same_on.
  constructor; intros; auto; try congruence.
  exact (H1 H (g (cache_info_ (this s))) s).
Qed.

Ltac same_on_tac :=
  apply Step_same_on; intros; first [discriminate | reflexivity].

(** X5. From every state and whatever the outcome, a request for row,
    column or sorted-column batches leaves alone what construction fixed
    (identity, prefix, counts, metadata) and the whole histogram-index side
    (its source member, the in-memory page member, the built pages, the
    last-used parameters).  A row request also leaves both column members
    alone, and each column request the member of the other column format. *)
Theorem X5_requests_leave_the_rest (s : State) :
  let sr := final_state (GetRowBatches s) in
  let sc := final_state (GetColumnBatches s) in
  let ss := final_state (GetSortedColumnBatches s) in
  (fixed_side sr = fixed_side s /\ histogram_side sr = histogram_side s /\
   column_source_ (this sr) = column_source_ (this s) /\
   sorted_column_source_ (this sr) = sorted_column_source_ (this s)) /\
  (fixed_side sc = fixed_side s /\ histogram_side sc = histogram_side s /\
   sorted_column_source_ (this sc) = sorted_column_source_ (this s)) /\
  (fixed_side ss = fixed_side s /\ histogram_side ss = histogram_side s /\
   column_source_ (this ss) = column_source_ (this s)).
Proof.
  cbv zeta.
  assert (Hr : forall {X} (proj : State -> X),
    Step (same_on proj) (only [FRegistry; FRow]) ->
    proj (final_state (GetRowBatches s)) = proj s).
  { intros X proj HS. exact (moves_GetRowBatches _ _ eq_refl eq_refl s). }
  assert (Hc : forall {X} (proj : State -> X),
    Step (same_on proj) (only [FRegistry; FRow; FColumn]) ->
    proj (final_state (GetColumnBatches s)) = proj s).
  { intros X proj HS. exact (moves_GetColumnBatches _ _ eq_refl eq_refl eq_refl s). }
  assert (Hs : forall {X} (proj : State -> X),
    Step (same_on proj) (only [FRegistry; FRow; FSortedColumn]) ->
    proj (final_state (GetSortedColumnBatches s)) = proj s).
  { intros X proj HS. exact (moves_GetSortedColumnBatches _ _ eq_refl eq_refl eq_refl s). }
  repeat split.
  - apply (Hr _ fixed_side). same_on_tac.
  - apply (Hr _ histogram_side). same_on_tac.
  - apply (Hr _ (fun s => column_source_ (this s))). same_on_tac.
  - apply (Hr _ (fun s => sorted_column_source_ (this s))). same_on_tac.
  - apply (Hc _ fixed_side). same_on_tac.
  - apply (Hc _ histogram_side). same_on_tac.
  - apply (Hc _ (fun s => sorted_column_source_ (this s))). same_on_tac.
  - apply (Hs _ fixed_side). same_on_tac.
  - apply (Hs _ histogram_side). same_on_tac.
  - apply (Hs _ (fun s => column_source_ (this s))). same_on_tac.
Qed.


(** ** The row source is reset after use

    What holds after an operation that returns is read off its last call
    of [InitializeSparsePage]: that call leaves the row source rewound, and
    what follows it neither replaces nor moves the source. *)

Lemma read_source_inv l p s s' : read_source l s = Ok p s' -> s' = s /\ sources s !! l = Some p.
Proof. unfold read_source. destruct (sources s !! l); [intros [= <- <-]; auto|discriminate]. Qed.

Lemma read_cache_inv l c s s' : read_cache l s = Ok c s' -> s' = s /\ caches s !! l = Some c.
Proof. unfold read_cache. destruct (caches s !! l); [intros [= <- <-]; auto|discriminate]. Qed.

Lemma cache_info_at_inv id l s s' :
  cache_info_at id s = Ok l s' -> s' = s /\ cache_info_ (this s) !! id = Some l.
Proof.
  unfold cache_info_at. destruct (cache_info_ (this s) !! id); [intros [= <- <-]; auto|discriminate].
Qed.

(** Flatten the binds of a hypothesis on the outcome of a computation. *)
Ltac peel H :=
  repeat (first [rewrite bind_assoc in H | rewrite bind_get in H | rewrite bind_ret in H];
          cbv beta in H).

Lemma Reset_rewinds l s s' : PageSource_Reset l s = Ok tt s' ->
  this s' = this s /\ exists ps, sources s' !! l = Some ps /\ src_count ps = 0%nat.
Proof.
  unfold PageSource_Reset. intros H.
  apply bind_inv in H as (p & s1 & H1 & H). apply read_source_inv in H1 as [-> Hp].
  apply bind_inv in H as (c & s1 & H1 & H). apply read_cache_inv in H1 as [-> Hc].
  unfold write_source in H. rewrite bind_modify, bind_log in H.
  assert (Hlt : (l < length (sources s))%nat) by (eapply lookup_lt_Some; eauto).
  destruct (src_format p); [destruct (written c)|..]; injection H as <-; cbn;
    (split; [reflexivity|]); exists (set_count p 0);
    (split; [apply list_lookup_insert_eq; exact Hlt|reflexivity]).
Qed.

Lemma Init_rewinds s s' : InitializeSparsePage s = Ok tt s' -> rewound s'.
Proof.
  unfold InitializeSparsePage. intros H. peel H.
  apply bind_inv in H as (id & s1 & _ & H).
  apply bind_inv in H as (l & s2 & H2 & H). apply cache_info_at_inv in H2 as [-> _].
  apply bind_inv in H as (c & s2 & H2 & H). apply read_cache_inv in H2 as [-> _].
  destruct (written c).
  - peel H. destruct (sparse_page_source_ (this s1)) as [p|] eqn:Hp; [|discriminate].
    apply Reset_rewinds in H as (Ht & ps & Hps & Hn).
    exists p, ps. rewrite Ht. auto.
  - rewrite bind_update_this in H. peel H.
    apply bind_inv in H as (l' & s2 & H2 & H). apply cache_info_at_inv in H2 as [-> _].
    unfold new_SparsePageSource in H. peel H.
    apply bind_inv in H as (c' & s2 & H2 & H). apply read_cache_inv in H2 as [-> _].
    revert H. mnorm.
    destruct (written c'); mnorm; intros [= <-]; msimpl;
      (eexists _, _; split; [reflexivity|]);
      (split; [apply list_lookup_middle; reflexivity|reflexivity]).
Qed.

Lemma Step_rewound : Step (carries rewound) (all_but [FRow; FPosition]).
Proof.
  constructor; unfold carries; intros;
    try match goal with H : all_but _ _ = true |- _ => discriminate H end;
    auto;
    match goal with H : rewound _ |- _ => destruct H as (p0 & ps & A & B & C) end;
    try (exists p0, ps; split; [exact A|]; split; [exact B|exact C]).
  - exists p0, ps. split; [exact A|]. split; [|exact C].
    cbn. apply lookup_app_l_Some. exact B.
  - destruct (decide (l = p0)) as [->|Hne].
    + exists p0, (set_count p 0). split; [exact A|]. split; [|reflexivity].
      cbn. apply list_lookup_insert_eq. eapply lookup_lt_Some; eauto.
    + exists p0, ps. split; [exact A|]. split; [|exact C].
      cbn. rewrite list_lookup_insert_ne by exact Hne. exact B.
Qed.

Lemma rewound_pages s :
  rewound s -> pages_of s (OverSource (sparse_page_source_ (this s))) = page_of <$> batches s.
Proof.
  intros (p & ps & -> & Hp & Hn). cbn [pages_of]. unfold remaining_pages, remaining_batches.
  rewrite Hp, Hn, drop_0. reflexivity.
Qed.

(** Frame reasoning for a given relation and set of permitted writes. *)
Ltac moves_for R may :=
  repeat first
    [ apply (moves_ret R may) | apply (moves_fatal R may) | apply (moves_get R may)
    | apply (moves_log R may) | apply (moves_read_cache R may)
    | apply (moves_read_source R may) | apply (moves_cache_info_at R may)
    | apply (moves_alloc_cache R may) | apply (moves_alloc_source R may)
    | apply (moves_CHECK R may)
    | apply (moves_new_SparsePageSource R may) | apply (moves_new_DerivedSource R may)
    | apply (moves_PageSource_Reset R may)
    | apply (moves_alloc_ghist R may); reflexivity
    | apply (moves_set_row R may); reflexivity
    | apply (moves_set_column R may); reflexivity
    | apply (moves_set_sorted R may); reflexivity
    | apply (moves_set_ghist_source R may); reflexivity
    | apply (moves_set_ghist_page R may); reflexivity
    | apply (moves_set_batch_param R may); reflexivity
    | apply (moves_set_registry R may); reflexivity
    | apply (moves_MakeCache R may); reflexivity
    | apply (moves_cache_info_erase R may); reflexivity
    | apply (moves_PageSource_advance R may); reflexivity
    | apply (moves_InitializeSparsePage R may); reflexivity
    | apply (moves_bind R may); [|intros]
    | match goal with
      | |- moves _ (if ?x then _ else _) => destruct x
      | |- moves _ (match ?x with Some _ => _ | None => _ end) => destruct x
      end ].

#[local] Existing Instance Step_rewound.

Lemma after_bind (P Q1 Q : State -> Prop) {A B} (c : M A) (k : A -> M B) :
  after P c Q1 -> (forall a, after Q1 (k a) Q) -> after P (bind c k) Q.
Proof.
  intros Hc Hk s b s' HP H. apply bind_inv in H as (a & s1 & H1 & H).
  exact (Hk a s1 b s' (Hc s a s1 HP H1) H).
Qed.

Lemma after_any (P : State -> Prop) {A} (c : M A) : after P c (fun _ => True).
Proof. intros s a s' _ _. exact I. Qed.

Lemma after_moves (P : State -> Prop) {A} (c : M A) : moves (carries P) c -> after P c P.
Proof. intros Hm s a s' HP H. specialize (Hm s). rewrite H in Hm. exact (Hm HP). Qed.

Lemma after_init (P : State -> Prop) : after P InitializeSparsePage rewound.
Proof. intros s [] s' _ H. exact (Init_rewinds s s' H). Qed.

(** Find the last call of [InitializeSparsePage] on every path. *)
Ltac rew_tac :=
  first
    [ solve [apply after_moves; moves_for (carries rewound) (all_but [FRow; FPosition])]
    | apply after_init
    | lazymatch goal with
      | |- after _ (bind _ _) _ =>
          first [ eapply (after_bind _ rewound); [solve [rew_tac]|intros; rew_tac]
                | eapply (after_bind _ (fun _ => True)); [apply after_any|intros; rew_tac] ]
      | |- after _ (if ?x then _ else _) _ => destruct x; rew_tac
      | |- after _ (match ?x with Some _ => _ | None => _ end) _ => destruct x; rew_tac
      end ].

Lemma GetRowBatches_rewinds : after (fun _ => True) GetRowBatches rewound.
Proof. unfold GetRowBatches, GetRowBatchesImpl. rew_tac. Qed.

Lemma GetColumnBatches_rewinds : after (fun _ => True) GetColumnBatches rewound.
Proof. unfold GetColumnBatches. rew_tac. Qed.

Lemma GetSortedColumnBatches_rewinds : after (fun _ => True) GetSortedColumnBatches rewound.
Proof. unfold GetSortedColumnBatches. rew_tac. Qed.

Lemma CHECK_inv b what s s' : CHECK b what s = Ok tt s' -> b = true /\ s' = s.
Proof. unfold CHECK. destruct b; [intros [= <-]; auto|discriminate]. Qed.

Lemma GetGradientIndex_rewinds param s b s' :
  GetGradientIndex E param s = Ok b s' ->
  (in_memory param = true /\ rebuild_in_memory E s param = false /\ s' = s) \/ rewound s'.
Proof.
  unfold GetGradientIndex. fold (in_memory param). intros H.
  apply bind_inv in H as ([] & s1 & H1 & H). apply CHECK_inv in H1 as [_ ->].
  destruct (in_memory param).
  - rewrite bind_get in H. destruct (rebuild_in_memory E s param).
    + right. revert H.
      match goal with |- ?t s = Ok _ _ -> _ =>
        assert (Ha : after (fun _ => True) t rewound) by rew_tac; exact (Ha s b s' I) end.
    + left. revert H. mnorm. intros [= _ <-]. auto.
  - right. revert H.
    match goal with |- ?t s = Ok _ _ -> _ =>
      assert (Ha : after (fun _ => True) t rewound) by rew_tac; exact (Ha s b s' I) end.
Qed.

(** X7. The row-page source is reset after use.  Whenever a request for
    batches of any format returns, the row-page source member is set and
    its source stands at its first page, so that a traversal of it yields
    every row page: the passes that built the in-memory index or computed
    the cuts have been followed by a reset.  The one exception is the
    in-memory histogram request that keeps its page, which touches
    nothing. *)
Theorem X7_row_source_reset_after_use f param s b s' :
  request f param s = Ok b s' ->
  (f = GradientIndexFmt /\ in_memory param = true /\ rebuild_in_memory E s param = false /\
   s' = s) \/
  (rewound s' /\
   pages_of s' (OverSource (sparse_page_source_ (this s'))) = page_of <$> batches s').
Proof.
  intros H.
  assert (Hr : (f = GradientIndexFmt /\ in_memory param = true /\
                rebuild_in_memory E s param = false /\ s' = s) \/ rewound s').
  { destruct f; cbn [request] in H.
    - right. exact (GetRowBatches_rewinds s b s' I H).
    - right. exact (GetColumnBatches_rewinds s b s' I H).
    - right. exact (GetSortedColumnBatches_rewinds s b s' I H).
    - destruct (GetGradientIndex_rewinds param s b s' H) as [(A & B & C)|Hr]; auto. }
  destruct Hr as [Hr|Hr]; [left; exact Hr|right]. split; [exact Hr|].
  apply rewound_pages. exact Hr.
Qed.

(** ** The sources of the column formats *)

(** One request for a derived format, from a state whose row cache is
    written: the member decides between creation and reset. *)
Lemma GetDerived_step f s :
  f <> RowFmt -> Inv s -> cache_written s RowFmt = true ->
  exists p ps l s',
    sparse_page_source_ (this s) = Some p /\ sources s !! p = Some ps /\
    Inv s' /\ sparse_page_source_ (this s') = Some p /\
    cache_info_ (this s') !! id_of f s = Some l /\
    (forall g, g <> f -> member g (this s') = member g (this s)) /\
    match member f (this s) with
    | Some q => exists qs, sources s !! q = Some qs /\ src_format qs = f /\
        GetDerivedBatches f s = Ok (OverSource (Some q)) s' /\
        member f (this s') = Some q /\
        sources s' = <[q := set_count qs 0]> (<[p := set_count ps 0]> (sources s))
    | None =>
        GetDerivedBatches f s = Ok (OverSource (Some (length (sources s)))) s' /\
        member f (this s') = Some (length (sources s)) /\
        sources s' = <[p := set_count ps 0]> (sources s) ++
          [mkPageSource f l (Some p) (num_col_ (info_ (this s))) (n_batches_ (this s)) None 0]
    end.
Proof.
  intros Hf HI Hrow.
  destruct (GetDerived_spec f s Hf HI) as (q0 & s0 & Hspec & HI0 & _).
  revert Hspec. unfold GetDerivedBatches. mnorm.
  destruct (MakeCache_Inv f s HI)
    as (sA & Hm & HIA & HiA & HnbA & HnA & _ & _ & HsA & HmA & _ & _ & (l & Hl & _) & HwA & _).
  mstep Hm. mnorm.
  pose proof (Inv_num_col _ HIA) as Hnc. apply Z.eqb_neq in Hnc. rewrite Hnc. cbn [negb CHECK].
  mnorm.
  destruct (Init_spec sA HIA) as (sB & Hi & HIB & HFB & HcB & _ & HwB).
  mstep Hi. mnorm.
  assert (HrowA : cache_written sA RowFmt = true) by (rewrite HwA; exact Hrow).
  destruct (HwB HrowA) as (p & ps & Hp & Hps & HtB & HsB & _).
  rewrite HsA in Hps, HsB.
  assert (Hprow : sparse_page_source_ (this s) = Some p).
  { pose proof (HmA RowFmt) as Hx. cbn [member] in Hx. congruence. }
  assert (Hpf : src_format ps = RowFmt).
  { destruct (Inv_member_src s RowFmt p HI Hprow) as (ps' & Hps' & Hf'). congruence. }
  rewrite HtB.
  assert (Hmf : member f (this sA) = member f (this s)) by apply HmA.
  rewrite Hmf.
  destruct (member f (this s)) as [q|] eqn:Hq.
  - destruct (Inv_member_src s f q HI Hq) as (qs & Hqs & Hqf).
    assert (Hne : p <> q) by (intros ->; congruence).
    assert (HqsB : sources sB !! q = Some qs).
    { rewrite HsB, list_lookup_insert_ne by exact Hne. exact Hqs. }
    destruct (Reset_Inv q qs sB HIB HqsB) as (sC & Hr & _ & _ & _ & HtC & HsC & _).
    mstep Hr. mnorm. rewrite HtC, HtB, Hmf. intros Hspec.
    exists p, ps, l, sC. split; [exact Hprow|]. split; [exact Hps|].
    unfold ret in Hspec. injection Hspec as _ <-.
    split; [exact HI0|]. split; [rewrite HtC, HtB; exact Hp|].
    split; [rewrite HtC, HtB; exact Hl|].
    split; [intros g _; rewrite HtC, HtB; apply HmA|].
    exists qs. split; [exact Hqs|]. split; [exact Hqf|]. split; [reflexivity|].
    split; [rewrite HtC, HtB, Hmf; reflexivity|]. rewrite HsC, HsB. reflexivity.
  - assert (HlB : cache_info_ (this sB) !! id_of f s = Some l) by (rewrite HtB; exact Hl).
    rewrite <- HtB. mstep (cache_info_at_Ok _ _ _ HlB).
    unfold new_DerivedSource. mnorm. rewrite set_member_member, decide_True by reflexivity.
    intros Hspec.
    assert (Hlen : length (sources sB) = length (sources s)).
    { rewrite HsB, length_insert. reflexivity. }
    eexists p, ps, l, _. split; [exact Hprow|]. split; [exact Hps|].
    split; [unfold ret in Hspec; injection Hspec as _ <-; exact HI0|]. msimpl.
    destruct (set_member_fields f (Some (length (sources sB))) (this sB))
      as (Hreg & _ & _ & _ & _ & _ & _).
    split.
    { pose proof (set_member_member f RowFmt (Some (length (sources sB))) (this sB)) as Hx.
      rewrite decide_False in Hx by (intros Heq; apply Hf; symmetry; exact Heq).
      cbn [member] in Hx. rewrite Hx, HtB. exact Hp. }
    split; [rewrite Hreg; exact HlB|].
    split.
    { intros g Hg. rewrite set_member_member, decide_False by exact Hg.
      rewrite HtB. apply HmA. }
    split; [rewrite Hlen; reflexivity|].
    split; [rewrite set_member_member, decide_True by reflexivity; rewrite Hlen; reflexivity|].
    rewrite HsB, HtB, Hp, HiA, HnbA. reflexivity.
Qed.

(** X8. From a state reached over a non-empty data set in which the member
    of a column format is null, the request for that format creates one
    source: it is bound to the descriptor registered for the format and to
    the row-page source the object holds, it carries the recorded column
    and batch counts, it stands at its first page, and it becomes the
    member and the source of the returned batch set. *)
Theorem X8_column_source_created_bound u cs s f param :
  reach E u cs = Some s -> su_batches u <> [] ->
  f = ColFmt \/ f = SortedColFmt -> member f (this s) = None ->
  exists p l s',
    request f param s = Ok (OverSource (Some (length (sources s)))) s' /\
    member f (this s') = Some (length (sources s)) /\
    length (sources s') = S (length (sources s)) /\
    sparse_page_source_ (this s') = Some p /\
    cache_info_ (this s') !! id_of f s = Some l /\
    sources s' !! length (sources s)
      = Some (mkPageSource f l (Some p) (num_col_ (info_ (this s))) (n_batches_ (this s))
                None 0).
Proof.
  intros Hr Hne Hf Hm. pose proof (reach_Inv _ _ _ Hr) as HI.
  assert (Hw : cache_written s RowFmt = true).
  { apply Inv_nonempty_written; [exact HI|]. rewrite (reach_batches _ _ _ Hr). exact Hne. }
  assert (Hf' : f <> RowFmt) by (destruct Hf as [-> | ->]; discriminate).
  destruct (GetDerived_step f s Hf' HI Hw) as (p & ps & l & s' & _ & _ & _ & Hp & Hl & _ & Hx).
  rewrite Hm in Hx. destruct Hx as (Hx & Hmem & Hsrc).
  exists p, l, s'. split.
  { destruct Hf as [-> | ->]; cbn [request];
      [rewrite GetColumnBatches_eq|rewrite GetSortedColumnBatches_eq]; exact Hx. }
  split; [exact Hmem|]. split.
  { rewrite Hsrc, length_app, length_insert. cbn. lia. }
  split; [exact Hp|]. split; [exact Hl|].
  rewrite Hsrc. apply list_lookup_middle. rewrite length_insert. reflexivity.
Qed.

(** X9. From a state reached over a non-empty data set in which the member
    of a column format is set, the request for that format returns a batch
    set over that same source, rewound to its first page, and creates no
    source.  The decision is taken on the member, not on the descriptor:
    it is the same whether or not a pass over the source was ever
    completed. *)
Theorem X9_column_source_reused u cs s f param q :
  reach E u cs = Some s -> su_batches u <> [] ->
  f = ColFmt \/ f = SortedColFmt -> member f (this s) = Some q ->
  exists qs s',
    request f param s = Ok (OverSource (Some q)) s' /\
    member f (this s') = Some q /\
    length (sources s') = length (sources s) /\
    sources s !! q = Some qs /\ src_format qs = f /\
    sources s' !! q = Some (set_count qs 0).
Proof.
  intros Hr Hne Hf Hm. pose proof (reach_Inv _ _ _ Hr) as HI.
  assert (Hw : cache_written s RowFmt = true).
  { apply Inv_nonempty_written; [exact HI|]. rewrite (reach_batches _ _ _ Hr). exact Hne. }
  assert (Hf' : f <> RowFmt) by (destruct Hf as [-> | ->]; discriminate).
  destruct (GetDerived_step f s Hf' HI Hw) as (p & ps & l & s' & _ & _ & _ & _ & _ & _ & Hx).
  rewrite Hm in Hx. destruct Hx as (qs & Hqs & Hqf & Hx & Hmem & Hsrc).
  exists qs, s'. split.
  { destruct Hf as [-> | ->]; cbn [request];
      [rewrite GetColumnBatches_eq|rewrite GetSortedColumnBatches_eq]; exact Hx. }
  split; [exact Hmem|]. split; [rewrite Hsrc, !length_insert; reflexivity|].
  split; [exact Hqs|]. split; [exact Hqf|].
  rewrite Hsrc. apply list_lookup_insert_eq. rewrite length_insert.
  eapply lookup_lt_Some; eauto.
Qed.

(** ** Sources are shared, never rebound

    Two facts are carried along every sequence of calls: the derived
    sources the object holds pull from the row source it holds, and that
    row source is the one the constructor made. *)

Lemma set_count_id ps : set_count ps (src_count ps) = ps.
Proof. destruct ps; reflexivity. Qed.

Lemma Step_sources_persist : Step sources_persist (fun _ => true).
Proof.
  constructor; unfold sources_persist; intros;
    try (exists (src_count ps); rewrite set_count_id; assumption).
  - destruct (H p ps H1) as [n Hn]. destruct (H0 p _ Hn) as [m Hm]. exists m. exact Hm.
  - exists (src_count ps). rewrite set_count_id. cbn. apply lookup_app_l_Some. assumption.
  - cbn. destruct (decide (l = p0)) as [->|Hne].
    + exists 0%nat. rewrite list_lookup_insert_eq by (eapply lookup_lt_Some; eauto). congruence.
    + exists (src_count ps). rewrite set_count_id, list_lookup_insert_ne by exact Hne.
      assumption.
  - cbn. destruct (decide (l = p0)) as [->|Hne].
    + exists (S (src_count p)).
      rewrite list_lookup_insert_eq by (eapply lookup_lt_Some; eauto). congruence.
    + exists (src_count ps). rewrite set_count_id, list_lookup_insert_ne by exact Hne.
      assumption.
Qed.

Lemma histogram_request_members param s :
  let s' := final_state (GetGradientIndex E param s) in
  column_source_ (this s') = column_source_ (this s) /\
  sorted_column_source_ (this s') = sorted_column_source_ (this s) /\
  (in_memory param = true -> ghist_index_source_ (this s') = ghist_index_source_ (this s)).
Proof.
  cbv zeta.
  assert (Ha : forall {X} (proj : State -> X),
    Step (same_on proj) (all_but [FColumn; FSortedColumn]) ->
    proj (final_state (GetGradientIndex E param s)) = proj s).
  { intros X proj HS. destruct (in_memory param) eqn:Him.
    - exact (moves_GetGradientIndex_in_memory _ _ param Him
               eq_refl eq_refl eq_refl eq_refl eq_refl eq_refl s).
    - exact (moves_GetGradientIndex_on_disk _ _ param Him
               eq_refl eq_refl eq_refl eq_refl eq_refl s). }
  split; [apply (Ha _ (fun s => column_source_ (this s))); same_on_tac|].
  split; [apply (Ha _ (fun s => sorted_column_source_ (this s))); same_on_tac|].
  intros Him.
  assert (HS : Step (same_on (fun s => ghist_index_source_ (this s)))
                 (all_but [FGHistSource])) by same_on_tac.
  exact (moves_GetGradientIndex_in_memory _ _ param Him
           eq_refl eq_refl eq_refl eq_refl eq_refl eq_refl s).
Qed.

Lemma do_call_Ok_inv {A} (c : M A) s s' :
  bind c (fun _ => ret tt) s = Ok tt s' -> exists a, c s = Ok a s'.
Proof. intros H. apply bind_inv in H as (a & s1 & H1 & [= <-]). eauto. Qed.

Lemma derived_members f s :
  f <> RowFmt -> Inv s -> cache_written s RowFmt = true ->
  forall b s', GetDerivedBatches f s = Ok b s' ->
  sparse_page_source_ (this s') = sparse_page_source_ (this s) /\
  forall g, g <> RowFmt ->
    member g (this s') = member g (this s) \/
    exists q r, member g (this s') = Some q /\ sources s' !! q = Some r /\ src_format r = g /\
      src_upstream r = sparse_page_source_ (this s') /\
      src_n_features r = num_col_ (info_ (this s)) /\ src_n_batches r = n_batches_ (this s).
Proof.
  intros Hf HI Hw b s' H.
  destruct (GetDerived_step f s Hf HI Hw) as (p & ps & l & s1 & Hp & _ & _ & Hp1 & _ & Hoth & Hx).
  destruct (member f (this s)) as [q|] eqn:Hq.
  - destruct Hx as (qs & _ & _ & Hx & Hm & _). rewrite Hx in H. injection H as _ <-.
    split; [congruence|]. intros g _. left.
    destruct (decide (g = f)) as [->|Hne]; [congruence|apply Hoth; exact Hne].
  - destruct Hx as (Hx & Hm & Hsrc). rewrite Hx in H. injection H as _ <-.
    split; [congruence|]. intros g _.
    destruct (decide (g = f)) as [->|Hne]; [|left; apply Hoth; exact Hne].
    right. eexists _, _. split; [exact Hm|]. split.
    { rewrite Hsrc. apply list_lookup_middle. rewrite length_insert. reflexivity. }
    cbn. rewrite Hp1. auto.
Qed.

(** What one call does to the members: the row member is kept, and a
    derived member is either kept or replaced by a source bound to the row
    source. *)
Lemma do_call_members c s s' :
  Inv s -> cache_written s RowFmt = true -> do_call E c s = Ok tt s' ->
  sparse_page_source_ (this s') = sparse_page_source_ (this s) /\
  forall f, f <> RowFmt ->
    member f (this s') = member f (this s) \/
    exists q r, member f (this s') = Some q /\ sources s' !! q = Some r /\ src_format r = f /\
      src_upstream r = sparse_page_source_ (this s') /\
      src_n_features r = num_col_ (info_ (this s)) /\ src_n_batches r = n_batches_ (this s).
Proof.
  intros HI Hw H. destruct c as [| | |param|l]; cbn [do_call] in H.
  - apply do_call_Ok_inv in H as [b H].
    destruct (GetRowBatches_spec s HI) as (p & s1 & H1 & _ & _ & _ & _ & Hx).
    destruct (Hx Hw) as (_ & Ht & _). rewrite H1 in H. injection H as _ <-.
    rewrite Ht. auto.
  - apply do_call_Ok_inv in H as [b H]. rewrite GetColumnBatches_eq in H.
    apply (derived_members ColFmt s) with (b := b); auto; discriminate.
  - apply do_call_Ok_inv in H as [b H]. rewrite GetSortedColumnBatches_eq in H.
    apply (derived_members SortedColFmt s) with (b := b); auto; discriminate.
  - apply do_call_Ok_inv in H as [b H].
    pose proof (GetGradientIndex_Quiet param s HI Hw) as (Hrow & _).
    pose proof (histogram_request_members param s) as (Hcol & Hsor & Hgh).
    rewrite H in Hrow, Hcol, Hsor, Hgh. cbn [final_state] in *.
    split; [exact Hrow|]. intros f Hf.
    destruct f; [contradiction|left; exact Hcol|left; exact Hsor|].
    destruct (Z_lt_le_dec (max_bin param) 2) as [Hlt|Hge].
    { rewrite max_bin_check_fails in H by exact Hlt. discriminate. }
    destruct (in_memory param) eqn:Him; [left; apply Hgh; reflexivity|].
    destruct (on_disk_gate s param) eqn:Hg.
    + pose proof (GetGradientIndex_disk_rebuild param s HI Hge Him Hg) as Hd.
      cbv zeta in Hd. rewrite H in Hd. cbn [final_state] in Hd.
      destruct Hd as (l' & evs & _ & _ & _ & _ & _ & _ & _ & _ & _ & Hd).
      destruct (Values _); [destruct Hd as [Hd _]; discriminate|].
      destruct Hd as (p & _ & _ & _ & Hm & _ & _ & Hsrc).
      right. eexists _, _. split; [exact Hm|]. split; [exact Hsrc|]. cbn. auto.
    + destruct (GetGradientIndex_reset param s HI Hge Him Hg)
        as (p0 & p & ps & s1 & H1 & _ & _ & _ & _ & Ht & _).
      rewrite H1 in H. injection H as _ <-. left. rewrite Ht. reflexivity.
  - destruct (sources s !! l) as [p|] eqn:Hp.
    + destruct (advance_Inv l p s HI Hp) as (s1 & H1 & _ & _ & Ht & _).
      rewrite H1 in H. injection H as <-. rewrite Ht. auto.
    + unfold PageSource_advance, bind, read_source in H. rewrite Hp in H. discriminate.
Qed.

Lemma do_call_fixed c s :
  info_ (this (final_state (do_call E c s))) = info_ (this s) /\
  n_batches_ (this (final_state (do_call E c s))) = n_batches_ (this s).
Proof.
  assert (HS : Step (same_on (fun s => (info_ (this s), n_batches_ (this s)))) (fun _ => true))
    by same_on_tac.
  pose proof (moves_do_call _ _ c (fun _ => eq_refl) s) as H.
  unfold same_on in H. injection H as -> ->. auto.
Qed.

Lemma do_call_bound c s s' :
  Inv s -> batches s <> [] -> derived_bound s -> row_from_ctor s ->
  do_call E c s = Ok tt s' -> derived_bound s' /\ row_from_ctor s'.
Proof.
  intros HI Hne HJ (Hr0 & ps0 & Hps0 & Hf0 & Hu0 & Hnf0 & Hnb0) H.
  pose proof (Inv_nonempty_written s HI Hne) as Hw.
  destruct (do_call_members c s s' HI Hw H) as [Hrow Hmem].
  pose proof (do_call_fixed c s) as [Hinfo Hnb]. rewrite H in Hinfo, Hnb.
  cbn [final_state] in Hinfo, Hnb.
  pose proof Step_sources_persist as HS.
  pose proof (moves_do_call _ _ c (fun _ => eq_refl) s) as HP. rewrite H in HP.
  cbn [final_state] in HP.
  split.
  - intros f q qs Hf Hq Hqs. rewrite Hinfo, Hnb.
    destruct (Hmem f Hf) as [Hsame|(q' & r & Hq' & Hr & Hrf & Hru & Hrn & Hrb)].
    + rewrite Hsame in Hq. destruct (Inv_member_src s f q HI Hq) as (qs1 & Hqs1 & _).
      destruct (HP q qs1 Hqs1) as [n Hn]. rewrite Hn in Hqs. injection Hqs as <-.
      destruct (HJ f q qs1 Hf Hq Hqs1) as (A & B & C & D). cbn. rewrite Hrow. auto.
    + rewrite Hq' in Hq. injection Hq as <-. rewrite Hr in Hqs. injection Hqs as <-. auto.
  - split; [congruence|]. destruct (HP 0%nat ps0 Hps0) as [n Hn].
    exists (set_count ps0 n). split; [exact Hn|]. cbn. auto.
Qed.

Lemma run_bound cs : forall s s',
  Inv s -> batches s <> [] -> derived_bound s -> row_from_ctor s ->
  run E cs s = Ok tt s' -> derived_bound s' /\ row_from_ctor s'.
Proof.
  induction cs as [|c cs IH]; intros s s' HI Hne HJ HR; cbn [run].
  - intros [= <-]. auto.
  - intros H. apply bind_inv in H as ([] & s1 & H1 & H).
    destruct (do_call_bound c s s1 HI Hne HJ HR H1) as [HJ1 HR1].
    apply (IH s1 s'); auto.
    + eapply do_call_Inv; eauto.
    + pose proof (keeps_do_call batches c s) as Hk. rewrite H1 in Hk. cbn in Hk. congruence.
Qed.

Lemma reach_bound u cs s :
  reach E u cs = Some s -> su_batches u <> [] -> derived_bound s /\ row_from_ctor s.
Proof.
  unfold reach.
  destruct (construct E _ _ _ _ _) as [[] s0|e s0] eqn:Hc; [|discriminate].
  destruct (run E cs s0) as [[] s1|e s1] eqn:Hr; [|discriminate].
  intros [= <-] Hne.
  pose proof (construct_Inv _ _ _ _ _ _ Hc) as HI0.
  pose proof (construct_spec (su_ptr u) (su_batches u) (su_missing u) (su_nthreads u)
                (su_cache_prefix u)) as Hs.
  rewrite Hc in Hs. cbv zeta in Hs.
  destruct Hs as (_ & _ & (ft & lb & Ht) & _ & Hsrc & _ & Hb).
  apply (run_bound cs s0 s1); auto.
  - rewrite Hb. exact Hne.
  - intros f q qs Hf Hq. rewrite Ht in Hq. destruct f; [contradiction|discriminate..].
  - split; [rewrite Ht; reflexivity|]. rewrite Hsrc. eexists. split; [reflexivity|]. cbn. auto.
Qed.

(** X10. In every state reached over a non-empty data set, each source of
    a column or histogram-index format that the object holds has that
    format, pulls from the very row-page source the object holds, and
    carries the column count and the batch count recorded by
    construction: the derived sources share one row source. *)
Theorem X10_derived_sources_share_row_source u cs s f q qs :
  reach E u cs = Some s -> su_batches u <> [] ->
  f <> RowFmt -> member f (this s) = Some q -> sources s !! q = Some qs ->
  src_format qs = f /\
  src_upstream qs = sparse_page_source_ (this s) /\
  src_n_features qs = num_col_ (info_ (this s)) /\
  src_n_batches qs = n_batches_ (this s).
Proof.
  intros Hr Hne Hf Hq Hqs. destruct (reach_bound u cs s Hr Hne) as [HJ _].
  exact (HJ f q qs Hf Hq Hqs).
Qed.

(** X11. Over a non-empty data set the row-page source is created once: in
    every reachable state the object holds the source its constructor
    made.  That source was created before the pass had computed the column
    and batch counts, so the counts it was given are zero, whatever the
    data. *)
Theorem X11_row_source_created_once u cs s :
  reach E u cs = Some s -> su_batches u <> [] ->
  sparse_page_source_ (this s) = Some 0%nat /\
  exists ps, sources s !! 0%nat = Some ps /\ src_format ps = RowFmt /\
    src_upstream ps = None /\ src_n_features ps = 0 /\ src_n_batches ps = 0.
Proof.
  intros Hr Hne. destruct (reach_bound u cs s Hr Hne) as [_ HR]. exact HR.
Qed.

(** ** The two histogram regimes *)

Lemma on_disk_leaves_pages param s :
  in_memory param = false ->
  ghists (final_state (GetGradientIndex E param s)) = ghists s /\
  ghist_index_page_ (this (final_state (GetGradientIndex E param s)))
    = ghist_index_page_ (this s).
Proof.
  intros Him.
  assert (HS : Step (same_on (fun s => (ghists s, ghist_index_page_ (this s))))
                 (all_but [FGHistPage; FGHists])) by same_on_tac.
  pose proof (moves_GetGradientIndex_on_disk _ _ param Him
                eq_refl eq_refl eq_refl eq_refl eq_refl s) as H.
  unfold same_on in H. injection H as -> ->. auto.
Qed.

Lemma rebuild_in_memory_true param s :
  BatchParam_ne E param (batch_param_ (this s)) = true ->
  BatchParam_ne E param (BatchParam_default E) = true ->
  rebuild_in_memory E s param = true.
Proof. intros H1 H2. unfold rebuild_in_memory. rewrite H1, H2. apply orb_true_r. Qed.

(** X12. The two histogram regimes share one record of last-used
    parameters.  After an on-disk request with parameters [q] has rebuilt
    its source, an in-memory request with parameters [p] that the
    comparison tells apart from [q] and from the default ones rebuilds the
    in-memory page, whether or not a page built with [p] is being held. *)
Theorem X12_regimes_share_last_params u cs s q p b s1 :
  reach E u cs = Some s ->
  2 <= max_bin q -> in_memory q = false -> on_disk_gate s q = true ->
  2 <= max_bin p -> in_memory p = true ->
  BatchParam_ne E p q = true -> BatchParam_ne E p (BatchParam_default E) = true ->
  GetGradientIndex E q s = Ok b s1 ->
  batch_param_ (this s1) = q /\
  ghist_index_page_ (this s1) = ghist_index_page_ (this s) /\
  exists s2,
    GetGradientIndex E p s1 = Ok (SinglePage (Some (length (ghists s)))) s2 /\
    ghists s2 = ghists s ++
      [mkGHistIndexMatrix (max_bin p) (regen p) (page_of <$> su_batches u)] /\
    batch_param_ (this s2) = p.
Proof.
  intros Hr Hq Hqm Hg Hp Hpm Hne Hnd H. pose proof (reach_Inv _ _ _ Hr) as HI.
  pose proof (GetGradientIndex_disk_rebuild q s HI Hq Hqm Hg) as Hd.
  cbv zeta in Hd. rewrite H in Hd. cbn [final_state] in Hd.
  destruct Hd as (l' & evs & _ & _ & _ & _ & _ & _ & _ & _ & Hbp & Hd).
  destruct (Values _); [destruct Hd as [Hd _]; discriminate|].
  destruct Hd as (p0 & _ & HI1 & _).
  destruct (on_disk_leaves_pages q s Hqm) as [Hgh Hpg]. rewrite H in Hgh, Hpg.
  cbn [final_state] in Hgh, Hpg.
  split; [exact Hbp|]. split; [exact Hpg|].
  assert (Hrb : rebuild_in_memory E s1 p = true).
  { apply rebuild_in_memory_true; [rewrite Hbp; exact Hne|exact Hnd]. }
  destruct (GetGradientIndex_rebuild p s1 HI1 Hp Hpm Hrb) as (s2 & H2 & _ & _ & Hg2 & _ & Hb2).
  exists s2. rewrite Hgh in H2, Hg2. split; [exact H2|]. split; [|exact Hb2].
  rewrite Hg2. repeat f_equal.
  pose proof (keeps_GetGradientIndex batches q s) as Hk. rewrite H in Hk. cbn in Hk.
  rewrite Hk. apply (reach_batches _ _ _ Hr).
Qed.

(** X13. An in-memory histogram request is idempotent, provided the
    comparison does not tell a parameter record apart from itself: from a
    reachable state, a request that returned is answered by its immediate
    repetition with the same page, and the repetition changes nothing. *)
Theorem X13_in_memory_request_idempotent u cs s p b s1 :
  reach E u cs = Some s ->
  in_memory p = true -> BatchParam_ne E p p = false ->
  GetGradientIndex E p s = Ok b s1 ->
  GetGradientIndex E p s1 = Ok b s1.
Proof.
  intros Hr Hpm Hirr H. pose proof (reach_Inv _ _ _ Hr) as HI.
  destruct (Z_lt_le_dec (max_bin p) 2) as [Hlt|Hge].
  { rewrite max_bin_check_fails in H by exact Hlt. discriminate. }
  destruct (rebuild_in_memory E s p) eqn:Hrb.
  - destruct (GetGradientIndex_rebuild p s HI Hge Hpm Hrb) as (s2 & H2 & _ & _ & _ & Hpg & Hbp).
    rewrite H2 in H. injection H as <- <-.
    assert (Hrb2 : rebuild_in_memory E s2 p = false).
    { unfold rebuild_in_memory. rewrite Hpg, Hbp, Hirr.
      rewrite bool_decide_eq_true_2 by eauto. reflexivity. }
    destruct (GetGradientIndex_keep p s2 Hge Hpm Hrb2) as [-> _]. rewrite Hpg. reflexivity.
  - destruct (GetGradientIndex_keep p s Hge Hpm Hrb) as [H2 _].
    rewrite H2 in H. injection H as <- <-. exact H2.
Qed.

(** ** The zero-column check comes second *)

(** X14. A request for column or sorted-column batches looks up or creates
    the descriptor of its format before it checks the column count.  A
    request that fails on that check therefore leaves the format
    registered: an entry that was there is kept and the state is
    unchanged, and a missing one has been created, not written, under the
    identifier of the format. *)
Theorem X14_zero_column_failure_registers f param s :
  f = ColFmt \/ f = SortedColFmt -> num_col_ (info_ (this s)) = 0 ->
  let r := request f param s in
  let s' := final_state r in
  r = Fatal (CheckFailed "num_col_ != 0") s' /\
  match cache_info_ (this s) !! id_of f s with
  | Some l => s' = s
  | None =>
      cache_info_ (this s') = <[id_of f s := length (caches s)]> (cache_info_ (this s)) /\
      caches s' = caches s ++ [mkCache false (name_of s) (suffix_of f)] /\
      trace s' = trace s ++ [CacheMade (id_of f s) (length (caches s))]
  end.
Proof.
  intros Hf Hz. cbv zeta.
  assert (Hreq : request f param s = GetDerivedBatches f s).
  { destruct Hf as [-> | ->]; cbn [request];
      [apply (f_equal (fun g => g s) GetColumnBatches_eq)
      |apply (f_equal (fun g => g s) GetSortedColumnBatches_eq)]. }
  rewrite Hreq. unfold GetDerivedBatches. rewrite bind_get.
  destruct (MakeCache_cases (suffix_of f) (cache_prefix_ (this s)) s) as [(l & Hl & Hm)|[Hl Hm]];
    rewrite (bind_Ok _ _ _ _ _ Hm), bind_get; msimpl;
    rewrite Hz; cbn [Z.eqb negb CHECK]; rewrite bind_fatal; cbn [final_state];
    (split; [reflexivity|]); unfold id_of, name_of; rewrite Hl.
  - reflexivity.
  - msimpl. auto.
Qed.

(** ** Metadata after construction *)

(** X15. In every state reached after construction, [Info()] returns the
    record that construction computed (the counted shape, the reduced
    column count and the merged per-batch metadata) and changes nothing:
    no sequence of requests and traversals alters the dataset metadata. *)
Theorem X15_Info_reads_construction_metadata u cs s :
  reach E u cs = Some s ->
  Info s =
    Ok (mkMetaInfo (wrap64 (sum_of NumRows (su_batches u)))
          (Allreduce_Max E (running_max (su_batches u)))
          (wrap64 (sum_of page_data_Size (su_batches u)))
          (feature_types (merged_info (su_batches u))) (labels (merged_info (su_batches u))))
       s.
Proof.
  unfold reach.
  destruct (construct E _ _ _ _ _) as [[] s0|e s0] eqn:Hc; [|discriminate].
  destruct (run E cs s0) as [[] s1|e s1] eqn:Hr; [|discriminate].
  intros [= <-]. unfold Info. rewrite bind_get. unfold ret. f_equal.
  pose proof (keeps_run (fun s => info_ (this s)) cs s0) as Hk. rewrite Hr in Hk.
  cbn [final_state] in Hk. rewrite Hk.
  destruct (construct_merges _ _ _ _ _ _ Hc) as [Hft Hlb].
  destruct (construct_this _ _ _ _ _ _ Hc) as (ft & lb & Ht).
  destruct (shape_of_spec (su_batches u)) as (Hrows & Hnnz & Hcols).
  rewrite Ht in Hft, Hlb |- *. cbn [info_ feature_types labels] in *.
  rewrite Hrows, Hnnz, Hcols, Hft, Hlb. reflexivity.
Qed.

(** ** A rebuilt histogram source is rebuilt again until it is traversed *)

Lemma Commit_written c : written c = true -> Commit c = c.
Proof. destruct c as [w n f]. cbn. intros ->. reflexivity. Qed.

(** Once the row cache is written, advancing the row source changes no
    descriptor. *)
Lemma advance_row_caches l p s :
  Inv s -> sources s !! l = Some p -> src_format p = RowFmt ->
  cache_written s RowFmt = true ->
  exists s', PageSource_advance l s = Ok tt s' /\ Inv s' /\ caches s' = caches s /\
    cache_written s' RowFmt = true /\
    exists p', sources s' !! l = Some p' /\ src_format p' = RowFmt.
Proof.
  intros HI Hp Hf Hw.
  destruct (Inv_src_cache _ _ _ HI Hp) as [c Hc].
  destruct (advance_spec l p c s Hp Hc (Inv_src_upstream _ _ _ HI Hp))
    as (s' & Ha & _ & _ & _ & _ & _ & Hca & _).
  destruct (advance_Inv l p s HI Hp) as (s1 & Ha1 & HI1 & HF1 & _).
  assert (s1 = s') by congruence. subst s1.
  exists s'. split; [exact Ha|]. split; [exact HI1|].
  assert (Hwc : written c = true).
  { pose proof (Inv_row_cache _ _ _ HI Hp Hf) as Hrc.
    unfold cache_written in Hw. rewrite Hrc, Hc in Hw. exact Hw. }
  split.
  { rewrite Hca. unfold advance_caches.
    destruct (_ && _); [|reflexivity].
    rewrite Commit_written by exact Hwc. apply list_insert_id. exact Hc. }
  split; [eapply Frame_written; eauto|].
  destruct (fr_sources _ _ HF1 l p Hp) as (p' & Hp' & [n ->]). exists (set_count p n). auto.
Qed.

Lemma range_for_row_caches l bs : forall s acc p,
  Inv s -> sources s !! l = Some p -> src_format p = RowFmt ->
  cache_written s RowFmt = true ->
  caches (final_state (range_for_from l bs (fun _ page acc => ret (acc ++ [page])) acc s))
  = caches s.
Proof.
  induction bs as [|b bs IH]; intros s acc p HI Hp Hf Hw; cbn [range_for_from].
  - reflexivity.
  - rewrite bind_ret.
    destruct (advance_row_caches l p s HI Hp Hf Hw)
      as (s1 & Ha & HI1 & Hc1 & Hw1 & p1 & Hp1 & Hf1).
    rewrite (bind_Ok _ _ _ _ _ Ha). rewrite (IH s1 _ p1 HI1 Hp1 Hf1 Hw1). exact Hc1.
Qed.

Lemma full_pass_caches s :
  Inv s -> cache_written s RowFmt = true -> caches (final_state (full_pass s)) = caches s.
Proof.
  intros HI Hw. unfold full_pass, GetRowBatches, GetRowBatchesImpl.
  destruct (Init_spec s HI) as (s1 & Hi & HI1 & HF1 & Hc1 & (p & ps & Hm & Hp & Hn & Hf) & _).
  mstep Hi. mnorm. rewrite Hm. unfold traverse, range_for. mnorm.
  rewrite (range_for_row_caches p _ s1 [] ps HI1 Hp Hf); [exact Hc1|].
  eapply Frame_written; eauto.
Qed.

Lemma Sketch_caches mb sk h s :
  Inv s -> cache_written s RowFmt = true ->
  caches (final_state (SketchOnDMatrix E mb sk h s)) = caches s.
Proof.
  intros HI Hw. pose proof (full_pass_caches s HI Hw) as Hc.
  destruct (full_pass_spec s HI) as (s' & Hf & _). rewrite Hf in Hc. cbn [final_state] in Hc.
  unfold SketchOnDMatrix. mstep Hf. mnorm. exact Hc.
Qed.

Lemma cache_unwritten s f l c :
  cache_info_ (this s) !! id_of f s = Some l -> caches s !! l = Some c -> written c = false ->
  cache_written s f = false.
Proof. intros Hl Hc Hw. unfold cache_written. rewrite Hl, Hc. exact Hw. Qed.

(** An on-disk rebuild ends with the registry entry of the histogram
    format designating a descriptor that is not written. *)
Lemma disk_rebuild_descriptor param s :
  Inv s -> batches s <> [] -> 2 <= max_bin param -> in_memory param = false ->
  on_disk_gate s param = true ->
  cache_written (final_state (GetGradientIndex E param s)) GradientIndexFmt = false.
Proof.
  intros HI Hne Hmb Him Hg.
  destruct (on_disk_prefix param s HI)
    as (sA & sB & l & c & Hm & Hi & HIA & HIB & HFB & HcB & Hl & Hc & Hgate & HiA & HnbA & HnA
        & HbA & _).
  destruct (Frame_fields _ _ HFB) as (HiB & HnbB & HrB & HnB & _).
  set (gid := id_of GradientIndexFmt s).
  assert (HgidB : id_of GradientIndexFmt sB = gid).
  { unfold gid, id_of. rewrite HnB, HnA. reflexivity. }
  destruct (erase_Inv sB HIB) as (He & HIC & _ & HlC). rewrite HgidB in He, HIC, HlC.
  set (sC := with_trace _ (with_this _ sB)) in *.
  assert (HgidC : id_of GradientIndexFmt sC = gid) by exact HgidB.
  rewrite <- HgidC in HlC.
  destruct (MakeCache_fresh GradientIndexFmt sC HIC HlC)
    as (sD & HmD & HID & _ & HlD & _ & _ & _ & HnD & HbD & _).
  assert (HcD : caches sD = caches sC ++ [mkCache false (name_of sC) (suffix_of GradientIndexFmt)]).
  { destruct (MakeCache_cases (suffix_of GradientIndexFmt) (cache_prefix_ (this sC)) sC)
      as [(l0 & Hl0 & _)|[_ Hm0]].
    - unfold id_of, name_of in HlC. congruence.
    - rewrite HmD in Hm0. injection Hm0 as ->. reflexivity. }
  rewrite HgidC in HmD, HlD.
  assert (HbD' : batches sD <> []).
  { rewrite HbD. subst sC. msimpl. rewrite (fr_batches _ _ HFB), HbA. exact Hne. }
  pose proof (Inv_nonempty_written sD HID HbD') as HwD.
  destruct (SketchOnDMatrix_spec (max_bin param) (regen param) (hess param) sD HID)
    as (s2 & HF2 & HI2 & Hsk).
  pose proof (Sketch_caches (max_bin param) (regen param) (hess param) sD HID HwD) as Hc2.
  rewrite Hsk in Hc2. cbn [final_state] in Hc2.
  set (sE := with_trace (fun t => t ++ [SketchComputed (max_bin param) (regen param)]) s2) in *.
  assert (HIE : Inv sE) by (apply (Inv_irrelevant s2); try reflexivity; exact HI2).
  destruct (Init_spec sE HIE) as (sF & HiF & HIF & HFF & HcF & _).
  destruct (Frame_fields _ _ HF2) as (_ & _ & Hr2 & Hn2 & _).
  destruct (Frame_fields _ _ HFF) as (_ & _ & HrF & HnF & _).
  assert (HlF : cache_info_ (this sF) !! gid = Some (length (caches sC))).
  { rewrite HrF. subst sE. msimpl. rewrite Hr2. exact HlD. }
  assert (HnF' : name_of sF = name_of s).
  { rewrite HnF. subst sE. unfold name_of at 1. msimpl. fold (name_of s2).
    rewrite Hn2, HnD. subst sC. unfold name_of at 1. msimpl. fold (name_of sB).
    rewrite HnB, HnA. reflexivity. }
  assert (HcF' : caches sF !! length (caches sC)
                 = Some (mkCache false (name_of sC) (suffix_of GradientIndexFmt))).
  { rewrite HcF. replace (caches sE) with (caches sD) by (symmetry; exact Hc2).
    rewrite HcD. apply list_lookup_middle. reflexivity. }
  assert (HlF' : cache_info_ (this sF) !! id_of GradientIndexFmt sF
                 = Some (length (caches sC))).
  { unfold id_of. rewrite HnF'. exact HlF. }
  unfold GetGradientIndex. rewrite CHECK_max_bin by exact Hmb.
  fold (in_memory param). rewrite Him. mnorm.
  mstep Hm. mstep Hi. mstep (cache_info_at_Ok _ _ _ Hl). mstep (read_cache_Ok _ _ _ Hc).
  mnorm. rewrite Hgate, Hg.
  rewrite bind_assoc. rewrite (bind_Ok _ _ _ _ _ He). cbv beta. mnorm.
  change (cache_prefix_ (this sB)) with (cache_prefix_ (this sC)).
  mstep HmD. mstep Hsk. mstep HiF. mnorm.
  destruct (Values _) as [|v vs]; cbn [length Nat.eqb negb CHECK]; mnorm.
  - unfold fatal. cbn [final_state].
    apply (cache_unwritten _ GradientIndexFmt (length (caches sC)) _ HlF' HcF'). reflexivity.
  - assert (HlG : cache_info_ (this (with_this (set_ghist_index_source None)
                     (with_this (set_batch_param param) sF))) !! gid
                  = Some (length (caches sC))) by exact HlF.
    mstep (cache_info_at_Ok _ _ _ HlG). unfold new_DerivedSource. mnorm.
    unfold ret. cbn [final_state].
    apply (cache_unwritten _ GradientIndexFmt (length (caches sC)) _ HlF' HcF'). reflexivity.
Qed.

(** X16. An on-disk histogram rebuild leaves the descriptor it creates not
    written.  Hence, over a non-empty data set, a request that rebuilt the
    source is followed by another rebuild if it is repeated before the new
    source has been traversed: the repeated request again erases and
    recreates the descriptor and recomputes the cuts. *)
Theorem X16_rebuilt_source_rebuilt_again u cs s q b s1 :
  reach E u cs = Some s -> su_batches u <> [] ->
  2 <= max_bin q -> in_memory q = false -> on_disk_gate s q = true ->
  GetGradientIndex E q s = Ok b s1 ->
  cache_written s1 GradientIndexFmt = false /\ on_disk_gate s1 q = true /\
  let s2 := final_state (GetGradientIndex E q s1) in
  exists l' evs, trace s2 = trace s1 ++ evs /\
    CacheErased (id_of GradientIndexFmt s1) ∈ evs /\
    CacheMade (id_of GradientIndexFmt s1) l' ∈ evs /\
    SketchComputed (max_bin q) (regen q) ∈ evs /\
    (length (caches s1) <= l')%nat.
Proof.
  intros Hr Hne Hq Hqm Hg H. pose proof (reach_Inv _ _ _ Hr) as HI.
  assert (Hb : batches s <> []) by (rewrite (reach_batches _ _ _ Hr); exact Hne).
  pose proof (disk_rebuild_descriptor q s HI Hb Hq Hqm Hg) as Hw.
  rewrite H in Hw. cbn [final_state] in Hw.
  assert (Hg1 : on_disk_gate s1 q = true).
  { unfold on_disk_gate. rewrite Hw. reflexivity. }
  split; [exact Hw|]. split; [exact Hg1|].
  assert (HI1 : Inv s1).
  { destruct (GetGradientIndex_cases q s HI) as [(b' & Hb' & HI')|[Hf|Hf]].
    - rewrite H in HI'. exact HI'.
    - rewrite H in Hf. discriminate.
    - rewrite H in Hf. discriminate. }
  pose proof (GetGradientIndex_disk_rebuild q s1 HI1 Hq Hqm Hg1) as Hd.
  cbv zeta in Hd |- *.
  destruct Hd as (l' & evs & Htr & _ & He & Hm & Hs & Hl & _).
  exists l', evs. auto.
Qed.

(** ** Objects are replaced, never altered *)



(** ** The iterator is left reset *)


(** ** What a request returns *)

Lemma request_over_source f param s b s' :
  Inv s -> batches s <> [] -> request f param s = Ok b s' ->
  f <> GradientIndexFmt \/ in_memory param = false ->
  exists p ps, b = OverSource (Some p) /\ member f (this s') = Some p /\
    sources s' !! p = Some ps /\ src_format ps = f /\ src_count ps = 0%nat.
Proof.
  intros HI Hne H Hcase. pose proof (Inv_nonempty_written s HI Hne) as Hw.
  assert (Hder : forall g, g <> RowFmt -> GetDerivedBatches g s = Ok b s' ->
    exists p ps, b = OverSource (Some p) /\ member g (this s') = Some p /\
      sources s' !! p = Some ps /\ src_format ps = g /\ src_count ps = 0%nat).
  { intros g Hg Hd.
    destruct (GetDerived_step g s Hg HI Hw) as (p & ps & l & s1 & _ & Hps & _ & _ & _ & _ & Hx).
    destruct (member g (this s)) as [q|] eqn:Hq.
    - destruct Hx as (qs & Hqs & Hqf & Hx & Hm & Hsrc). rewrite Hx in Hd.
      injection Hd as <- <-. exists q, (set_count qs 0).
      split; [reflexivity|]. split; [exact Hm|]. split; [|auto].
      rewrite Hsrc. apply list_lookup_insert_eq. rewrite length_insert.
      eapply lookup_lt_Some; eauto.
    - destruct Hx as (Hx & Hm & Hsrc). rewrite Hx in Hd. injection Hd as <- <-.
      eexists _, _. split; [reflexivity|]. split; [exact Hm|]. split.
      { rewrite Hsrc. apply list_lookup_middle. rewrite length_insert. reflexivity. }
      split; reflexivity. }
  destruct f; cbn [request] in H.
  - destruct (GetRowBatches_rewinds s b s' I H) as (p & ps & Hp & Hps & Hn).
    assert (HI' : Inv s').
    { destruct (GetRowBatches_spec s HI) as (p1 & s1 & H1 & HI1 & _). congruence. }
    assert (Hb : b = OverSource (sparse_page_source_ (this s'))).
    { revert H. unfold GetRowBatches, GetRowBatchesImpl. intros H.
      apply bind_inv in H as ([] & s2 & _ & H). revert H. mnorm. unfold ret.
      intros [= <- <-]. reflexivity. }
    destruct (Inv_member_src s' RowFmt p HI' Hp) as (ps' & Hps' & Hf).
    exists p, ps. split; [rewrite Hb, Hp; reflexivity|]. split; [exact Hp|].
    split; [exact Hps|]. split; [congruence|exact Hn].
  - rewrite GetColumnBatches_eq in H. apply Hder; [discriminate|exact H].
  - rewrite GetSortedColumnBatches_eq in H. apply Hder; [discriminate|exact H].
  - destruct Hcase as [Hcase|Him]; [contradiction|].
    destruct (Z_lt_le_dec (max_bin param) 2) as [Hlt|Hge].
    { rewrite max_bin_check_fails in H by exact Hlt. discriminate. }
    destruct (on_disk_gate s param) eqn:Hg.
    + pose proof (GetGradientIndex_disk_rebuild param s HI Hge Him Hg) as Hd.
      cbv zeta in Hd. rewrite H in Hd. cbn [final_state] in Hd.
      destruct Hd as (l' & evs & _ & _ & _ & _ & _ & _ & _ & _ & _ & Hd).
      destruct (Values _); [destruct Hd as [Hd _]; discriminate|].
      destruct Hd as (p & Hd & _ & _ & Hm & _ & _ & Hsrc). injection Hd as ->.
      eexists _, _. split; [reflexivity|]. split; [exact Hm|]. split; [exact Hsrc|].
      split; reflexivity.
    + destruct (GetGradientIndex_reset param s HI Hge Him Hg)
        as (p0 & p & ps & s1 & H1 & _ & _ & Hm & Hps & Ht & _ & _ & Hps1 & _).
      rewrite H1 in H. injection H as <- <-.
      destruct (Inv_member_src s GradientIndexFmt p HI Hm) as (ps' & Hps' & Hf).
      exists p, (set_count ps 0). split; [reflexivity|]. split; [rewrite Ht; exact Hm|].
      split; [exact Hps1|]. split; [cbn; congruence|reflexivity].
Qed.

(** X19. Every batch set returned starts at the first page of an object of
    the requested format that the object holds.  From a state reached over
    a non-empty data set, a request that returns gives, for the row, column
    and sorted-column formats and for the histogram format in its on-disk
    regime, a batch set over the source held by the member of that format,
    which has that format and stands at its first page; in the in-memory
    regime it gives the single page held by the page member.  No request
    returns a null batch set. *)
Theorem X19_requests_return_rewound_sources u cs s f param b s' :
  reach E u cs = Some s -> su_batches u <> [] ->
  request f param s = Ok b s' ->
  (f <> GradientIndexFmt \/ in_memory param = false ->
   exists p ps, b = OverSource (Some p) /\ member f (this s') = Some p /\
     sources s' !! p = Some ps /\ src_format ps = f /\ src_count ps = 0%nat) /\
  (f = GradientIndexFmt /\ in_memory param = true ->
   exists g, b = SinglePage (Some g) /\ ghist_index_page_ (this s') = Some g).
Proof.
  intros Hr Hne H. pose proof (reach_Inv _ _ _ Hr) as HI.
  assert (Hb : batches s <> []) by (rewrite (reach_batches _ _ _ Hr); exact Hne).
  split; [apply (request_over_source f param s b s' HI Hb H)|].
  intros [-> Him]. cbn [request] in H.
  destruct (Z_lt_le_dec (max_bin param) 2) as [Hlt|Hge].
  { rewrite max_bin_check_fails in H by exact Hlt. discriminate. }
  destruct (rebuild_in_memory E s param) eqn:Hrb.
  - destruct (GetGradientIndex_rebuild param s HI Hge Him Hrb) as (s2 & H2 & _ & _ & _ & Hpg & _).
    rewrite H2 in H. injection H as <- <-. eauto.
  - destruct (GetGradientIndex_keep param s Hge Him Hrb) as [H2 [g Hg]].
    rewrite H2 in H. injection H as <- <-. rewrite Hg. eauto.
Qed.

(** ** The shape does not depend on the order of delivery *)

Lemma sum_of_perm f bs bs' : bs ≡ₚ bs' -> sum_of f bs = sum_of f bs'.
Proof.
  unfold sum_of. induction 1 as [|x l l' _ IH|x y l|l l' l'' _ IH1 _ IH2]; cbn [foldr].
  - reflexivity.
  - rewrite IH. reflexivity.
  - lia.
  - congruence.
Qed.

Lemma foldl_max_perm l l' : l ≡ₚ l' -> forall a, foldl Z.max a l = foldl Z.max a l'.
Proof.
  induction 1 as [|x l l' _ IH|x y l|l l' l'' _ IH1 _ IH2]; intros a; cbn [foldl].
  - reflexivity.
  - apply IH.
  - f_equal. lia.
  - rewrite IH1. apply IH2.
Qed.

Lemma running_max_perm bs bs' : bs ≡ₚ bs' -> running_max bs = running_max bs'.
Proof.
  intros H. unfold running_max. apply foldl_max_perm. apply fmap_Permutation. exact H.
Qed.

Lemma dispatchable_perm bs bs' :
  bs ≡ₚ bs' -> forallb dispatchable bs = forallb dispatchable bs'.
Proof.
  induction 1 as [|x l l' _ IH|x y l|l l' l'' _ IH1 _ IH2]; cbn [forallb].
  - reflexivity.
  - rewrite IH. reflexivity.
  - destruct (dispatchable x), (dispatchable y); reflexivity.
  - congruence.
Qed.

(** X20. The shape recorded by construction does not depend on the order
    in which the iterator delivers the raw batches: if construction
    succeeds on a sequence of batches, it succeeds on every permutation of
    it and records the same row, column and nonzero counts and the same
    number of batches. *)
Theorem X20_shape_independent_of_order ptr bs bs' missing nthreads cache_prefix s :
  bs ≡ₚ bs' ->
  construct E ptr bs missing nthreads cache_prefix = Ok tt s ->
  exists s', construct E ptr bs' missing nthreads cache_prefix = Ok tt s' /\
    num_row_ (info_ (this s')) = num_row_ (info_ (this s)) /\
    num_col_ (info_ (this s')) = num_col_ (info_ (this s)) /\
    num_nonzero_ (info_ (this s')) = num_nonzero_ (info_ (this s)) /\
    n_batches_ (this s') = n_batches_ (this s).
Proof.
  intros Hp H.
  pose proof (construct_spec ptr bs missing nthreads cache_prefix) as Hs.
  pose proof (construct_spec ptr bs' missing nthreads cache_prefix) as Hs'.
  rewrite H in Hs. cbv zeta in Hs, Hs'.
  destruct Hs as (Hd & Hnz & (ft & lb & Ht) & _).
  destruct (shape_of_spec bs) as (Hrows & Hnnz & Hcols).
  destruct (shape_of_spec bs') as (Hrows' & Hnnz' & Hcols').
  assert (Hnb : n_batches (shape_of bs') = n_batches (shape_of bs)).
  { unfold shape_of. rewrite !fold_batches by reflexivity. rewrite (Permutation_length Hp).
    reflexivity. }
  pose proof (running_max_perm _ _ Hp) as Hmax.
  pose proof (dispatchable_perm _ _ Hp) as Hdp.
  destruct (construct E ptr bs' missing nthreads cache_prefix) as [[] s'|e s'].
  - destruct Hs' as (_ & _ & (ft' & lb' & Ht') & _). exists s'. split; [reflexivity|].
    rewrite Ht, Ht'. cbn [info_ num_row_ num_col_ num_nonzero_ n_batches_].
    rewrite Hrows, Hrows', Hnnz, Hnnz', Hcols, Hcols', Hnb, Hmax.
    rewrite (sum_of_perm NumRows _ _ Hp), (sum_of_perm page_data_Size _ _ Hp). auto.
  - exfalso. rewrite Hcols in Hnz. rewrite Hcols' in Hs'.
    destruct Hs' as [[_ Hs']|(_ & _ & Hs')]; congruence.
Qed.

Lemma foldl_max_ge l : forall a, a <= foldl Z.max a l /\ forall x, x ∈ l -> x <= foldl Z.max a l.
Proof.
  induction l as [|y l IH]; intros a; cbn [foldl].
  - split; [lia|]. intros x Hx. inversion Hx.
  - destruct (IH (Z.max a y)) as [H1 H2]. split; [lia|].
    intros x Hx. apply elem_of_cons in Hx as [->|Hx]; [lia|auto].
Qed.

(** X21. No batch is wider than the recorded column count, as long as the
    reduction across workers does not return less than it was given: after
    a successful construction every raw batch has at most the recorded
    number of columns. *)
Theorem X21_no_batch_wider_than_recorded ptr bs missing nthreads cache_prefix s :
  (forall z, z <= Allreduce_Max E z) ->
  construct E ptr bs missing nthreads cache_prefix = Ok tt s ->
  forall b, b ∈ bs -> NumCols b <= num_col_ (info_ (this s)).
Proof.
  intros Hext H b Hb. destruct (construct_this _ _ _ _ _ _ H) as (ft & lb & ->).
  cbn [info_ num_col_]. destruct (shape_of_spec bs) as (_ & _ & ->).
  etransitivity; [|apply Hext]. unfold running_max.
  apply (foldl_max_ge (NumCols <$> bs) 0). apply list_elem_of_fmap. eauto.
Qed.

(** ** The metadata agrees with what a traversal serves *)

Lemma reach_from u cs s :
  reach E u cs = Some s ->
  exists s0, construct E (su_ptr u) (su_batches u) (su_missing u) (su_nthreads u)
               (su_cache_prefix u) = Ok tt s0 /\ run E cs s0 = Ok tt s.
Proof.
  unfold reach.
  destruct (construct E _ _ _ _ _) as [[] s0|e s0]; [|discriminate].
  destruct (run E cs s0) as [[] s1|e s1] eqn:Hr; [|discriminate].
  intros [= <-]. eauto.
Qed.

Lemma reach_counts u cs s :
  reach E u cs = Some s ->
  n_batches_ (this s) = wrap32 (Z.of_nat (length (su_batches u))) /\
  num_nonzero_ (info_ (this s)) = wrap64 (sum_of page_data_Size (su_batches u)).
Proof.
  intros Hr. destruct (reach_from u cs s Hr) as (s0 & Hc & Hrun).
  assert (HS : Step (same_on (fun s => (info_ (this s), n_batches_ (this s)))) (fun _ => true))
    by same_on_tac.
  pose proof (moves_run _ _ cs (fun _ => eq_refl) s0) as H. rewrite Hrun in H.
  unfold same_on in H. cbn [final_state] in H. injection H as -> ->.
  destruct (construct_this _ _ _ _ _ _ Hc) as (ft & lb & ->). cbn [n_batches_ info_ num_nonzero_].
  destruct (shape_of_spec (su_batches u)) as (_ & -> & _).
  unfold shape_of. rewrite fold_batches by reflexivity. auto.
Qed.

Lemma pages_size_of bs : pages_size (page_of <$> bs) = sum_of page_data_Size bs.
Proof.
  unfold pages_size, sum_of. induction bs as [|b bs IH]; cbn; [reflexivity|].
  cbn in IH. rewrite IH. reflexivity.
Qed.

(** X22. The metadata agrees with what a traversal serves.  From every
    reachable state, a request for row batches followed by a full
    traversal of the batch set it returns yields as many pages as
    construction counted batches, and pages holding together as many
    entries as construction counted nonzeros (in the arithmetic of the
    counters). *)
Theorem X22_served_pages_agree_with_metadata u cs s :
  reach E u cs = Some s ->
  exists p s1 pages s2,
    GetRowBatches s = Ok (OverSource (Some p)) s1 /\
    traverse (OverSource (Some p)) s1 = Ok pages s2 /\
    n_batches_ (this s) = wrap32 (Z.of_nat (length pages)) /\
    num_nonzero_ (info_ (this s)) = wrap64 (pages_size pages).
Proof.
  intros Hr. pose proof (reach_Inv _ _ _ Hr) as HI.
  destruct (reach_counts u cs s Hr) as [Hnb Hnnz].
  destruct (GetRowBatches_spec s HI) as (p & s1 & H1 & HI1 & _ & Hs1 & Hp1 & _).
  destruct (traverse_spec p s1 HI1 Hs1) as (s2 & Ht & _).
  rewrite Hp1, (reach_batches _ _ _ Hr) in Ht.
  exists p, s1, (page_of <$> su_batches u), s2.
  split; [exact H1|]. split; [exact Ht|].
  rewrite length_fmap, pages_size_of. auto.
Qed.

(** ** An in-memory rebuild invalidates the on-disk source *)

(** X23. Because the regimes share the record of last-used parameters, an
    in-memory rebuild with parameters [p] invalidates the on-disk source:
    the next on-disk request with parameters [q] that the comparison tells
    apart from [p] and from the default ones takes the rebuild path, and
    erases and recreates the descriptor and recomputes the cuts, even when
    the descriptor was fully written and the request does not force
    regen. *)
Theorem X23_in_memory_rebuild_invalidates_disk u cs s p q b s1 :
  reach E u cs = Some s ->
  2 <= max_bin p -> in_memory p = true -> rebuild_in_memory E s p = true ->
  2 <= max_bin q -> in_memory q = false ->
  BatchParam_ne E p q = true -> BatchParam_ne E q (BatchParam_default E) = true ->
  GetGradientIndex E p s = Ok b s1 ->
  batch_param_ (this s1) = p /\ on_disk_gate s1 q = true /\
  let s2 := final_state (GetGradientIndex E q s1) in
  exists l' evs, trace s2 = trace s1 ++ evs /\
    CacheErased (id_of GradientIndexFmt s1) ∈ evs /\
    CacheMade (id_of GradientIndexFmt s1) l' ∈ evs /\
    SketchComputed (max_bin q) (regen q) ∈ evs /\
    (length (caches s1) <= l')%nat /\ batch_param_ (this s2) = q.
Proof.
  intros Hr Hp Hpm Hrb Hq Hqm Hne Hnd H. pose proof (reach_Inv _ _ _ Hr) as HI.
  destruct (GetGradientIndex_rebuild p s HI Hp Hpm Hrb) as (s' & H' & HI1 & _ & _ & _ & Hbp).
  rewrite H' in H. injection H as _ <-.
  assert (Hg : on_disk_gate s' q = true).
  { unfold on_disk_gate. rewrite Hbp, Hne, Hnd. cbn. rewrite orb_true_r. reflexivity. }
  split; [exact Hbp|]. split; [exact Hg|].
  pose proof (GetGradientIndex_disk_rebuild q s' HI1 Hq Hqm Hg) as Hd.
  cbv zeta in Hd |- *.
  destruct Hd as (l' & evs & Htr & _ & He & Hm & Hs & Hl & _ & _ & Hb2 & _).
  exists l', evs. auto 10.
Qed.
End Properties.

(** * Distributed workers *)

(** X24. In a distributed run the workers obtain distinct cache prefixes:
    two constructions given the same prefix, on workers of different ranks,
    record different resolved prefixes, so their cache files cannot
    collide. *)
Theorem X24_workers_get_distinct_prefixes (E1 E2 : Collaborators)
    ptr1 ptr2 bs1 bs2 missing1 missing2 nthreads1 nthreads2 cache_prefix s1 s2 :
  IsDistributed E1 = true -> IsDistributed E2 = true -> GetRank E1 <> GetRank E2 ->
  construct E1 ptr1 bs1 missing1 nthreads1 cache_prefix = Ok tt s1 ->
  construct E2 ptr2 bs2 missing2 nthreads2 cache_prefix = Ok tt s2 ->
  cache_prefix_ (this s1) <> cache_prefix_ (this s2).
Proof.
  intros Hd1 Hd2 Hne H1 H2.
  destruct (construct_this E1 _ _ _ _ _ _ H1) as (ft1 & lb1 & ->).
  destruct (construct_this E2 _ _ _ _ _ _ H2) as (ft2 & lb2 & ->).
  cbn [this cache_prefix_]. unfold prefix_of. rewrite Hd1, Hd2. intros Heq.
  apply append_inj_l in Heq. apply append_inj_l in Heq.
  apply Hne. exact (pretty_Z_inj _ _ Heq).
Qed.

(** * Instances on the concrete data set *)

Lemma C1_construction_shape_witness :
  exists s, construct host_build "0x1" three_batches 0 4 "" = Ok tt s /\
    num_row_ (info_ (this s)) = 300 /\ num_col_ (info_ (this s)) = 20 /\
    num_nonzero_ (info_ (this s)) = 2400.
Proof.
  destruct (C1_construction_shape host_build "0x1" three_batches 0 4 "")
    as (s & H & A & B & C & D & F).
  - vm_compute. reflexivity.
  - vm_compute. discriminate.
  - exists s. split; [exact H|]. split; [|split].
    + rewrite D; [reflexivity|]. vm_compute. split; [discriminate|reflexivity].
    + rewrite C. reflexivity.
    + rewrite F; [reflexivity|]. vm_compute. split; [discriminate|reflexivity].
Defined.

Lemma C2_in_memory_gate_witness :
  exists s1 s2,
    GetGradientIndex host_build p256 (state_after []) = Ok (SinglePage (Some 0%nat)) s1 /\
    GetGradientIndex host_build p64 s1 = Ok (SinglePage (Some 1%nat)) s2.
Proof.
  assert (Hr : reach host_build example_setup [] = Some (state_after [])).
  { vm_compute. reflexivity. }
  destruct (C2_in_memory_gate host_build example_setup [] (state_after []) p256 Hr)
    as (_ & _ & H); [cbn; lia|reflexivity|reflexivity|].
  destruct (H p256 p64) as (s1 & s2 & H1 & H2 & _); try reflexivity.
  exists s1, s2. split; [exact H1|exact H2].
Defined.

Lemma C3_on_disk_gate_witness :
  exists p l',
    GetGradientIndex host_build weighted_param (state_after [])
      = Ok (OverSource (Some p))
           (final_state (GetGradientIndex host_build weighted_param (state_after []))) /\
    cache_info_ (this (final_state (GetGradientIndex host_build weighted_param (state_after []))))
      !! id_of GradientIndexFmt (state_after []) = Some l' /\
    (1 <= l')%nat.
Proof.
  assert (Hr : reach host_build example_setup [] = Some (state_after [])).
  { vm_compute. reflexivity. }
  destruct (C3_on_disk_gate host_build example_setup [] (state_after []) weighted_param Hr)
    as [H _]; [cbn; lia|reflexivity|reflexivity|].
  destruct H as (l' & evs & _ & _ & _ & _ & Hl & Hreg & _ & Hm).
  { left. vm_compute. reflexivity. }
  cbn [host_build SketchOnDMatrix_cuts Values] in Hm. destruct Hm as (p & Hm & _).
  exists p, l'. split; [exact Hm|]. split; [exact Hreg|]. exact Hl.
Defined.

Lemma C4_zero_columns_fatal_witness :
  (exists s', construct host_build "0x1" [host_batch 10 0 0] 0 4 ""
              = Fatal (CheckFailed "info_.num_col_ != 0") s') /\
  fails_before_sources GetColumnBatches blank_state /\
  fails_before_sources GetSortedColumnBatches blank_state.
Proof.
  destruct (C4_zero_columns_fatal host_build "0x1" [host_batch 10 0 0] 0 4 "" blank_state)
    as [H1 H2].
  split; [|apply H2; reflexivity].
  destruct H1 as (e & s' & H & He); [reflexivity|].
  exists s'. rewrite H, He; reflexivity.
Defined.

Lemma C5_written_cache_replays_witness :
  sparse_page_source_ (this (final_state (GetColumnBatches
      (state_after [CallGetColumnBatches; CallAdvance 1; CallAdvance 1; CallAdvance 1]))))
  = Some 0%nat.
Proof.
  set (cs := [CallGetColumnBatches; CallAdvance 1; CallAdvance 1; CallAdvance 1]).
  assert (Hr : reach host_build example_setup cs = Some (state_after cs)).
  { vm_compute. reflexivity. }
  destruct (C5_written_cache_replays host_build example_setup cs (state_after cs) ColFmt p256 Hr)
    as [(_ & H & _) _].
  { vm_compute. reflexivity. }
  cbn [request] in H. rewrite H. vm_compute. reflexivity.
Defined.

Lemma C6_row_batches_restart_witness :
  exists p1 s1, GetRowBatches (state_after []) = Ok (OverSource (Some p1)) s1 /\
    (exists t1, traverse (OverSource (Some p1)) s1 = Ok (page_of <$> three_batches) t1) /\
    forall s1', run host_build [CallAdvance 0; CallAdvance 0] s1 = Ok tt s1' ->
      exists p2 s2, GetRowBatches s1' = Ok (OverSource (Some p2)) s2 /\
        (exists t2, traverse (OverSource (Some p2)) s2 = Ok (page_of <$> three_batches) t2) /\
        p2 = p1.
Proof.
  assert (Hr : reach host_build example_setup [] = Some (state_after [])).
  { vm_compute. reflexivity. }
  destruct (C6_row_batches_restart host_build example_setup [] (state_after [])
              [0%nat; 0%nat] Hr) as (p1 & s1 & H1 & _ & H2 & H3).
  exists p1, s1. split; [exact H1|]. split; [exact H2|].
  intros s1' Hrun. destruct (H3 s1' Hrun) as (p2 & s2 & A & _ & B & C).
  exists p2, s2. split; [exact A|]. split; [exact B|]. apply C. discriminate.
Defined.

Lemma C7_small_max_bin_fails_first_witness :
  GetGradientIndex host_build (mkBatchParam 1 [] false) blank_state
  = Fatal (CheckFailed "param.max_bin >= 2") blank_state.
Proof.
  apply (C7_small_max_bin_fails_first host_build (mkBatchParam 1 [] false) blank_state).
  cbn. lia.
Defined.

Lemma C8_device_fallback_witness :
  num_cols host_build device_batch blank_state = Fatal NoGPUSupport blank_state /\
  exists s', construct host_build "0x1" ([host_batch 100 20 700] ++ device_batch :: []) 0 4 ""
             = Fatal NoGPUSupport s'.
Proof.
  destruct (C8_device_fallback host_build device_batch blank_state eq_refl) as [[_ H1] H2].
  destruct (H2 eq_refl) as (_ & H3 & H4). split; [rewrite H1; exact H3|].
  apply H4.
Defined.

Lemma C9_retrieval_keeps_metadata_witness :
  info_ (this (final_state (GetGradientIndex host_build p256 (state_after []))))
    = info_ (this (state_after [])) /\
  is_Ok (GetGradientIndex host_build p256 (state_after [])) = true /\
  is_Ok (GetColumnBatches (state_after [])) = true.
Proof.
  assert (Hr : reach host_build example_setup [] = Some (state_after [])).
  { vm_compute. reflexivity. }
  destruct (C9_retrieval_keeps_metadata host_build example_setup [] (state_after []) p256 Hr)
    as (_ & (_ & Hc) & _ & (Hi & Hok & _)).
  split; [exact Hi|]. split; [|exact Hc]. apply Hok; [cbn; lia|reflexivity].
Defined.

Lemma C10_ellpack_needs_cuda_witness :
  GetEllpackBatches host_build p256 (state_after []) = Fatal NoGPUSupport (state_after []).
Proof.
  apply (C10_ellpack_needs_cuda host_build p256 (state_after [])). reflexivity.
Defined.

(** ** Instances of the further properties *)


Lemma X1_ctor_resolves_prefix_witness :
  cache_prefix_ (this (state_after [])) = "DMatrix" /\ ctx_nthread (this (state_after [])) = 4.
Proof.
  destruct (X1_ctor_resolves_prefix host_build "0x1" three_batches 0 4 "" (state_after []))
    as (H1 & _ & _ & _ & H2).
  - vm_compute. reflexivity.
  - split; [rewrite H1; reflexivity|exact H2].
Defined.

Lemma X2_ctor_counts_batches_witness : n_batches_ (this (state_after [])) = 3.
Proof.
  destruct (X2_ctor_counts_batches host_build "0x1" three_batches 0 4 "" (state_after []))
    as [_ H].
  - vm_compute. reflexivity.
  - apply H. vm_compute. reflexivity.
Defined.

Lemma X3_ctor_merges_metadata_witness :
  info_ (this (state_after [])) = mkMetaInfo 300 20 2400 [] [100; 150; 50].
Proof.
  rewrite (X3_ctor_merges_metadata host_build "0x1" three_batches 0 4 "" (state_after [])).
  - vm_compute. reflexivity.
  - vm_compute. reflexivity.
Defined.

Lemma X4_ctor_creates_row_source_only_witness :
  length (sources (state_after [])) = 1%nat /\ column_source_ (this (state_after [])) = None.
Proof.
  destruct (X4_ctor_creates_row_source_only host_build "0x1" three_batches 0 4 ""
              (state_after [])) as ((ps & H1 & _) & _ & _ & H2 & _).
  - vm_compute. reflexivity.
  - split; [rewrite H1; reflexivity|exact H2].
Defined.

Lemma X7_row_source_reset_after_use_witness :
  rewound (final_state (GetGradientIndex host_build weighted_param (state_after []))).
Proof.
  destruct (X7_row_source_reset_after_use host_build GradientIndexFmt weighted_param
              (state_after []) (OverSource (Some 1%nat))
              (final_state (GetGradientIndex host_build weighted_param (state_after []))))
    as [(_ & H & _)|[H _]].
  - vm_compute. reflexivity.
  - vm_compute in H. discriminate H.
  - exact H.
Defined.

Lemma X8_column_source_created_bound_witness :
  exists s', GetColumnBatches (state_after []) = Ok (OverSource (Some 1%nat)) s' /\
    sources s' !! 1%nat = Some (mkPageSource ColFmt 1 (Some 0%nat) 20 3 None 0).
Proof.
  destruct (X8_column_source_created_bound host_build example_setup [] (state_after [])
              ColFmt p256) as (p & l & s' & H1 & _ & _ & Hp & Hl & Hs).
  - vm_compute. reflexivity.
  - discriminate.
  - left. reflexivity.
  - vm_compute. reflexivity.
  - exists s'. split; [exact H1|].
    assert (Hs' : s' = final_state (GetColumnBatches (state_after []))).
    { cbn [request] in H1. rewrite H1. reflexivity. }
    rewrite Hs'. vm_compute. reflexivity.
Defined.

Lemma X9_column_source_reused_witness :
  cache_written (state_after [CallGetColumnBatches]) ColFmt = false /\
  exists s', GetColumnBatches (state_after [CallGetColumnBatches])
             = Ok (OverSource (Some 1%nat)) s' /\
    length (sources s') = 2%nat.
Proof.
  split; [vm_compute; reflexivity|].
  destruct (X9_column_source_reused host_build example_setup [CallGetColumnBatches]
              (state_after [CallGetColumnBatches]) ColFmt p256 1%nat)
    as (qs & s' & H1 & _ & H2 & _).
  - vm_compute. reflexivity.
  - discriminate.
  - left. reflexivity.
  - vm_compute. reflexivity.
  - exists s'. split; [exact H1|]. rewrite H2. vm_compute. reflexivity.
Defined.

Lemma X10_derived_sources_share_row_source_witness :
  src_upstream (mkPageSource ColFmt 1 (Some 0%nat) 20 3 None 0)
  = sparse_page_source_ (this (state_after [CallGetColumnBatches; CallGetSortedColumnBatches])).
Proof.
  apply (X10_derived_sources_share_row_source host_build example_setup
           [CallGetColumnBatches; CallGetSortedColumnBatches]
           (state_after [CallGetColumnBatches; CallGetSortedColumnBatches]) ColFmt 1%nat).
  - vm_compute. reflexivity.
  - discriminate.
  - discriminate.
  - vm_compute. reflexivity.
  - vm_compute. reflexivity.
Defined.

Lemma X11_row_source_created_once_witness :
  sparse_page_source_ (this (state_after regen_then_traverse)) = Some 0%nat.
Proof.
  apply (X11_row_source_created_once host_build example_setup regen_then_traverse
           (state_after regen_then_traverse)).
  - vm_compute. reflexivity.
  - discriminate.
Defined.

Lemma X12_regimes_share_last_params_witness :
  ghist_index_page_ (this (state_after [CallGetGradientIndex p64])) = Some 0%nat /\
  exists s2,
    GetGradientIndex host_build p64
      (final_state (GetGradientIndex host_build weighted_param
                      (state_after [CallGetGradientIndex p64])))
    = Ok (SinglePage (Some 1%nat)) s2.
Proof.
  split; [vm_compute; reflexivity|].
  destruct (X12_regimes_share_last_params host_build example_setup [CallGetGradientIndex p64]
              (state_after [CallGetGradientIndex p64]) weighted_param p64
              (OverSource (Some 1%nat))
              (final_state (GetGradientIndex host_build weighted_param
                              (state_after [CallGetGradientIndex p64]))))
    as (_ & _ & s2 & H & _).
  - vm_compute. reflexivity.
  - cbn. lia.
  - reflexivity.
  - vm_compute. reflexivity.
  - cbn. lia.
  - reflexivity.
  - vm_compute. reflexivity.
  - vm_compute. reflexivity.
  - vm_compute. reflexivity.
  - exists s2. exact H.
Defined.

Lemma X13_in_memory_request_idempotent_witness :
  GetGradientIndex host_build p256
    (final_state (GetGradientIndex host_build p256 (state_after [])))
  = Ok (SinglePage (Some 0%nat))
      (final_state (GetGradientIndex host_build p256 (state_after []))).
Proof.
  apply (X13_in_memory_request_idempotent host_build example_setup [] (state_after []) p256).
  - vm_compute. reflexivity.
  - reflexivity.
  - vm_compute. reflexivity.
  - vm_compute. reflexivity.
Defined.

Lemma X14_zero_column_failure_registers_witness :
  is_Some (cache_info_ (this (final_state (GetColumnBatches blank_state)))
             !! id_of ColFmt blank_state).
Proof.
  destruct (X14_zero_column_failure_registers host_build ColFmt p256 blank_state)
    as [_ H].
  - left. reflexivity.
  - reflexivity.
  - assert (Hn : cache_info_ (this blank_state) !! id_of ColFmt blank_state = None)
      by (vm_compute; reflexivity).
    rewrite Hn in H. destruct H as (H & _). cbn [request] in H. rewrite H.
    rewrite lookup_insert_eq. eauto.
Defined.

Lemma X15_Info_reads_construction_metadata_witness :
  Info (state_after regen_then_traverse)
  = Ok (mkMetaInfo 300 20 2400 [] [100; 150; 50]) (state_after regen_then_traverse).
Proof.
  rewrite (X15_Info_reads_construction_metadata host_build example_setup regen_then_traverse
             (state_after regen_then_traverse)).
  - vm_compute. reflexivity.
  - vm_compute. reflexivity.
Defined.

Lemma X16_rebuilt_source_rebuilt_again_witness :
  on_disk_gate host_build
    (final_state (GetGradientIndex host_build weighted_param (state_after [])))
    weighted_param = true.
Proof.
  apply (X16_rebuilt_source_rebuilt_again host_build example_setup [] (state_after [])
           weighted_param (OverSource (Some 1%nat))
           (final_state (GetGradientIndex host_build weighted_param (state_after [])))).
  - vm_compute. reflexivity.
  - discriminate.
  - cbn. lia.
  - reflexivity.
  - vm_compute. reflexivity.
  - vm_compute. reflexivity.
Defined.


Lemma X19_requests_return_rewound_sources_witness :
  exists p ps,
    sources (final_state (GetSortedColumnBatches (state_after []))) !! p = Some ps /\
    src_format ps = SortedColFmt /\ src_count ps = 0%nat.
Proof.
  destruct (X19_requests_return_rewound_sources host_build example_setup [] (state_after [])
              SortedColFmt p256 (OverSource (Some 1%nat))
              (final_state (GetSortedColumnBatches (state_after [])))) as [H _].
  - vm_compute. reflexivity.
  - discriminate.
  - vm_compute. reflexivity.
  - destruct H as (p & ps & _ & _ & H1 & H2 & H3); [left; discriminate|].
    exists p, ps. auto.
Defined.

Lemma X20_shape_independent_of_order_witness :
  exists s', construct host_build "0x1"
               [host_batch 50 20 900; host_batch 100 20 700; host_batch 150 20 800] 0 4 ""
             = Ok tt s' /\
    num_row_ (info_ (this s')) = 300 /\ n_batches_ (this s') = 3.
Proof.
  destruct (X20_shape_independent_of_order host_build "0x1" three_batches
              [host_batch 50 20 900; host_batch 100 20 700; host_batch 150 20 800] 0 4 ""
              (state_after [])) as (s' & H & H1 & _ & _ & H2).
  - unfold three_batches. symmetry. apply Permutation_cons_append.
  - vm_compute. reflexivity.
  - exists s'. split; [exact H|]. rewrite H1, H2. vm_compute. auto.
Defined.

Lemma X21_no_batch_wider_than_recorded_witness :
  NumCols (host_batch 150 20 800) <= num_col_ (info_ (this (state_after []))).
Proof.
  apply (X21_no_batch_wider_than_recorded host_build "0x1" three_batches 0 4 "").
  - intros z. cbn. lia.
  - vm_compute. reflexivity.
  - unfold three_batches. set_solver.
Defined.

Lemma X22_served_pages_agree_with_metadata_witness :
  exists p s1 pages s2,
    GetRowBatches (state_after [CallGetColumnBatches]) = Ok (OverSource (Some p)) s1 /\
    traverse (OverSource (Some p)) s1 = Ok pages s2 /\
    n_batches_ (this (state_after [CallGetColumnBatches])) = wrap32 (Z.of_nat (length pages)).
Proof.
  destruct (X22_served_pages_agree_with_metadata host_build example_setup
              [CallGetColumnBatches] (state_after [CallGetColumnBatches]))
    as (p & s1 & pages & s2 & H1 & H2 & H3 & _).
  - vm_compute. reflexivity.
  - exists p, s1, pages, s2. auto.
Defined.

Lemma X23_in_memory_rebuild_invalidates_disk_witness :
  cache_written
    (state_after [CallGetGradientIndex weighted_param; CallAdvance 1; CallAdvance 1;
                  CallAdvance 1]) GradientIndexFmt = true /\
  on_disk_gate host_build
    (final_state (GetGradientIndex host_build p64
       (state_after [CallGetGradientIndex weighted_param; CallAdvance 1; CallAdvance 1;
                     CallAdvance 1])))
    weighted_param = true.
Proof.
  split; [vm_compute; reflexivity|].
  apply (X23_in_memory_rebuild_invalidates_disk host_build example_setup
           [CallGetGradientIndex weighted_param; CallAdvance 1; CallAdvance 1; CallAdvance 1]
           (state_after [CallGetGradientIndex weighted_param; CallAdvance 1; CallAdvance 1;
                         CallAdvance 1])
           p64 weighted_param (SinglePage (Some 0%nat))).
  - vm_compute. reflexivity.
  - cbn. lia.
  - reflexivity.
  - vm_compute. reflexivity.
  - cbn. lia.
  - reflexivity.
  - vm_compute. reflexivity.
  - vm_compute. reflexivity.
  - vm_compute. reflexivity.
Defined.

Lemma X24_workers_get_distinct_prefixes_witness :
  cache_prefix_ (this (final_state (construct (worker_build 0) "0x1" three_batches 0 4 "")))
  <> cache_prefix_ (this (final_state (construct (worker_build 1) "0x1" three_batches 0 4 ""))).
Proof.
  apply (X24_workers_get_distinct_prefixes (worker_build 0) (worker_build 1)
           "0x1" "0x1" three_batches three_batches 0 0 4 4 "").
  - reflexivity.
  - reflexivity.
  - discriminate.
  - vm_compute. reflexivity.
  - vm_compute. reflexivity.
Defined.

(** C5 as first stated does not hold: a request for histogram-index batches
    that forces regen, made when the entry of that format is fully written,
    replaces the histogram-index source instead of only resetting it. *)
Lemma C5_counterexample :
  ~ (forall cs s f param,
       reach host_build example_setup cs = Some s -> cache_written s f = true ->
       only_resets host_build f param s).
Proof.
  intros H.
  specialize (H regen_then_traverse (state_after regen_then_traverse) GradientIndexFmt
                regen_param).
  destruct H as [Hm _].
  - vm_compute. reflexivity.
  - vm_compute. reflexivity.
  - vm_compute in Hm. discriminate.
Qed.
